(** * pyDynamo: branch classification, change detection and motility

    A shallow embedding of
      - [analysis/addedSubtractedTransitioned.py]
        ([addedSubtractedTransitioned], [_recursiveFiloTypes],
        [fillMasterChanged]),
      - [calc/motility.py] ([motility], [_calcFiloLengths],
        [_lastPointWithLabel]),
      - [model/tree/tree.py] ([Tree], [getBranchByID]) and [util/util.py]
        ([emptyArrayMatrix]),
    followed by the properties of section 8 of the specification and of the
    code itself.

    Conventions of the embedding.
      - Python objects live in a store: the store of the Branch objects of a
        snapshot is [tree.branches], and a Branch object is named by its
        position in that list, which is what [branch.indexInParent()]
        returns for pairwise different Branch objects.  [point.children]
        therefore is a list of positions.  Points are read-only here and are
        kept by value.
      - Lengths are Python floats in the source.  They are idealised as
        rationals; NaN and the infinities that numpy produces are explicit
        constructors of [npfloat].
      - Python exceptions are values of [PyError]; a computation either
        returns [Ok] or [Raise]s.  The numpy arrays that the recursive
        traversals mutate in place are threaded as explicit state.
      - The recursion depth of the interpreter is the [fuel] argument of the
        two recursive traversals; exhausting it is [RecursionError].
      - branch.py, the enum FiloType, [util.sortedBranchIDList],
        [util.lastPointWithLabelIdx] and analysis/TDBL.py are not among the
        sources.  They are modelled from the specification or taken as
        parameters, and marked as such. *)

From Stdlib Require Import QArith Qabs String Ascii Lia Sorted OrderedTypeEx.
From stdpp Require Import base tactics option list.

Local Open Scope nat_scope.
Local Open Scope list_scope.

(** ** Exceptions and the result type *)

Inductive PyError : Type :=
  | ValueError
  | IndexError
  | AttributeError
  | RecursionError.

Inductive Result (A : Type) : Type :=
  | Ok (a : A)
  | Raise (e : PyError).
Arguments Ok {A} a.
Arguments Raise {A} e.

Definition isOk {A} (r : Result A) : bool :=
  match r with Ok _ => true | Raise _ => false end.

(** State-and-exception monad: the state is the numpy accumulator(s) that the
    callee mutates in place. *)
Definition M (S A : Type) : Type := S -> Result (A * S).

Definition ret {S A} (a : A) : M S A := fun s => Ok (a, s).
Definition raise {S A} (e : PyError) : M S A := fun _ => Raise e.
Definition bind {S A B} (m : M S A) (k : A -> M S B) : M S B :=
  fun s => match m s with
           | Ok (a, s') => k a s'
           | Raise e => Raise e
           end.
Definition lift {S A} (r : Result A) : M S A :=
  fun s => match r with Ok a => Ok (a, s) | Raise e => Raise e end.

Declare Scope py_scope.
Delimit Scope py_scope with py.
Notation "x <- c1 ;; c2" := (bind c1 (fun x => c2))
  (at level 100, c1 at next level, right associativity) : py_scope.
Notation "c1 ;;; c2" := (bind c1 (fun _ => c2))
  (at level 100, c2 at level 200, right associativity) : py_scope.
Local Open Scope py_scope.

(** [for x in l: body(x)] *)
Fixpoint forM_ {S A} (l : list A) (body : A -> M S unit) : M S unit :=
  match l with
  | [] => ret tt
  | x :: l' => body x ;;; forM_ l' body
  end.

(** A [for] loop that carries a local variable from one iteration to the
    next. *)
Fixpoint foldM {S A B} (l : list A) (acc : B) (body : B -> A -> M S B) : M S B :=
  match l with
  | [] => ret acc
  | x :: l' => acc' <- body acc x ;; foldM l' acc' body
  end.

(** [enumerate(l)] *)
Definition enumerate {A} (l : list A) : list (nat * A) :=
  zip (seq 0 (length l)) l.

(** ** Python list primitives *)

(** [l.index(x)]: position of the first element equal to [x]. *)
Fixpoint list_index (x : string) (l : list string) : Result nat :=
  match l with
  | [] => Raise ValueError
  | y :: l' => if String.eqb y x then Ok 0
               else match list_index x l' with
                    | Ok i => Ok (S i)
                    | Raise e => Raise e
                    end
  end.

(** [x in l] *)
Definition list_contains (x : string) (l : list string) : bool :=
  existsb (String.eqb x) l.

(** [l[i]] for a non-negative [i]. *)
Definition list_get {A} (l : list A) (i : nat) : Result A :=
  match l !! i with
  | Some v => Ok v
  | None => Raise IndexError
  end.

(** ** Two-dimensional arrays *)

Abbreviation Matrix A := (list (list A)) (only parsing).

(** [np.full((nr, nc), v)] *)
Definition full {A} (nr nc : nat) (v : A) : Matrix A :=
  replicate nr (replicate nc v).

(** [m[t][b]] *)
Definition getCell {A} (m : Matrix A) (t b : nat) : Result A :=
  match m !! t with
  | Some row => list_get row b
  | None => Raise IndexError
  end.

(** [m[t][b] = v] *)
Definition setCell {A} (m : Matrix A) (t b : nat) (v : A) : Result (Matrix A) :=
  match m !! t with
  | Some row =>
      if b <? length row then Ok (<[t := <[b := v]> row]> m)
      else Raise IndexError
  | None => Raise IndexError
  end.

(** The cell at row [t], column [b], if the array has one. *)
Definition cell {A} (m : Matrix A) (t b : nat) : option A :=
  m !! t ≫= (fun row => row !! b).

(** The row lengths; an [nr] by [nc] array has shape [replicate nr nc]. *)
Definition shape {A} (m : Matrix A) : list nat := fmap (M:=list) length m.

(** Element-wise operations of numpy on arrays of equal shape. *)
Definition mmap {A B} (f : A -> B) (m : Matrix A) : Matrix B :=
  fmap (M:=list) (fmap (M:=list) f) m.
Definition mzip {A B C} (f : A -> B -> C) (m1 : Matrix A) (m2 : Matrix B) : Matrix C :=
  zip_with (zip_with f) m1 m2.

(** [m[:-1, :]] and [m[1:, :]] *)
Definition rowsBefore {A} (m : Matrix A) : Matrix A := removelast m.
Definition rowsAfter {A} (m : Matrix A) : Matrix A := tail m.

(** [m[mask] = v] for a boolean [mask] of the shape of [m]. *)
Definition maskFill {A} (m : Matrix A) (mask : Matrix bool) (v : A) : Matrix A :=
  mzip (fun x (c : bool) => if c then v else x) m mask.

(** [m[mask] = src[mask]] for arrays of one shape. *)
Definition maskCopy {A} (m : Matrix A) (mask : Matrix bool) (src : Matrix A) : Matrix A :=
  zip_with
    (fun (row : list A) (ms : list bool * list A) =>
       zip_with (fun (x : A) (cs : bool * A) => if fst cs then snd cs else x)
                row (zip (fst ms) (snd ms)))
    m (zip mask src).

(** ** Rational comparisons used for the float tests *)

Definition Qltb (x y : Q) : bool := negb (Qle_bool y x).

(** ** Data model *)

Definition Location : Type := (Q * Q * Q)%type.

(** [Point]: [children] lists the Branch objects that start at the point, each
    named by its position in the owning tree's [branches]. *)
Record Point : Type := mkPoint {
  point_id : string;
  location : Location;
  annotation : string;
  children : list nat
}.

(** [Branch]: the branch's own points and the point it grows from. *)
Record Branch : Type := mkBranch {
  branch_id : string;
  points : list Point;
  parentPoint : option Point
}.

(** [Tree] of tree.py: [rootPoint] (default [None]) and [branches]. *)
Record Tree : Type := mkTree {
  rootPoint : option Point;
  branches : list Branch
}.

(** tree.py, [Tree.getBranchByID]: the first branch of the tree with that id. *)
Definition getBranchByID (tree : Tree) (branchID : string) : option Branch :=
  List.find (fun b => String.eqb (branch_id b) branchID) (branches tree).

(** The Branch object at position [r] of [tree.branches].  A position outside
    the list stands for a Branch object that was never registered with
    [Tree.addBranch]; asking such an object for [indexInParent()] raises
    [ValueError], which is what every use of it amounts to here. *)
Definition branchAt (tree : Tree) (r : nat) : Result Branch :=
  match branches tree !! r with
  | Some b => Ok b
  | None => Raise ValueError
  end.

(** Modelled from the spec: the enum [FiloType] of the model package, which is
    not among the sources.  "ABSENT < TERMINAL < INTERSTITIAL <
    BRANCH_WITH_TERMINAL < BRANCH_WITH_INTERSTITIAL < BRANCH_ONLY". *)
Inductive FiloType : Type :=
  | ABSENT
  | TERMINAL
  | INTERSTITIAL
  | BRANCH_WITH_TERMINAL
  | BRANCH_WITH_INTERSTITIAL
  | BRANCH_ONLY.

Definition FiloType_value (f : FiloType) : nat :=
  match f with
  | ABSENT => 0
  | TERMINAL => 1
  | INTERSTITIAL => 2
  | BRANCH_WITH_TERMINAL => 3
  | BRANCH_WITH_INTERSTITIAL => 4
  | BRANCH_ONLY => 5
  end.

Definition ft_gt (a b : FiloType) : bool := FiloType_value b <? FiloType_value a.
Definition ft_lt (a b : FiloType) : bool := FiloType_value a <? FiloType_value b.
Definition ft_eq (a b : FiloType) : bool := FiloType_value a =? FiloType_value b.

(** ** Labels *)

(** [s.find(label) != -1] *)
Definition hasLabel (s label : string) : bool :=
  match String.index 0 label s with
  | Some _ => true
  | None => false
  end.

(** motility.py, [_lastPointWithLabel]: index of the last point whose
    annotation contains [label], or -1.  The list may hold [None] (a branch
    without parent point), on which [point.annotation] raises. *)
Fixpoint lastPointWithLabel_from (i : Z) (lastPointIdx : Z)
    (points : list (option Point)) (label : string) : Result Z :=
  match points with
  | [] => Ok lastPointIdx
  | None :: _ => Raise AttributeError
  | Some point :: rest =>
      lastPointWithLabel_from (i + 1)
        (if hasLabel (annotation point) label then i else lastPointIdx)
        rest label
  end.

Definition _lastPointWithLabel (points : list (option Point)) (label : string) : Result Z :=
  lastPointWithLabel_from 0 (-1) points label.

(** Modelled from the spec: [util.lastPointWithLabelIdx], missing from the
    util.py at hand; motility.py keeps the same function as
    [_lastPointWithLabel] ("TODO - move somewhere common").  Here the points
    are all present. *)
Fixpoint lastPointWithLabelIdx_from (i : Z) (lastPointIdx : Z)
    (points : list Point) (label : string) : Z :=
  match points with
  | [] => lastPointIdx
  | point :: rest =>
      lastPointWithLabelIdx_from (i + 1)
        (if hasLabel (annotation point) label then i else lastPointIdx)
        rest label
  end.

Definition lastPointWithLabelIdx (points : list Point) (label : string) : Z :=
  lastPointWithLabelIdx_from 0 (-1) points label.

(** ** The Branch class

    branch.py is not among the sources.  Its methods are modelled from the
    spec (sections 3, 4.1 and 4.2); the point-to-point distance in world
    coordinates (a square root over transformed float coordinates) is a
    parameter. *)

Section BranchMethods.

Variable worldDist : Location -> Location -> Q.

(** [branch.points], preceded by the parent point when there is one
    (lines 87-89 of addedSubtractedTransitioned.py). *)
Definition pointsWithRoot (branch : Branch) : list Point :=
  match parentPoint branch with
  | Some p => p :: points branch
  | None => points branch
  end.

(** Modelled from the spec: [Branch.isEmpty], "a branch with zero points is
    empty". *)
Definition isEmpty (branch : Branch) : bool :=
  length (points branch) =? 0.

(** Modelled from the spec: [Branch.hasChildren], some point of the branch
    owns a child branch. *)
Definition hasChildren (branch : Branch) : bool :=
  existsb (fun p => negb (length (children p) =? 0)) (points branch).

(** Modelled from the spec: [Branch.isAxon] and [Branch.isBasal], "any point's
    annotation matches" the label, "in parent-inclusive order". *)
Definition isAxon (branch : Branch) : bool :=
  (0 <=? lastPointWithLabelIdx (pointsWithRoot branch) "axon")%Z.
Definition isBasal (branch : Branch) : bool :=
  (0 <=? lastPointWithLabelIdx (pointsWithRoot branch) "basal")%Z.

(** Running path length along [ps], coming from location [prev]. *)
Fixpoint cumulativeFrom (prev : option Location) (acc : Q) (ps : list Point) : list Q :=
  match ps with
  | [] => []
  | p :: ps' =>
      let acc' := match prev with
                  | Some l => (acc + worldDist l (location p))%Q
                  | None => acc
                  end in
      acc' :: cumulativeFrom (Some (location p)) acc' ps'
  end.

(** Modelled from the spec: [Branch.cumulativeWorldLengths], "the cumulative
    length at each point index", "parent point included as the first
    point" of the path. *)
Definition cumulativeWorldLengths (branch : Branch) : list Q :=
  cumulativeFrom (option_map location (parentPoint branch)) 0%Q (points branch).

(** Cumulative length at the last point that has a child branch, [dflt] when
    no point has one. *)
Fixpoint lengthAtLastBranchPoint (dflt : Q) (ps : list Point) (cum : list Q) : Q :=
  match ps, cum with
  | p :: ps', c :: cum' =>
      lengthAtLastBranchPoint (if length (children p) =? 0 then dflt else c) ps' cum'
  | _, _ => dflt
  end.

(** Modelled from the spec: [Branch.worldLengths], "(a) total path length of
    the branch", "(b) path length up to and including the last point on the
    branch that itself has at least one child branch"; an empty branch "has
    total length 0". *)
Definition worldLengths (branch : Branch) : Q * Q :=
  let cum := cumulativeWorldLengths branch in
  (List.last cum 0%Q, lengthAtLastBranchPoint 0%Q (points branch) cum).

(** Modelled from the spec: [Branch.isFilo], "a branch is a filopodium iff it
    has no children and its total length is <= the threshold; returns
    (isFilo, length)"; an empty branch "is never a filopodium". *)
Definition isFilo (branch : Branch) (maxLength : Q) : bool * Q :=
  let totalLength := fst (worldLengths branch) in
  (negb (isEmpty branch) && negb (hasChildren branch)
     && Qle_bool totalLength maxLength,
   totalLength).

End BranchMethods.

(** ** util *)

(** util.py, [emptyArrayMatrix]: [r] rows of [c] empty lists. *)
Definition emptyArrayMatrix {A} (r c : nat) : Matrix (list A) :=
  full r c [].

Fixpoint insertID (x : string) (l : list string) : list string :=
  match l with
  | [] => [x]
  | y :: l' =>
      match String.compare x y with
      | Lt => x :: l
      | Eq => l
      | Gt => y :: insertID x l'
      end
  end.

(** Modelled from the spec: [util.sortedBranchIDList], missing from the
    util.py at hand: "a sorted, de-duplicated list of all branch ids seen
    across every snapshot". *)
Definition sortedBranchIDList (trees : list Tree) : list string :=
  fold_right insertID [] (flat_map (fun t => map branch_id (branches t)) trees).

(** [branch.indexInParent()] for the Branch object at position [r] of its
    tree's [branches]. *)
Definition indexInParent (tree : Tree) (r : nat) : Result nat :=
  if r <? length (branches tree) then Ok r else Raise ValueError.

(** [[b.indexInParent() for b in bs]] *)
Fixpoint indexesInParent (tree : Tree) (bs : list nat) : Result (list nat) :=
  match bs with
  | [] => Ok []
  | r :: bs' =>
      match indexInParent tree r with
      | Ok i => match indexesInParent tree bs' with
                | Ok l => Ok (i :: l)
                | Raise e => Raise e
                end
      | Raise e => Raise e
      end
  end.

(** ** addedSubtractedTransitioned.py *)

(** The two accumulators that [_recursiveFiloTypes] writes. *)
Record FTState : Type := mkFTState {
  filoTypes : Matrix FiloType;
  masterNodes : Matrix (list nat)
}.

(** [filoTypes[t][b] = v] *)
Definition setFiloType (t b : nat) (v : FiloType) : M FTState unit :=
  fun s => match setCell (filoTypes s) t b v with
           | Ok m => Ok (tt, mkFTState m (masterNodes s))
           | Raise e => Raise e
           end.

(** [filoTypes[t][b]] *)
Definition getFiloType (t b : nat) : M FTState FiloType :=
  fun s => match getCell (filoTypes s) t b with
           | Ok v => Ok (v, s)
           | Raise e => Raise e
           end.

(** [masterNodes[t][b] = l] *)
Definition setMasterNodes (t b : nat) (l : list nat) : M FTState unit :=
  fun s => match setCell (masterNodes s) t b l with
           | Ok m => Ok (tt, mkFTState (filoTypes s) m)
           | Raise e => Raise e
           end.

Section Classifier.

Variable worldDist : Location -> Location -> Q.
Variable branchIDList : list string.
Variable trees : list Tree.
Variables excludeAxon excludeBasal : bool.
Variables terminalDist filoDist : Q.

(** Lines 110-135: the body of [for childBranch in point.children], for the
    child at position [childBranch] of the tree's branches.  [recurse] is the
    recursive call of [_recursiveFiloTypes] on a branch index; the result is
    the new value of [forceInterstitial]. *)
Definition classifyChild (recurse : nat -> M FTState unit)
    (tree : Tree) (treeIdx branchIdx : nat) (branch : Branch)
    (totalLength : Q) (cumulativeLengths : list Q)
    (pointIdx : nat) (point : Point)
    (forceInterstitial : bool) (childBranch : nat) : M FTState bool :=
  child <- lift (branchAt tree childBranch) ;;
  if length (points child) <? 1 then ret forceInterstitial
  else if negb (list_contains (branch_id child) branchIDList) then ret forceInterstitial
  else
    childBranchIdx <- lift (list_index (branch_id child) branchIDList) ;;
    let '(childIsFilo, childLength) := isFilo worldDist child filoDist in
    if childIsFilo then
      cumAtPoint <- lift (list_get cumulativeLengths pointIdx) ;;
      let distPointToEnd := (totalLength - cumAtPoint)%Q in
      let isTerminal := Qltb distPointToEnd terminalDist in
      setFiloType treeIdx childBranchIdx
        (if isTerminal then TERMINAL else INTERSTITIAL) ;;;
      if (length (children point) =? 1)
         && (Z.of_nat pointIdx =? Z.of_nat (length (points branch)) - 1)%Z
      then
        setFiloType treeIdx childBranchIdx BRANCH_ONLY ;;;
        setMasterNodes treeIdx childBranchIdx [branchIdx] ;;;
        ret forceInterstitial
      else ret forceInterstitial
    else
      recurse childBranchIdx ;;;
      ret true.

(** Lines 138-145: every TERMINAL child met up to and including point
    [pointIdx] becomes INTERSTITIAL. *)
Definition downgradeTerminals (tree : Tree) (treeIdx : nat) (branch : Branch)
    (pointIdx : nat) : M FTState unit :=
  forM_ (take (S pointIdx) (points branch)) (fun prevPoint =>
    forM_ (children prevPoint) (fun childBranch =>
      childBranchIdx <- lift (indexInParent tree childBranch) ;;
      ft <- getFiloType treeIdx childBranchIdx ;;
      if ft_eq ft TERMINAL
      then setFiloType treeIdx childBranchIdx INTERSTITIAL
      else ret tt)).

(** Lines 105-145: the body of [for pointIdx, point in enumerate(branch.points)];
    [forceInterstitial] is the local variable carried across iterations. *)
Definition walkPoint (recurse : nat -> M FTState unit)
    (tree : Tree) (treeIdx branchIdx : nat) (branch : Branch)
    (totalLength : Q) (cumulativeLengths : list Q)
    (forceInterstitial : bool) (ip : nat * Point) : M FTState bool :=
  let '(pointIdx, point) := ip in
  if length (children point) =? 0 then ret forceInterstitial
  else
    force <- foldM (children point) false
               (classifyChild recurse tree treeIdx branchIdx branch
                  totalLength cumulativeLengths pointIdx point) ;;
    (if force then downgradeTerminals tree treeIdx branch pointIdx else ret tt) ;;;
    ret force.

(** The last point of the branch that has children (lines 159-163). *)
Definition lastPointWithChildren (branch : Branch) : option Point :=
  List.find (fun p => 0 <? length (children p)) (rev (points branch)).

(** Lines 150-174: the branch's own role and master nodes. *)
Definition ownRole (tree : Tree) (treeIdx branchIdx : nat) (branch : Branch)
    (totalLength totalLengthToLastBranch : Q) (forceInterstitial : bool)
    : M FTState unit :=
  let totalDist := (totalLength - totalLengthToLastBranch)%Q in
  if Qltb 0 totalDist && Qltb totalDist filoDist then
    setFiloType treeIdx branchIdx
      (if forceInterstitial then BRANCH_WITH_INTERSTITIAL else BRANCH_WITH_TERMINAL) ;;;
    match lastPointWithChildren branch with
    | Some p =>
        l <- lift (indexesInParent tree (children p)) ;;
        setMasterNodes treeIdx branchIdx l
    | None => ret tt
    end
  else if Qeq_bool totalDist 0 then
    setFiloType treeIdx branchIdx BRANCH_ONLY ;;;
    lastPoint <- lift (match List.last (map Some (points branch)) None with
                       | Some p => Ok p
                       | None => Raise IndexError
                       end) ;;
    l <- lift (indexesInParent tree (children lastPoint)) ;;
    setMasterNodes treeIdx branchIdx l
  else
    setFiloType treeIdx branchIdx BRANCH_ONLY ;;;
    setMasterNodes treeIdx branchIdx [branchIdx].

(** Lines 82-174, with [recurse] for the recursive call. *)
Definition recursiveFiloTypes_body (recurse : nat -> M FTState unit)
    (treeIdx branchIdx : nat) : M FTState unit :=
  tree <- lift (list_get trees treeIdx) ;;
  branchID <- lift (list_get branchIDList branchIdx) ;;
  match getBranchByID tree branchID with
  | None => setFiloType treeIdx branchIdx ABSENT
  | Some branch =>
      if isEmpty branch || (excludeAxon && isAxon branch)
                        || (excludeBasal && isBasal branch)
      then setFiloType treeIdx branchIdx ABSENT
      else if negb (hasChildren branch)
              && (0 <=? lastPointWithLabelIdx (pointsWithRoot branch) "lam")%Z
      then setFiloType treeIdx branchIdx BRANCH_ONLY
      else
        let '(totalLength, totalLengthToLastBranch) := worldLengths worldDist branch in
        let cumulativeLengths := cumulativeWorldLengths worldDist branch in
        forceInterstitial <-
          foldM (enumerate (points branch)) false
            (walkPoint recurse tree treeIdx branchIdx branch
               totalLength cumulativeLengths) ;;
        ownRole tree treeIdx branchIdx branch
          totalLength totalLengthToLastBranch forceInterstitial
  end.

(** [_recursiveFiloTypes]; [fuel] bounds the depth of the recursion. *)
Fixpoint _recursiveFiloTypes (fuel : nat) (treeIdx branchIdx : nat) : M FTState unit :=
  match fuel with
  | 0 => raise RecursionError
  | S fuel' =>
      recursiveFiloTypes_body (_recursiveFiloTypes fuel' treeIdx) treeIdx branchIdx
  end.

End Classifier.

(** [len(set(l1) & set(l2)) == 0] *)
Definition setsDisjoint (l1 l2 : list nat) : bool :=
  length (List.filter (fun x => existsb (Nat.eqb x) l2) l1) =? 0.

(** [fillMasterChanged]: writes every cell of [masterChanged], whose shape
    drives the two loops. *)
Definition fillMasterChanged (masterNodes : Matrix (list nat)) : M (Matrix bool) unit :=
  fun masterChanged =>
    let nTrees := length masterChanged in
    let nBranches := length (hd [] masterChanged) in
    forM_ (seq 0 nTrees) (fun t =>
      forM_ (seq 0 nBranches) (fun b =>
        l1 <- lift (getCell masterNodes t b) ;;
        l2 <- lift (getCell masterNodes (t + 1) b) ;;
        fun mc =>
          match setCell mc t b ((0 <? length l2) && setsDisjoint l1 l2) with
          | Ok mc' => Ok (tt, mc')
          | Raise e => Raise e
          end))
      masterChanged.

(** The boolean views of the role matrix (lines 58-62). *)
Definition filoExistsOf (ft : Matrix FiloType) : Matrix bool :=
  mmap (fun f => ft_gt f ABSENT) ft.
Definition filosOf (ft : Matrix FiloType) : Matrix bool :=
  mzip andb (filoExistsOf ft) (mmap (fun f => ft_lt f BRANCH_ONLY) ft).
Definition branchesOf (ft : Matrix FiloType) : Matrix bool :=
  mmap (fun f => ft_gt f TERMINAL) ft.
Definition branchWithFiloOf (ft : Matrix FiloType) : Matrix bool :=
  mzip andb (branchesOf ft) (filosOf ft).
Definition justBranchesOf (ft : Matrix FiloType) : Matrix bool :=
  mmap (fun f => ft_eq f BRANCH_ONLY) ft.

(** Lines 63-69: the three event matrices before masking. *)
Definition addedOf (ft : Matrix FiloType) : Matrix bool :=
  mzip orb
    (mzip andb (mmap negb (rowsBefore (filoExistsOf ft))) (rowsAfter (filosOf ft)))
    (mzip andb (rowsBefore (justBranchesOf ft)) (rowsAfter (branchWithFiloOf ft))).
Definition subtractedOf (ft : Matrix FiloType) : Matrix bool :=
  mzip orb
    (mzip andb (rowsBefore (filosOf ft)) (mmap negb (rowsAfter (filoExistsOf ft))))
    (mzip andb (rowsBefore (branchWithFiloOf ft)) (rowsAfter (justBranchesOf ft))).
Definition transitionedOf (ft : Matrix FiloType) : Matrix bool :=
  mzip andb
    (mzip andb (rowsBefore (filosOf ft)) (mmap negb (rowsBefore (branchesOf ft))))
    (rowsAfter (branchesOf ft)).

(** What [addedSubtractedTransitioned] returns. *)
Record ASTOutput : Type := mkASTOutput {
  out_filoTypes : Matrix FiloType;
  out_added : Matrix bool;
  out_subtracted : Matrix bool;
  out_transitioned : Matrix bool;
  out_masterChanged : Matrix bool;
  out_masterNodes : Matrix (list nat)
}.

Section Analysis.

Variable worldDist : Location -> Location -> Q.

(** Lines 47-56: the body of [for treeIdx, tree in enumerate(trees)]. *)
Definition classifyTree (fuel : nat) (branchIDList : list string) (trees : list Tree)
    (excludeAxon excludeBasal : bool) (terminalDist filoDist : Q)
    (it : nat * Tree) : M FTState unit :=
  let '(treeIdx, tree) := it in
  if 0 <? length (branches tree) then
    match rootPoint tree with
    | Some treeRoot =>
        forM_ (children treeRoot) (fun branch =>
          b <- lift (branchAt tree branch) ;;
          branchIdx <- lift (list_index (branch_id b) branchIDList) ;;
          _recursiveFiloTypes worldDist branchIDList trees
            excludeAxon excludeBasal terminalDist filoDist
            fuel treeIdx branchIdx)
    | None => ret tt
    end
  else ret tt.

(** [addedSubtractedTransitioned].  [np.full((nTrees - 1, nBranches), False)]
    raises [ValueError] for an empty list of trees. *)
Definition addedSubtractedTransitioned (fuel : nat) (trees : list Tree)
    (excludeAxon excludeBasal : bool) (terminalDist filoDist : Q)
    : Result ASTOutput :=
  let nTrees := length trees in
  let branchIDList := sortedBranchIDList trees in
  let nBranches := length branchIDList in
  if nTrees =? 0 then Raise ValueError
  else
    let init := mkFTState (full nTrees nBranches ABSENT)
                          (emptyArrayMatrix nTrees nBranches) in
    match forM_ (enumerate trees)
            (classifyTree fuel branchIDList trees
               excludeAxon excludeBasal terminalDist filoDist) init with
    | Raise e => Raise e
    | Ok (_, s) =>
        let ft := filoTypes s in
        match fillMasterChanged (masterNodes s) (full (nTrees - 1) nBranches false) with
        | Raise e => Raise e
        | Ok (_, masterChanged) =>
            Ok (mkASTOutput ft
                  (maskFill (addedOf ft) masterChanged false)
                  (maskFill (subtractedOf ft) masterChanged false)
                  (transitionedOf ft)
                  masterChanged
                  (masterNodes s))
        end
    end.

End Analysis.

(** ** numpy floats *)

Inductive npfloat : Type :=
  | Fin (q : Q)
  | PosInf
  | NegInf
  | NaN.

Definition isnan (x : npfloat) : bool :=
  match x with NaN => true | _ => false end.

Definition fneg (x : npfloat) : npfloat :=
  match x with
  | Fin q => Fin (- q)%Q
  | PosInf => NegInf
  | NegInf => PosInf
  | NaN => NaN
  end.

Definition fadd (x y : npfloat) : npfloat :=
  match x, y with
  | NaN, _ | _, NaN => NaN
  | Fin a, Fin b => Fin (a + b)%Q
  | PosInf, NegInf | NegInf, PosInf => NaN
  | PosInf, _ | _, PosInf => PosInf
  | NegInf, _ | _, NegInf => NegInf
  end.

Definition fsub (x y : npfloat) : npfloat := fadd x (fneg y).

(** Float division as numpy does it: no exception, [x / 0] is an infinity
    and [0 / 0] is NaN. *)
Definition fdiv (x y : npfloat) : npfloat :=
  match x, y with
  | NaN, _ | _, NaN => NaN
  | Fin a, Fin b =>
      if Qeq_bool b 0 then
        if Qeq_bool a 0 then NaN
        else if Qltb 0 a then PosInf else NegInf
      else Fin (a / b)%Q
  | Fin _, _ => Fin 0
  | _, Fin b =>
      let positive := if Qltb b 0 then false else true in
      match x with
      | PosInf => if positive then PosInf else NegInf
      | _ => if positive then NegInf else PosInf
      end
  | _, _ => NaN
  end.

(** [np.nansum] of a row: NaN counts as zero. *)
Definition nansum (row : list npfloat) : npfloat :=
  fold_left fadd (map (fun x => if isnan x then Fin 0 else x) row) (Fin 0).

(** [np.sum(mask, axis=1)] *)
Definition countTrue (mask : Matrix bool) : list nat :=
  map (fun row => length (List.filter (fun c : bool => c) row)) mask.

Definition ofCount (n : nat) : npfloat := Fin (inject_Z (Z.of_nat n)).

(** ** motility.py *)

(** Step 6 of [_calcFiloLengths] (lines 106-110): the branch's own
    contribution. *)
Definition ownFiloLength (filoDist totalLength totalLengthToLastBranch : Q) : Q :=
  let lengthPastLastBranch :=
    if Qltb 0 totalLengthToLastBranch
    then (totalLength - totalLengthToLastBranch)%Q
    else (filoDist + 1)%Q in
  if Qltb lengthPastLastBranch filoDist then lengthPastLastBranch else 0%Q.

(** [filoLengths[t][b] = v] *)
Definition setFiloLength (t b : nat) (v : npfloat) : M (Matrix npfloat) unit :=
  fun m => match setCell m t b v with
           | Ok m' => Ok (tt, m')
           | Raise e => Raise e
           end.

(** [excludeX and _lastPointWithLabel(pointsWithRoot, label) >= 0] *)
Definition excludedBy {S} (exclude : bool) (pts : list (option Point)) (label : string)
    : M S bool :=
  if exclude then
    i <- lift (_lastPointWithLabel pts label) ;;
    ret (0 <=? i)%Z
  else ret false.

Section Motility.

Variable worldDist : Location -> Location -> Q.

(** [TDBL] of analysis/TDBL.py, which is not among the sources: the
    "external TDBL collaborator" of the spec is a parameter.  Its arguments
    are the tree, [excludeAxon], [excludeBasal], [includeFilo] and
    [filoDist]. *)
Variable TDBL : Tree -> bool -> bool -> bool -> Q -> npfloat.

(** Lines 65-113, with [recurse] for the recursive call; [branch] is the
    position of the Branch object in [tree.branches]. *)
Definition calcFiloLengths_body (recurse : nat -> M (Matrix npfloat) unit)
    (tree : Tree) (treeIdx : nat) (branch : nat)
    (excludeAxon excludeBasal : bool) (filoDist : Q) : M (Matrix npfloat) unit :=
  b <- lift (branchAt tree branch) ;;
  branchIdx <- lift (indexInParent tree branch) ;;
  let pointsWithRoot := parentPoint b :: map Some (points b) in
  if length pointsWithRoot <? 2 then setFiloLength treeIdx branchIdx (Fin 0)
  else
    axon <- excludedBy excludeAxon pointsWithRoot "axon" ;;
    if axon then setFiloLength treeIdx branchIdx NaN
    else
      basal <- excludedBy excludeBasal pointsWithRoot "basal" ;;
      if basal then setFiloLength treeIdx branchIdx NaN
      else
        let '(branchIsFilo, branchLength) := isFilo worldDist b filoDist in
        if branchIsFilo then setFiloLength treeIdx branchIdx (Fin branchLength)
        else
          let '(totalLength, totalLengthToLastBranch) := worldLengths worldDist b in
          forM_ (points b) (fun point =>
            forM_ (children point) (fun childBranch => recurse childBranch)) ;;;
          setFiloLength treeIdx branchIdx
            (Fin (ownFiloLength filoDist totalLength totalLengthToLastBranch)).

(** [_calcFiloLengths]; [fuel] bounds the depth of the recursion. *)
Fixpoint _calcFiloLengths (fuel : nat) (tree : Tree) (treeIdx : nat) (branch : nat)
    (excludeAxon excludeBasal : bool) (filoDist : Q) : M (Matrix npfloat) unit :=
  match fuel with
  | 0 => raise RecursionError
  | S fuel' =>
      calcFiloLengths_body
        (fun child => _calcFiloLengths fuel' tree treeIdx child
                        excludeAxon excludeBasal filoDist)
        tree treeIdx branch excludeAxon excludeBasal filoDist
  end.

(** The dictionary that [motility] returns. *)
Record Motilities : Type := mkMotilities {
  raw : Matrix npfloat;
  rawTDBL : list npfloat;
  rawFilo : list npfloat;
  rawNFilo : list npfloat
}.

(** Lines 31-34: the body of [for treeIdx, tree in enumerate(trees)];
    [tree.rootPoint.children] raises on a tree without root. *)
Definition lengthsOfTree (fuel : nat) (excludeAxon excludeBasal : bool) (filoDist : Q)
    (it : nat * Tree) : M (Matrix npfloat) unit :=
  let '(treeIdx, tree) := it in
  match rootPoint tree with
  | None => raise AttributeError
  | Some root =>
      forM_ (children root) (fun branch =>
        _calcFiloLengths fuel tree treeIdx branch excludeAxon excludeBasal filoDist)
  end.

(** Line 50: [np.sum((filoTypes > ABSENT) & (filoTypes < BRANCH_ONLY), axis=1)] *)
Definition nFiloOf (ft : Matrix FiloType) : list nat :=
  countTrue (mzip andb (mmap (fun f => ft_gt f ABSENT) ft)
                       (mmap (fun f => ft_lt f BRANCH_ONLY) ft)).

(** [motility].  The boolean masks come from [addedSubtractedTransitioned]
    with one column per known branch id, [rawMotility] has one column per
    branch of the last tree: indexing with a mask of another shape raises
    [IndexError]. *)
Definition motility (fuel : nat) (trees : list Tree)
    (excludeAxon excludeBasal includeAS : bool) (terminalDist filoDist : Q)
    : Result (Motilities * Matrix npfloat) :=
  match addedSubtractedTransitioned worldDist fuel trees
          excludeAxon excludeBasal terminalDist filoDist with
  | Raise e => Raise e
  | Ok ast =>
      let nTrees := length trees in
      match List.last (map Some trees) None with
      | None => Raise IndexError
      | Some lastTree =>
          let nBranches := length (branches lastTree) in
          match forM_ (enumerate trees)
                  (lengthsOfTree fuel excludeAxon excludeBasal filoDist)
                  (full nTrees nBranches NaN) with
          | Raise e => Raise e
          | Ok (_, filoLengths) =>
              let allTDBL :=
                map (fun tree => TDBL tree excludeAxon excludeBasal true filoDist) trees in
              let lengthAdded := rowsAfter filoLengths in
              let lengthSubtracted := rowsBefore filoLengths in
              let rawMotility := mzip fsub lengthAdded lengthSubtracted in
              if negb (nBranches =? length (hd [] (out_filoTypes ast)))
              then Raise IndexError
              else
                let rawMotility := maskFill rawMotility (out_masterChanged ast) NaN in
                let rawMotility :=
                  if includeAS then
                    maskCopy (maskCopy rawMotility (out_added ast) lengthAdded)
                             (out_subtracted ast) (mmap fneg lengthSubtracted)
                  else rawMotility in
                let filoLengthWithNan :=
                  maskFill (take (length rawMotility) filoLengths)
                           (mmap isnan rawMotility) NaN in
                let nFilo := removelast (nFiloOf (out_filoTypes ast)) in
                let allTDBL := removelast allTDBL in
                let sums := map nansum rawMotility in
                Ok (mkMotilities rawMotility
                      (zip_with fdiv sums allTDBL)
                      (zip_with fdiv sums (map nansum filoLengthWithNan))
                      (zip_with fdiv sums (map ofCount nFilo)),
                    filoLengths)
          end
      end
  end.

End Motility.

(** ** Frame conditions for stateful computations *)

(** Every successful run of [m] relates the state before to the state
    after by [R]. *)
Definition keeps {S A} (R : S -> S -> Prop) (m : M S A) : Prop :=
  forall s a s', m s = Ok (a, s') -> R s s'.

(** The accumulators keep their shapes. *)
Definition sameShapes (s s' : FTState) : Prop :=
  shape (filoTypes s') = shape (filoTypes s) /\
  shape (masterNodes s') = shape (masterNodes s).

Definition sameShape {A} (m m' : Matrix A) : Prop := shape m' = shape m.

(** ** The events of one cell

    Section 4.3 of the spec states the predicates per branch and pair of
    consecutive snapshots; these are the cell-wise readings of the array
    expressions of lines 58-69. *)

Definition filoExistsAt (f : FiloType) : bool := ft_gt f ABSENT.
Definition isFiloAt (f : FiloType) : bool := filoExistsAt f && ft_lt f BRANCH_ONLY.
Definition isBranchAt (f : FiloType) : bool := ft_gt f TERMINAL.
Definition branchWithFiloAt (f : FiloType) : bool := isBranchAt f && isFiloAt f.
Definition justBranchAt (f : FiloType) : bool := ft_eq f BRANCH_ONLY.

Definition addedAt (before after : FiloType) : bool :=
  (negb (filoExistsAt before) && isFiloAt after)
  || (justBranchAt before && branchWithFiloAt after).
Definition subtractedAt (before after : FiloType) : bool :=
  (isFiloAt before && negb (filoExistsAt after))
  || (branchWithFiloAt before && justBranchAt after).
Definition transitionedAt (before after : FiloType) : bool :=
  isFiloAt before && negb (isBranchAt before) && isBranchAt after.

(** The pair of roles of branch [b] at snapshots [t] and [t + 1]. *)
Definition rolesAt (ft : Matrix FiloType) (t b : nat) : option (FiloType * FiloType) :=
  if decide (S t < length ft) then
    f0 ← cell ft t b; f1 ← cell ft (S t) b; Some (f0, f1)
  else None.

(** Lines 120-123: the role of a filopodium child by the distance from its
    attachment point to the end of the parent branch. *)
Definition roleByDistance (terminalDist distPointToEnd : Q) : FiloType :=
  if Qltb distPointToEnd terminalDist then TERMINAL else INTERSTITIAL.

(** The order of Python strings on branch ids. *)
Definition idBefore (x y : string) : Prop := String.compare x y = Lt.

(** Row [t] of both accumulators is left as it is. *)
Definition rowKept (t : nat) (s s' : FTState) : Prop :=
  filoTypes s' !! t = filoTypes s !! t /\
  masterNodes s' !! t = masterNodes s !! t.

(** ** Concrete snapshots

    The examples trace points of the plane z = 0 along axis-parallel
    segments, on which the Euclidean distance of util.py's [deltaSz] is the
    sum of the coordinate differences. *)

Definition lineDist (a b : Location) : Q :=
  let '(ax, ay, az) := a in
  let '(bx, by_, bz) := b in
  (Qabs (ax - bx) + Qabs (ay - by_) + Qabs (az - bz))%Q.

(** A collaborator that reports the same total length for every tree. *)
Definition unitTDBL (tree : Tree) (excludeAxon excludeBasal includeFilo : bool)
    (filoDist : Q) : npfloat := Fin 1.

Definition pt (name : string) (x y : Z) (kids : list nat) : Point :=
  mkPoint name (inject_Z x, inject_Z y, 0%Q) "" kids.

(** A tree without soma and without branches. *)
Definition emptyTree : Tree := mkTree None [].

(** A trunk "0000" from the soma through a fork at (20,0) to
    ([trunkEnd],0), and a side branch "0001" off the fork that ends at
    (20,[tip]). *)
Definition soma : Point := pt "soma" 0 0 [0].
Definition fork : Point := pt "a1" 20 0 [1].
Definition trunk (trunkEnd : Z) : Branch :=
  mkBranch "0000" [fork; pt "a2" trunkEnd 0 []] (Some soma).
Definition side (tip : Z) : Branch :=
  mkBranch "0001" [pt "b1" 20 tip []] (Some fork).
Definition sideBranchTree (trunkEnd tip : Z) : Tree :=
  mkTree (Some soma) [trunk trunkEnd; side tip].

(** The same trunk before the side branch exists. *)
Definition bareTrunk : Branch :=
  mkBranch "0000" [pt "a1" 20 0 []; pt "a2" 25 0 []] (Some soma).
Definition trunkOnlyTree : Tree := mkTree (Some soma) [bareTrunk].

(** A trunk "0000" that ends at (20,0), where its only child "0001" of
    length 3 starts. *)
Definition shortTrunk : Branch := mkBranch "0000" [fork] (Some soma).
Definition branchTipTree : Tree := mkTree (Some soma) [shortTrunk; side 3].

(** The side branch is a filopodium of length 3, then a branch of length 15. *)
Definition growingTrees : list Tree := [sideBranchTree 25 3; sideBranchTree 25 15].

(** The trunk is unbranched, then carries a filopodium. *)
Definition sproutingTrees : list Tree := [trunkOnlyTree; sideBranchTree 25 3].

(** The trunk's tail past the fork grows from 5 to 7. *)
Definition extendingTrees : list Tree := [sideBranchTree 25 3; sideBranchTree 27 3].

(** Branch "0002" is traced in both snapshots, branch "0001" only in the
    second, where it comes before "0002" in the tree's list of branches. *)
Definition lateBranchTrees : list Tree :=
  let fork0 := pt "a1" 20 0 [1] in
  let fork1 := pt "a1" 20 0 [2] in
  let fork2 := pt "a2" 22 0 [1] in
  [ mkTree (Some soma)
      [ mkBranch "0000" [fork0; pt "a3" 25 0 []] (Some soma);
        mkBranch "0002" [pt "c1" 20 3 []] (Some fork0) ];
    mkTree (Some soma)
      [ mkBranch "0000" [fork1; fork2; pt "a3" 25 0 []] (Some soma);
        mkBranch "0001" [pt "b1" 22 4 []] (Some fork2);
        mkBranch "0002" [pt "c1" 20 3 []] (Some fork1) ] ].

(** A sequence that starts with an empty snapshot. *)
Definition emptyFirstTrees : list Tree := [emptyTree; sideBranchTree 25 3].

(** The arrays as allocated for [rows] snapshots of the two-branch trees. *)
Definition freshState (rows : nat) : FTState :=
  mkFTState (full rows 2 ABSENT) (emptyArrayMatrix rows 2).

(** The trunk of [sideBranchTree 40 3] after its side branch has retracted:
    the Branch object "0001" is still registered, without points and without
    parent. *)
Definition retractedTree : Tree :=
  mkTree (Some (pt "soma" 0 0 [0]))
    [ mkBranch "0000" [pt "a1" 20 0 []; pt "a2" 40 0 []] (Some soma);
      mkBranch "0001" [] None ].

(** The scenario of section 8 of the spec: a filopodium of length 3 at t = 0
    and t = 1 that is gone at t = 2. *)
Definition retractingTrees : list Tree :=
  [sideBranchTree 40 3; sideBranchTree 40 3; retractedTree].

(** [sideBranchTree 25 3] with the side branch labelled as the axon. *)
Definition axonTree : Tree :=
  mkTree (Some soma)
    [ trunk 25;
      mkBranch "0001"
        [mkPoint "b1" (inject_Z 20, inject_Z 3, 0%Q) "the axon" []] (Some fork) ].

(** [sideBranchTree 25 3] with the fork of the trunk labelled as the axon. *)
Definition axonTrunkTree : Tree :=
  let axonFork := mkPoint "a1" (inject_Z 20, 0%Q, 0%Q) "axon, proximal" [1] in
  mkTree (Some soma)
    [ mkBranch "0000" [axonFork; pt "a2" 25 0 []] (Some soma);
      mkBranch "0001" [pt "b1" 20 3 []] (Some axonFork) ].

(** In [sideBranchTree] the trunk comes before its child. *)
Definition positionRank (r : nat) : nat := 1 - r.

(** ** Per-branch readings of motility.py *)

(** [[branch.parentPoint] + branch.points] (line 70). *)
Definition pointsWithParent (b : Branch) : list (option Point) :=
  parentPoint b :: map Some (points b).

(** The exclusion test of steps 2 and 3 is evaluated and fails. *)
Definition notExcluded (exclude : bool) (pts : list (option Point)) (label : string)
    : Prop :=
  exclude = false \/
  exists i, _lastPointWithLabel pts label = Ok i /\ (i < 0)%Z.

(** Step 5 of [_calcFiloLengths] (lines 101-103): the recursion into every
    child branch, at recursion depth [fuel]. *)
Definition recurseIntoChildren (worldDist : Location -> Location -> Q)
    (fuel : nat) (tree : Tree) (treeIdx : nat) (b : Branch)
    (excludeAxon excludeBasal : bool) (filoDist : Q) : M (Matrix npfloat) unit :=
  forM_ (points b) (fun point =>
    forM_ (children point) (fun childBranch =>
      _calcFiloLengths worldDist fuel tree treeIdx childBranch
        excludeAxon excludeBasal filoDist)).

(** The value that [_calcFiloLengths] stores for a branch: steps 1-4 and 6,
    without the recursion of step 5. *)
Definition filoLengthOf (worldDist : Location -> Location -> Q)
    (excludeAxon excludeBasal : bool) (filoDist : Q) (b : Branch) : Result npfloat :=
  if length (pointsWithParent b) <? 2 then Ok (Fin 0)
  else
    match (if excludeAxon then _lastPointWithLabel (pointsWithParent b) "axon"
           else Ok (-1)%Z) with
    | Raise e => Raise e
    | Ok axonIdx =>
        if (0 <=? axonIdx)%Z then Ok NaN
        else
          match (if excludeBasal then _lastPointWithLabel (pointsWithParent b) "basal"
                 else Ok (-1)%Z) with
          | Raise e => Raise e
          | Ok basalIdx =>
              if (0 <=? basalIdx)%Z then Ok NaN
              else if fst (isFilo worldDist b filoDist)
              then Ok (Fin (snd (isFilo worldDist b filoDist)))
              else Ok (Fin (ownFiloLength filoDist
                              (fst (worldLengths worldDist b))
                              (snd (worldLengths worldDist b))))
          end
    end.

(** ** The denominator of the per-filopodium motility *)

(** The roles that line 50 of motility.py counts. *)
Definition countsAsFilo (f : FiloType) : bool :=
  match f with
  | TERMINAL | INTERSTITIAL | BRANCH_WITH_TERMINAL | BRANCH_WITH_INTERSTITIAL => true
  | ABSENT | BRANCH_ONLY => false
  end.

Definition filoCount (roles : list FiloType) : nat :=
  length (List.filter countsAsFilo roles).

(** The count as the spec words it: "branches classified as filopodia
    (TERMINAL or INTERSTITIAL, strictly)". *)
Definition strictlyFilo (f : FiloType) : bool :=
  match f with
  | TERMINAL | INTERSTITIAL => true
  | _ => false
  end.

Definition strictFiloCount (roles : list FiloType) : nat :=
  length (List.filter strictlyFilo roles).

(** ** The columns of the length matrix *)

(** The entries of row [treeIdx] that a traversal of [tree] may have
    changed. *)
Definition writesPositions (worldDist : Location -> Location -> Q)
    (excludeAxon excludeBasal : bool) (filoDist : Q)
    (tree : Tree) (treeIdx : nat) (s s' : Matrix npfloat) : Prop :=
  forall t r v, cell s' t r = Some v ->
    cell s t r = Some v \/
    (t = treeIdx /\
     exists b, branches tree !! r = Some b /\
               filoLengthOf worldDist excludeAxon excludeBasal filoDist b = Ok v).

(** The same for a whole sequence of snapshots. *)
Definition writesPositionsOf (worldDist : Location -> Location -> Q)
    (excludeAxon excludeBasal : bool) (filoDist : Q)
    (trees : list Tree) (s s' : Matrix npfloat) : Prop :=
  forall t r v, cell s' t r = Some v ->
    cell s t r = Some v \/
    exists tree b,
      trees !! t = Some tree /\ branches tree !! r = Some b /\
      filoLengthOf worldDist excludeAxon excludeBasal filoDist b = Ok v.

(** ** The claims that the code does not meet, as the spec words them *)

(** Equality of floats as values; NaN stands for "no value". *)
Definition sameFloat (x y : npfloat) : Prop :=
  match x, y with
  | Fin a, Fin b => (a == b)%Q
  | PosInf, PosInf | NegInf, NegInf | NaN, NaN => True
  | _, _ => False
  end.

(** "For every branch id the value is stored at that id's stable global
    column index": the column of a branch is the index of its id in the
    sorted list of all ids. *)
Definition storedAtGlobalIndex (worldDist : Location -> Location -> Q)
    (excludeAxon excludeBasal : bool) (filoDist : Q)
    (trees : list Tree) (filoLengths : Matrix npfloat) : Prop :=
  forall t tree b g v,
    trees !! t = Some tree ->
    In b (branches tree) ->
    list_index (branch_id b) (sortedBranchIDList trees) = Ok g ->
    filoLengthOf worldDist excludeAxon excludeBasal filoDist b = Ok v ->
    getCell filoLengths t g = Ok v.

(** "The count of branches classified as filopodia (TERMINAL or
    INTERSTITIAL, strictly) at the starting snapshot" as the denominator. *)
Definition normalisedByStrictCount (m : Motilities) (ft : Matrix FiloType) : Prop :=
  forall t x rawRow roles,
    rawNFilo m !! t = Some x ->
    raw m !! t = Some rawRow ->
    ft !! t = Some roles ->
    sameFloat x (fdiv (nansum rawRow) (ofCount (strictFiloCount roles))).

(** ** Well-formed snapshots *)

(** Every branch has a parent point, every child of a point is a registered
    branch, and [rank] decreases from a branch to its children: the branches
    form a forest. *)
Definition wellFormedBy (rank : nat -> nat) (tree : Tree) : Prop :=
  forall r b, branches tree !! r = Some b ->
    is_Some (parentPoint b) /\
    forall p c, In p (points b) -> In c (children p) ->
      c < length (branches tree) /\ rank c < rank r.

(** ** fillMasterChanged, cell by cell *)

(** Line 183 for the master nodes [l1] at t and [l2] at t+1. *)
Definition masterChangedAt (l1 l2 : list nat) : bool :=
  (0 <? length l2) && setsDisjoint l1 l2.

(** Every cell is as before or holds the value of line 183. *)
Definition fillsWith (masterNodes : Matrix (list nat)) (mc mc' : Matrix bool) : Prop :=
  forall t b,
    cell mc' t b = cell mc t b \/
    exists l1 l2, cell masterNodes t b = Some l1 /\
                  cell masterNodes (S t) b = Some l2 /\
                  cell mc' t b = Some (masterChangedAt l1 l2).

(** ** Readings of _recursiveFiloTypes *)

(** The branch is not in the snapshot, has no points, or is excluded as axon
    or basal dendrite (lines 83 and 92). *)
Definition treatedAsAbsent (excludeAxon excludeBasal : bool) (found : option Branch)
    : Prop :=
  match found with
  | None => True
  | Some branch =>
      isEmpty branch = true \/
      (excludeAxon = true /\ isAxon branch = true) \/
      (excludeBasal = true /\ isBasal branch = true)
  end.

(** The test of line 153 on the trailing segment of a branch. *)
Definition tailIsFilo (filoDist totalLength totalLengthToLastBranch : Q) : bool :=
  Qltb 0 (totalLength - totalLengthToLastBranch)
  && Qltb (totalLength - totalLengthToLastBranch) filoDist.

(** Roles change from TERMINAL to INTERSTITIAL only, and only in row
    [treeIdx]; the master nodes stay. *)
Definition onlyDowngrades (treeIdx : nat) (s s' : FTState) : Prop :=
  masterNodes s' = masterNodes s /\
  shape (filoTypes s') = shape (filoTypes s) /\
  forall t b,
    cell (filoTypes s') t b = cell (filoTypes s) t b \/
    (t = treeIdx /\
     cell (filoTypes s) t b = Some TERMINAL /\
     cell (filoTypes s') t b = Some INTERSTITIAL).

(** A filopodium of length 3 that grows from the soma. *)
Definition somaFilo : Branch := mkBranch "0000" [pt "f1" 0 3 []] (Some soma).
Definition somaFiloTree : Tree := mkTree (Some soma) [somaFilo].

(** A trunk "0000" with a filopodium "0001" at (10,0) and a long side branch
    "0002" at (20,0): the second makes the first INTERSTITIAL. *)
Definition twoSidesTrunk : Branch :=
  mkBranch "0000" [pt "a1" 10 0 [1]; pt "a2" 20 0 [2]; pt "a3" 25 0 []] (Some soma).
Definition twoSidesTree : Tree :=
  mkTree (Some soma)
    [ twoSidesTrunk;
      mkBranch "0001" [pt "b1" 10 3 []] (Some (pt "a1" 10 0 [1]));
      mkBranch "0002" [pt "c1" 20 15 []] (Some (pt "a2" 20 0 [2])) ].

(** A registered branch that has a point but no parent point. *)
Definition orphanTree : Tree :=
  mkTree (Some soma) [trunk 25; mkBranch "0001" [pt "b1" 20 3 []] None].

(** * tree.py: the other accessors of [Tree] *)

(** [Tree.addBranch] (lines 46-52): appends the Branch object to
    [self.branches] and returns [len(self.branches) - 1].  The assignment
    [branch._parentTree = self] is what makes the new object answer
    [indexInParent()] by its position in this tree, which is how a Branch
    object is named here. *)
Definition addBranch (tree : Tree) (branch : Branch) : nat * Tree :=
  let tree' := mkTree (rootPoint tree) (branches tree ++ [branch]) in
  (length (branches tree') - 1, tree').

Section FlattenPoints.

(** [Point.flattenSubtreePoints] belongs to point.py. *)
Variable flattenSubtreePoints : Point -> list Point.

(** [Tree.flattenPoints] (lines 130-140). *)
Definition flattenPoints (tree : Tree) (includeDisconnected : bool) : list Point :=
  match rootPoint tree with
  | None => []
  | Some root =>
      if negb includeDisconnected then flattenSubtreePoints root
      else fold_left (fun pts b => pts ++ points b) (branches tree) [root]
  end.

(** [Tree.getPointByID] (lines 32-37). *)
Definition getPointByID (tree : Tree) (pointID : string) (includeDisconnected : bool)
    : option Point :=
  List.find (fun point => String.eqb (point_id point) pointID)
            (flattenPoints tree includeDisconnected).

End FlattenPoints.

(** * util.py *)

(** [x <= y] on floats; false when one of them is NaN. *)
Definition fle (x y : npfloat) : bool :=
  match x, y with
  | NaN, _ | _, NaN => false
  | NegInf, _ | _, PosInf => true
  | Fin a, Fin b => Qle_bool a b
  | _, _ => false
  end.

(** [np.minimum] and [np.maximum] on two scalars: NaN if one of them is. *)
Definition fminimum (a b : npfloat) : npfloat :=
  match a, b with
  | NaN, _ | _, NaN => NaN
  | _, _ => if fle a b then a else b
  end.

Definition fmaximum (a b : npfloat) : npfloat :=
  match a, b with
  | NaN, _ | _, NaN => NaN
  | _, _ => if fle b a then a else b
  end.

(** [snapToRange] (lines 11-12), on scalars. *)
Definition snapToRange (x lo hi : npfloat) : npfloat :=
  fmaximum lo (fminimum hi x).

(** [range(c)] for an integer [c]: empty when [c <= 0]. *)
Definition range (c : Z) : list Z := map Z.of_nat (seq 0 (Z.to_nat c)).

(** [emptyArrayArray] (lines 51-55), as the loop is written. *)
Definition emptyArrayArray {A} (c : Z) : list (list A) :=
  fold_left (fun d _ => d ++ [[]]) (range c) [].

(** [emptyArrayMatrix] (lines 57-61), as the loop is written. *)
Definition emptyArrayMatrixLoop {A} (r c : Z) : Matrix (list A) :=
  fold_left (fun d _ => d ++ [emptyArrayArray c]) (range r) [].

(** * swc.py *)

(** ** Python strings

    A [str] is a [string] whose characters are the code points below 256. *)

(** [str.isspace] on one character: the whitespace of [str.strip()]. *)
Definition isspace (c : ascii) : bool :=
  let n := nat_of_ascii c in
  ((9 <=? n) && (n <=? 13)) || ((28 <=? n) && (n <=? 32))
  || (n =? 133) || (n =? 160).

Fixpoint lstrip (s : string) : string :=
  match s with
  | EmptyString => EmptyString
  | String c s' => if isspace c then lstrip s' else s
  end.

Fixpoint rstripBy (drop : ascii -> bool) (s : string) : string :=
  match s with
  | EmptyString => EmptyString
  | String c s' =>
      match rstripBy drop s' with
      | EmptyString => if drop c then EmptyString else String c EmptyString
      | r => String c r
      end
  end.

(** [s.strip()] *)
Definition strip (s : string) : string := rstripBy isspace (lstrip s).

(** [s.rstrip('\n')] *)
Definition rstripNewline (s : string) : string :=
  rstripBy (fun c => Ascii.eqb c (ascii_of_nat 10)) s.

(** [c in s] *)
Fixpoint contains (c : ascii) (s : string) : bool :=
  match s with
  | EmptyString => false
  | String c' s' => Ascii.eqb c' c || contains c s'
  end.

(** [s.find(c)]: the first position of [c], [-1] when there is none. *)
Fixpoint find (c : ascii) (s : string) : Z :=
  match s with
  | EmptyString => (-1)%Z
  | String c' s' =>
      if Ascii.eqb c' c then 0%Z
      else let r := find c s' in if (r <? 0)%Z then (-1)%Z else (r + 1)%Z
  end.

(** A slice bound as Python reads it: a negative bound counts from the end,
    and every bound is clipped to the string. *)
Definition sliceBound (len i : Z) : nat :=
  Z.to_nat (if (i <? 0)%Z then Z.max 0 (len + i) else Z.min i len).

(** [s[lo:hi]] and [s[lo:]] *)
Definition slice (s : string) (lo hi : Z) : string :=
  let len := Z.of_nat (String.length s) in
  let a := sliceBound len lo in
  let b := sliceBound len hi in
  substring a (b - a) s.

Definition sliceFrom (s : string) (lo : Z) : string :=
  let len := Z.of_nat (String.length s) in
  let a := sliceBound len lo in
  substring a (String.length s - a) s.

(** [s[i]] for [i >= 0] *)
Definition charAt (s : string) (i : nat) : Result ascii :=
  match String.get i s with
  | Some c => Ok c
  | None => Raise IndexError
  end.

(** [s.split(sep)] for a separator of one character. *)
Fixpoint split (sep : ascii) (s : string) : list string :=
  match s with
  | EmptyString => [EmptyString]
  | String c s' =>
      if Ascii.eqb c sep then EmptyString :: split sep s'
      else match split sep s' with
           | part :: parts => String c part :: parts
           | [] => [String c EmptyString]
           end
  end.

(** ** Python dicts with string keys, in insertion order *)

Fixpoint dict_get {V} (d : list (string * V)) (k : string) : option V :=
  match d with
  | [] => None
  | (k', v) :: d' => if String.eqb k' k then Some v else dict_get d' k
  end.

(** [d[k] = v] *)
Fixpoint dict_set {V} (d : list (string * V)) (k : string) (v : V)
    : list (string * V) :=
  match d with
  | [] => [(k, v)]
  | (k', v') :: d' =>
      if String.eqb k' k then (k', v) :: d' else (k', v') :: dict_set d' k v
  end.

(** ** [_parseMeta] (lines 86-90) *)

Definition _parseMeta (line : string) : Result (option string * option string) :=
  match charAt line 0 with
  | Raise e => Raise e
  | Ok first =>
      if negb (Ascii.eqb first "#") || negb (contains "=" line)
      then Ok (None, None)
      else
        let at_ := find "=" line in
        Ok (Some (strip (slice line 1 at_)),
            Some (strip (sliceFrom line (at_ + 1))))
  end.

(** ** [importFromSWC] (lines 6-33) *)

Section ImportFromSWC.

(** Python's floats and [float(s)], which raises [ValueError] on a string
    that is no number. *)
Variable F : Type.
Variable float : string -> Result F.

(** [childMap]: parent id -> list of (child id, child XYZ). *)
Definition ChildMap : Type := list (string * list (string * (F * F * F))).

(** Lines 42-82 of [_convertChildMapToTree], which build the tree from the
    soma with the constructors and methods of [Point] and [Branch]. *)
Variable buildTree : string -> F * F * F -> ChildMap -> Result Tree.

(** The three locals of [importFromSWC]. *)
Record SWCState : Type := mkSWCState {
  childMap : ChildMap;
  metadata : list (string * option string);
  comments : list string
}.

(** Lines 27-31: one node line of seven fields. *)
Definition addNode (st : SWCState) (metadata' : list (string * option string))
    (nodeID x y z parent : string) : Result SWCState :=
  match float x with
  | Raise e => Raise e
  | Ok x' =>
  match float y with
  | Raise e => Raise e
  | Ok y' =>
  match float z with
  | Raise e => Raise e
  | Ok z' =>
      let childMap1 :=
        match dict_get (childMap st) parent with
        | None => dict_set (childMap st) parent []
        | Some _ => childMap st
        end in
      let siblings :=
        match dict_get childMap1 parent with
        | Some l => l
        | None => []
        end in
      Ok (mkSWCState
            (dict_set childMap1 parent (siblings ++ [(nodeID, (x', y', z'))]))
            metadata' (comments st))
  end end end.

(** Lines 10-31: the loop over the lines; [Ok None] is the [return None] of
    line 26. *)
Fixpoint readLines (swcLines : list string) (st : SWCState)
    : Result (option SWCState) :=
  match swcLines with
  | [] => Ok (Some st)
  | line :: rest =>
      match _parseMeta line with
      | Raise e => Raise e
      | Ok (metaKey, metaValue) =>
          let metadata' :=
            match metaKey with
            | Some k => dict_set (metadata st) k metaValue
            | None => metadata st
            end in
          match charAt line 0 with
          | Raise e => Raise e
          | Ok first =>
              if Ascii.eqb first "#"
              then readLines rest
                     (mkSWCState (childMap st) metadata' (comments st ++ [line]))
              else
                match split " " line with
                | [nodeID; nodeType; x; y; z; radius; parent] =>
                    match addNode st metadata' nodeID x y z parent with
                    | Raise e => Raise e
                    | Ok st' => readLines rest st'
                    end
                | _ => Ok None
                end
          end
      end
  end.

(** [_convertChildMapToTree] (lines 36-82). *)
Definition _convertChildMapToTree (childMap : ChildMap) : Result (option Tree) :=
  match dict_get childMap "-1" with
  | Some [(somaID, somaLocation)] =>
      match buildTree somaID somaLocation childMap with
      | Ok tree => Ok (Some tree)
      | Raise e => Raise e
      end
  | _ => Ok None
  end.

(** [importFromSWC], from the lines that iterating over the open file
    yields. *)
Definition importFromSWC (fileLines : list string) : Result (option Tree) :=
  let swcLines := map rstripNewline fileLines in
  match readLines swcLines (mkSWCState [] [] []) with
  | Raise e => Raise e
  | Ok None => Ok None
  | Ok (Some st) => _convertChildMapToTree (childMap st)
  end.

End ImportFromSWC.

(** A line that [importFromSWC] collects as a comment. *)
Definition isComment (line : string) : bool :=
  match line with
  | String c _ => Ascii.eqb c "#"
  | EmptyString => false
  end.

(** The seventh field of a node line. *)
Definition parentField (line : string) : string :=
  nth 6 (split " " line) EmptyString.

(** The node lines of a file: those that are no comments. *)
Definition nodeLines (fileLines : list string) : list string :=
  List.filter (fun line => negb (isComment line)) (map rstripNewline fileLines).

(** ** Vocabulary for the properties of swc.py *)

(** Every character of [s] is whitespace. *)
Fixpoint allSpace (s : string) : bool :=
  match s with
  | EmptyString => true
  | String c s' => isspace c && allSpace s'
  end.

(** The number of entries that [childMap] holds for a parent id. *)
Definition childCount {V} (d : list (string * list V)) (k : string) : nat :=
  match dict_get d k with
  | Some l => length l
  | None => 0
  end.

(** The node lines among [swcLines] whose parent field is [k]. *)
Definition nodesWithParent (k : string) (swcLines : list string) : list string :=
  List.filter (fun line => String.eqb (parentField line) k)
    (List.filter (fun line => negb (isComment line)) swcLines).

(** Two outcomes of the loop over the lines that agree on [childMap], the
    only local that [importFromSWC] goes on to use. *)
Definition sameChildMap {F} (r1 r2 : Result (option (SWCState F))) : Prop :=
  match r1, r2 with
  | Raise e1, Raise e2 => e1 = e2
  | Ok None, Ok None => True
  | Ok (Some st1), Ok (Some st2) => childMap F st1 = childMap F st2
  | _, _ => False
  end.

(** ** A small SWC file *)

Definition newline : string := String (ascii_of_nat 10) EmptyString.

(** A stand-in for [float] that reads unsigned decimal integers. *)
Fixpoint digitsValue (s : string) (acc : Z) : option Z :=
  match s with
  | EmptyString => Some acc
  | String c s' =>
      let n := nat_of_ascii c in
      if (48 <=? n) && (n <=? 57)
      then digitsValue s' (10 * acc + Z.of_nat (n - 48))%Z
      else None
  end.

Definition floatOfDigits (s : string) : Result Q :=
  match s with
  | EmptyString => Raise ValueError
  | _ => match digitsValue s 0 with
         | Some z => Ok (inject_Z z)
         | None => Raise ValueError
         end
  end.

(** A stand-in for lines 42-82: the soma alone. *)
Definition somaOnly (somaID : string) (somaLocation : Q * Q * Q)
    (childMap : ChildMap Q) : Result Tree :=
  Ok (mkTree (Some (mkPoint somaID somaLocation EmptyString [])) []).

Definition sampleSWC : list string :=
  [ String.append "#SR_ratio = 0.333333" newline;
    String.append "1 1 0 0 0 1 -1" newline;
    String.append "2 3 10 0 0 1 1" newline ].

(** ** Snapshots whose branches are traced under distinct ids *)

(** No two positions of [tree.branches] hold branches of one id. *)
Definition distinctIDs (tree : Tree) : Prop :=
  forall r r' b b',
    branches tree !! r = Some b -> branches tree !! r' = Some b' ->
    branch_id b = branch_id b' -> r = r'.

(** Both accumulators have [nr] rows of [nc] columns. *)
Definition arraysFit (nr nc : nat) (s : FTState) : Prop :=
  shape (filoTypes s) = replicate nr nc /\
  shape (masterNodes s) = replicate nr nc.

(** From every state that satisfies [P], the computation returns a value
    that satisfies [Q] in a state that satisfies [P]. *)
Definition returns {S A} (P : S -> Prop) (Q : A -> Prop) (m : M S A) : Prop :=
  forall s, P s -> exists a s', m s = Ok (a, s') /\ P s' /\ Q a.

(** Every cell but [(t, b)] of both accumulators is left as it is. *)
Definition onlyCell (t b : nat) (s s' : FTState) : Prop :=
  forall t' b', (t' = t /\ b' = b) \/
    (cell (filoTypes s') t' b' = cell (filoTypes s) t' b' /\
     cell (masterNodes s') t' b' = cell (masterNodes s) t' b').

(** ** A snapshot that has lost a branch

    The second snapshot of [shiftedTrees] no longer has the filopodium
    "0001" of the first, so that its branches "0002" to "0005" sit one
    position before the index of their id.  Its two trunks start at the
    soma: "0000" carries the filopodium "0004" 5 before its end and nothing
    else; "0002" carries the filopodium "0005" 5 before its end, and at its
    end the long branch "0003". *)
Definition shiftedSoma : Point := pt "soma" 0 0 [0; 1].
Definition shiftedTree : Tree :=
  let a1 := pt "a1" 20 0 [3] in
  let b1 := pt "b1" 0 20 [4] in
  let b2 := pt "b2" 0 25 [2] in
  mkTree (Some shiftedSoma)
    [ mkBranch "0000" [a1; pt "a2" 25 0 []] (Some shiftedSoma);
      mkBranch "0002" [b1; b2] (Some shiftedSoma);
      mkBranch "0003" [pt "h1" 15 25 []] (Some b2);
      mkBranch "0004" [pt "f1" 20 3 []] (Some a1);
      mkBranch "0005" [pt "g1" 3 20 []] (Some b1) ].
Definition shiftedTrees : list Tree := [sideBranchTree 25 3; shiftedTree].

(** A childless branch of length 3 on the soma whose point is labelled as a
    lamella. *)
Definition lamella : Branch :=
  mkBranch "0000"
    [mkPoint "l1" (0%Q, inject_Z 3, 0%Q) "lamella" []] (Some soma).
Definition lamellaTree : Tree := mkTree (Some soma) [lamella].
(** * Facts about the arrays *)

Lemma Qltb_lt (x y : Q) : Qltb x y = true <-> (x < y)%Q.
Proof.
  unfold Qltb. rewrite negb_true_iff. split.
  - intros H. apply Qnot_le_lt. intros Hle.
    apply Qle_bool_iff in Hle. congruence.
  - intros H. destruct (Qle_bool y x) eqn:E; [|reflexivity].
    apply Qle_bool_iff in E. exfalso. exact (Qlt_not_le _ _ H E).
Qed.

Lemma Qltb_ge (x y : Q) : Qltb x y = false <-> (y <= x)%Q.
Proof.
  unfold Qltb. rewrite negb_false_iff. apply Qle_bool_iff.
Qed.

Section ArrayFacts.

Context {A B C : Type}.

Lemma getCell_Ok (m : Matrix A) t b v :
  getCell m t b = Ok v <-> cell m t b = Some v.
Proof.
  unfold getCell, cell, list_get.
  destruct (m !! t) as [row|]; simpl; [|split; discriminate].
  destruct (row !! b); split; congruence.
Qed.

Lemma cell_mmap (f : A -> B) (m : Matrix A) t b :
  cell (mmap f m) t b = f <$> cell m t b.
Proof.
  unfold cell, mmap. rewrite list_lookup_fmap.
  destruct (m !! t) as [row|]; simpl; [|reflexivity].
  apply list_lookup_fmap.
Qed.

Lemma cell_mzip (f : A -> B -> C) (m1 : Matrix A) (m2 : Matrix B) t b :
  cell (mzip f m1 m2) t b =
    match cell m1 t b, cell m2 t b with
    | Some x, Some y => Some (f x y)
    | _, _ => None
    end.
Proof.
  unfold cell, mzip. rewrite lookup_zip_with.
  destruct (m1 !! t) as [r1|]; simpl; [|reflexivity].
  destruct (m2 !! t) as [r2|]; simpl.
  - rewrite lookup_zip_with.
    destruct (r1 !! b), (r2 !! b); reflexivity.
  - destruct (r1 !! b); reflexivity.
Qed.

Lemma cell_rowsAfter (m : Matrix A) t b :
  cell (rowsAfter m) t b = cell m (S t) b.
Proof. unfold cell, rowsAfter. now rewrite lookup_tail. Qed.

Lemma shape_full nr nc (v : A) : shape (full nr nc v) = replicate nr nc.
Proof.
  unfold shape, full. rewrite fmap_replicate. now rewrite length_replicate.
Qed.

Lemma shape_length (m : Matrix A) nr nc :
  shape m = replicate nr nc -> length m = nr.
Proof.
  intros H. apply (f_equal length) in H.
  unfold shape in H. now rewrite length_fmap, length_replicate in H.
Qed.

Lemma cell_in_shape (m : Matrix A) nr nc t b :
  shape m = replicate nr nc ->
  (is_Some (cell m t b) <-> t < nr /\ b < nc).
Proof.
  intros H. unfold cell.
  assert (Hrow : length <$> (m !! t) = replicate nr nc !! t).
  { rewrite <- H. unfold shape. now rewrite list_lookup_fmap. }
  destruct (m !! t) as [row|] eqn:E; simpl in *.
  - symmetry in Hrow. apply lookup_replicate in Hrow as [Hc Ht].
    rewrite lookup_lt_is_Some. lia.
  - symmetry in Hrow. apply lookup_replicate_None in Hrow.
    split; [intros [? ?]; discriminate|lia].
Qed.

Lemma setCell_shape (m m' : Matrix A) t b v :
  setCell m t b v = Ok m' -> shape m' = shape m.
Proof.
  unfold setCell. destruct (m !! t) as [row|] eqn:E; [|discriminate].
  destruct (b <? length row); [|discriminate].
  intros [= <-]. unfold shape.
  rewrite list_fmap_insert, length_insert.
  apply list_insert_id. now rewrite list_lookup_fmap, E.
Qed.

Lemma setCell_cell (m m' : Matrix A) t b v :
  setCell m t b v = Ok m' -> cell m' t b = Some v.
Proof.
  unfold setCell. destruct (m !! t) as [row|] eqn:E; [|discriminate].
  destruct (b <? length row) eqn:Hb; [|discriminate].
  apply Nat.ltb_lt in Hb. intros [= <-]. unfold cell.
  rewrite list_lookup_insert_eq by (eapply lookup_lt_Some; eauto). simpl.
  now apply list_lookup_insert_eq.
Qed.

Lemma setCell_cell_other (m m' : Matrix A) t b v t' b' :
  setCell m t b v = Ok m' -> (t', b') <> (t, b) -> cell m' t' b' = cell m t' b'.
Proof.
  unfold setCell. destruct (m !! t) as [row|] eqn:E; [|discriminate].
  destruct (b <? length row) eqn:Hb; [|discriminate].
  intros [= <-] Hne. unfold cell.
  destruct (decide (t' = t)) as [->|Ht].
  - rewrite list_lookup_insert_eq by (eapply lookup_lt_Some; eauto).
    rewrite E. simpl. apply list_lookup_insert_ne. congruence.
  - now rewrite list_lookup_insert_ne by congruence.
Qed.

Lemma setCell_in_range (m : Matrix A) t b v :
  is_Some (cell m t b) -> exists m', setCell m t b v = Ok m'.
Proof.
  unfold cell, setCell. destruct (m !! t) as [row|]; simpl.
  - intros Hs. apply lookup_lt_is_Some in Hs.
    apply Nat.ltb_lt in Hs. rewrite Hs. eauto.
  - intros [? ?]; discriminate.
Qed.

Lemma shape_mmap (f : A -> B) (m : Matrix A) : shape (mmap f m) = shape m.
Proof.
  unfold shape, mmap. rewrite <- list_fmap_compose.
  apply list_fmap_ext. intros i row _. simpl. apply length_fmap.
Qed.

End ArrayFacts.

(** * Frame conditions *)

Section Keeps.

Context {S : Type} (R : S -> S -> Prop).
Context (R_refl : forall s, R s s).
Context (R_trans : forall s1 s2 s3, R s1 s2 -> R s2 s3 -> R s1 s3).

Lemma keeps_ret {A} (a : A) : keeps R (ret a).
Proof. intros s a' s' [= _ <-]. apply R_refl. Qed.

Lemma keeps_raise {A} e : keeps R (raise (A:=A) e).
Proof. intros s a s' H. discriminate. Qed.

Lemma keeps_lift {A} (r : Result A) : keeps R (lift r).
Proof.
  intros s a s'. unfold lift. destruct r; [|discriminate].
  intros [= _ <-]. apply R_refl.
Qed.

Lemma keeps_bind {A B} (m : M S A) (k : A -> M S B) :
  keeps R m -> (forall a, keeps R (k a)) -> keeps R (bind m k).
Proof.
  intros Hm Hk s b s'. unfold bind.
  destruct (m s) as [[a s1]|] eqn:E; [|discriminate].
  intros Hks. eapply R_trans; [eapply Hm; eauto|eapply Hk; eauto].
Qed.

Lemma keeps_forM_ {A} (l : list A) (body : A -> M S unit) :
  (forall x, keeps R (body x)) -> keeps R (forM_ l body).
Proof.
  intros Hb. induction l as [|x l IH]; simpl.
  - apply keeps_ret.
  - apply keeps_bind; auto.
Qed.

Lemma keeps_foldM {A B} (l : list A) (acc : B) (body : B -> A -> M S B) :
  (forall acc x, keeps R (body acc x)) -> keeps R (foldM l acc body).
Proof.
  intros Hb. revert acc. induction l as [|x l IH]; intros acc; simpl.
  - apply keeps_ret.
  - apply keeps_bind; auto.
Qed.

End Keeps.

Lemma sameShapes_refl s : sameShapes s s.
Proof. split; reflexivity. Qed.

Lemma sameShapes_trans s1 s2 s3 :
  sameShapes s1 s2 -> sameShapes s2 s3 -> sameShapes s1 s3.
Proof. intros [H1 H2] [H3 H4]. split; congruence. Qed.

Lemma keeps_setFiloType t b v : keeps sameShapes (setFiloType t b v).
Proof.
  intros s a s'. unfold setFiloType.
  destruct (setCell (filoTypes s) t b v) as [m|] eqn:E; [|discriminate].
  intros [= _ <-]. split; simpl; [eapply setCell_shape; eauto|reflexivity].
Qed.

Lemma keeps_getFiloType t b : keeps sameShapes (getFiloType t b).
Proof.
  intros s a s'. unfold getFiloType.
  destruct (getCell (filoTypes s) t b); [|discriminate].
  intros [= _ <-]. apply sameShapes_refl.
Qed.

Lemma keeps_setMasterNodes t b l : keeps sameShapes (setMasterNodes t b l).
Proof.
  intros s a s'. unfold setMasterNodes.
  destruct (setCell (masterNodes s) t b l) as [m|] eqn:E; [|discriminate].
  intros [= _ <-]. split; simpl; [reflexivity|eapply setCell_shape; eauto].
Qed.

(** Decomposes a goal [keeps sameShapes m] along the structure of [m]. *)
Ltac keeps_step :=
  match goal with
  | |- keeps _ (bind _ _) =>
      apply (keeps_bind _ sameShapes_trans); [|intros ?]
  | |- keeps _ (ret _) => apply (keeps_ret _ sameShapes_refl)
  | |- keeps _ (raise _) => apply keeps_raise
  | |- keeps _ (lift _) => apply (keeps_lift _ sameShapes_refl)
  | |- keeps _ (setFiloType _ _ _) => apply keeps_setFiloType
  | |- keeps _ (getFiloType _ _) => apply keeps_getFiloType
  | |- keeps _ (setMasterNodes _ _ _) => apply keeps_setMasterNodes
  | |- keeps _ (forM_ _ _) =>
      apply (keeps_forM_ _ sameShapes_refl sameShapes_trans); intros ?
  | |- keeps _ (foldM _ _ _) =>
      apply (keeps_foldM _ sameShapes_refl sameShapes_trans); intros ? ?
  | |- keeps _ (if ?c then _ else _) => destruct c
  | |- keeps _ (match ?c with _ => _ end) => destruct c
  | |- keeps _ (let '(_, _) := ?c in _) => destruct c
  end.

Section ClassifierShapes.

Variable worldDist : Location -> Location -> Q.
Variable branchIDList : list string.
Variable trees : list Tree.
Variables excludeAxon excludeBasal : bool.
Variables terminalDist filoDist : Q.

Lemma keeps_recursiveFiloTypes_body recurse treeIdx branchIdx :
  (forall i, keeps sameShapes (recurse i)) ->
  keeps sameShapes
    (recursiveFiloTypes_body worldDist branchIDList trees excludeAxon excludeBasal
       terminalDist filoDist recurse treeIdx branchIdx).
Proof.
  intros Hrec.
  unfold recursiveFiloTypes_body, walkPoint, classifyChild, downgradeTerminals, ownRole.
  repeat keeps_step; auto.
Qed.

Lemma keeps_recursiveFiloTypes fuel treeIdx branchIdx :
  keeps sameShapes
    (_recursiveFiloTypes worldDist branchIDList trees excludeAxon excludeBasal
       terminalDist filoDist fuel treeIdx branchIdx).
Proof.
  revert branchIdx. induction fuel as [|fuel IH]; intros branchIdx; simpl.
  - apply keeps_raise.
  - apply keeps_recursiveFiloTypes_body. exact IH.
Qed.

Lemma keeps_classifyTree fuel it :
  keeps sameShapes
    (classifyTree worldDist fuel branchIDList trees excludeAxon excludeBasal
       terminalDist filoDist it).
Proof.
  unfold classifyTree. repeat keeps_step.
  apply keeps_recursiveFiloTypes.
Qed.

End ClassifierShapes.

Lemma sameShape_refl {A} (m : Matrix A) : sameShape m m.
Proof. reflexivity. Qed.

Lemma sameShape_trans {A} (m1 m2 m3 : Matrix A) :
  sameShape m1 m2 -> sameShape m2 m3 -> sameShape m1 m3.
Proof. unfold sameShape. congruence. Qed.

Lemma keeps_fillMasterChanged masterNodes :
  keeps sameShape (fillMasterChanged masterNodes).
Proof.
  intros mc a mc'. unfold fillMasterChanged.
  apply (keeps_forM_ _ sameShape_refl sameShape_trans). intros t.
  apply (keeps_forM_ _ sameShape_refl sameShape_trans). intros b.
  apply (keeps_bind _ sameShape_trans); [apply (keeps_lift _ sameShape_refl)|intros l1].
  apply (keeps_bind _ sameShape_trans); [apply (keeps_lift _ sameShape_refl)|intros l2].
  intros s a' s'.
  destruct (setCell s t b _) eqn:E; [|discriminate].
  intros [= _ <-]. eapply setCell_shape; eauto.
Qed.

(** * The event matrices, cell by cell *)

Lemma cell_rowsBefore {A} (m : Matrix A) t b :
  cell (rowsBefore m) t b = if decide (S t < length m) then cell m t b else None.
Proof.
  unfold cell, rowsBefore. rewrite removelast_firstn_len, lookup_take.
  destruct (decide (S t < length m)).
  - rewrite decide_True by lia. reflexivity.
  - rewrite decide_False by lia. reflexivity.
Qed.

Lemma cell_beyond {A} (m : Matrix A) t b : length m <= t -> cell m t b = None.
Proof. intros H. unfold cell. now rewrite lookup_ge_None_2. Qed.

Lemma length_mmap {A B} (f : A -> B) (m : Matrix A) : length (mmap f m) = length m.
Proof. unfold mmap. apply length_fmap. Qed.

Lemma length_mzip_same {A B C} (f : A -> B -> C) (m1 : Matrix A) (m2 : Matrix B) :
  length m1 = length m2 -> length (mzip f m1 m2) = length m1.
Proof. intros H. unfold mzip. rewrite length_zip_with. lia. Qed.

Lemma cell_filoExistsOf ft t b :
  cell (filoExistsOf ft) t b = filoExistsAt <$> cell ft t b.
Proof. unfold filoExistsOf. apply cell_mmap. Qed.

Lemma cell_filosOf ft t b : cell (filosOf ft) t b = isFiloAt <$> cell ft t b.
Proof.
  unfold filosOf. rewrite cell_mzip, cell_filoExistsOf, cell_mmap.
  destruct (cell ft t b); reflexivity.
Qed.

Lemma cell_branchesOf ft t b : cell (branchesOf ft) t b = isBranchAt <$> cell ft t b.
Proof. unfold branchesOf. apply cell_mmap. Qed.

Lemma cell_branchWithFiloOf ft t b :
  cell (branchWithFiloOf ft) t b = branchWithFiloAt <$> cell ft t b.
Proof.
  unfold branchWithFiloOf. rewrite cell_mzip, cell_branchesOf, cell_filosOf.
  destruct (cell ft t b); reflexivity.
Qed.

Lemma cell_justBranchesOf ft t b :
  cell (justBranchesOf ft) t b = justBranchAt <$> cell ft t b.
Proof. unfold justBranchesOf. apply cell_mmap. Qed.

Lemma length_filoExistsOf ft : length (filoExistsOf ft) = length ft.
Proof. apply length_mmap. Qed.

Lemma length_filosOf ft : length (filosOf ft) = length ft.
Proof.
  unfold filosOf. rewrite length_mzip_same; rewrite ?length_filoExistsOf, ?length_mmap; reflexivity.
Qed.

Lemma length_branchesOf ft : length (branchesOf ft) = length ft.
Proof. apply length_mmap. Qed.

Lemma length_branchWithFiloOf ft : length (branchWithFiloOf ft) = length ft.
Proof.
  unfold branchWithFiloOf.
  rewrite length_mzip_same; rewrite ?length_branchesOf, ?length_filosOf; reflexivity.
Qed.

Lemma length_justBranchesOf ft : length (justBranchesOf ft) = length ft.
Proof. apply length_mmap. Qed.

(** Rewrites a cell of an event matrix into the roles it is computed from. *)
Ltac cells_of_ft :=
  rewrite ?cell_mzip, ?cell_mmap, ?cell_rowsAfter, ?cell_rowsBefore,
    ?cell_filoExistsOf, ?cell_filosOf, ?cell_branchesOf,
    ?cell_branchWithFiloOf, ?cell_justBranchesOf,
    ?length_filoExistsOf, ?length_filosOf, ?length_branchesOf,
    ?length_branchWithFiloOf, ?length_justBranchesOf.

Lemma cell_addedOf ft t b :
  cell (addedOf ft) t b = (fun p => addedAt (fst p) (snd p)) <$> rolesAt ft t b.
Proof.
  unfold addedOf, rolesAt. repeat cells_of_ft.
  destruct (decide (S t < length ft)) as [Hlt|Hge].
  - destruct (cell ft t b), (cell ft (S t) b); reflexivity.
  - rewrite ?(cell_beyond ft (S t)) by lia. reflexivity.
Qed.

Lemma cell_subtractedOf ft t b :
  cell (subtractedOf ft) t b = (fun p => subtractedAt (fst p) (snd p)) <$> rolesAt ft t b.
Proof.
  unfold subtractedOf, rolesAt. repeat cells_of_ft.
  destruct (decide (S t < length ft)) as [Hlt|Hge].
  - destruct (cell ft t b), (cell ft (S t) b); reflexivity.
  - rewrite ?(cell_beyond ft (S t)) by lia. reflexivity.
Qed.

Lemma cell_transitionedOf ft t b :
  cell (transitionedOf ft) t b =
    (fun p => transitionedAt (fst p) (snd p)) <$> rolesAt ft t b.
Proof.
  unfold transitionedOf, rolesAt. repeat cells_of_ft.
  destruct (decide (S t < length ft)) as [Hlt|Hge].
  - destruct (cell ft t b), (cell ft (S t) b); reflexivity.
  - rewrite ?(cell_beyond ft (S t)) by lia. reflexivity.
Qed.

Lemma cell_maskFill {A} (m : Matrix A) mask v t b :
  cell (maskFill m mask v) t b =
    match cell m t b, cell mask t b with
    | Some x, Some c => Some (if c : bool then v else x)
    | _, _ => None
    end.
Proof. unfold maskFill. apply cell_mzip. Qed.

Lemma rolesAt_in_shape ft nr nc t b :
  shape ft = replicate nr nc -> S t < nr -> b < nc -> is_Some (rolesAt ft t b).
Proof.
  intros Hs Ht Hb. unfold rolesAt.
  rewrite (shape_length _ _ _ Hs), decide_True by lia.
  destruct (proj2 (cell_in_shape ft nr nc t b Hs)) as [f0 ->]; [lia|].
  destruct (proj2 (cell_in_shape ft nr nc (S t) b Hs)) as [f1 ->]; [lia|].
  simpl. eauto.
Qed.

(** The two events exclude each other on every pair of roles. *)
Lemma addedAt_subtractedAt before after :
  addedAt before after = true -> subtractedAt before after = true -> False.
Proof. destruct before, after; discriminate. Qed.

(** * addedSubtractedTransitioned *)

Section AnalysisFacts.

Variable worldDist : Location -> Location -> Q.

(** What a successful run returns: arrays of the allocated shapes, and event
    matrices that are the masked array expressions of lines 67-73. *)
Lemma addedSubtractedTransitioned_inv fuel trees excludeAxon excludeBasal
    terminalDist filoDist out :
  addedSubtractedTransitioned worldDist fuel trees excludeAxon excludeBasal
    terminalDist filoDist = Ok out ->
  0 < length trees /\
  shape (out_filoTypes out) =
    replicate (length trees) (length (sortedBranchIDList trees)) /\
  shape (out_masterNodes out) =
    replicate (length trees) (length (sortedBranchIDList trees)) /\
  shape (out_masterChanged out) =
    replicate (length trees - 1) (length (sortedBranchIDList trees)) /\
  out_added out =
    maskFill (addedOf (out_filoTypes out)) (out_masterChanged out) false /\
  out_subtracted out =
    maskFill (subtractedOf (out_filoTypes out)) (out_masterChanged out) false /\
  out_transitioned out = transitionedOf (out_filoTypes out).
Proof.
  unfold addedSubtractedTransitioned. intros H.
  destruct (length trees =? 0) eqn:Hn; [discriminate|].
  apply Nat.eqb_neq in Hn.
  destruct (forM_ _ _ _) as [[[] s]|] eqn:Hrun; [|discriminate].
  destruct (fillMasterChanged _ _) as [[[] mc]|] eqn:Hmc; [|discriminate].
  injection H as <-. simpl.
  assert (Hkeep : keeps sameShapes
            (forM_ (enumerate trees)
               (classifyTree worldDist fuel (sortedBranchIDList trees) trees
                  excludeAxon excludeBasal terminalDist filoDist))).
  { apply (keeps_forM_ _ sameShapes_refl sameShapes_trans).
    intros it. apply keeps_classifyTree. }
  destruct (Hkeep _ _ _ Hrun) as [Hft Hmn]. cbn [filoTypes masterNodes] in Hft, Hmn.
  apply keeps_fillMasterChanged in Hmc. unfold sameShape in Hmc.
  unfold emptyArrayMatrix in Hmn.
  rewrite shape_full in Hft. rewrite shape_full in Hmn. rewrite shape_full in Hmc.
  repeat split; auto with lia.
Qed.

End AnalysisFacts.

(** C1: for every pair of consecutive snapshots (t, t+1) and every branch
    index b, if [masterChanged[t, b]] is true in the matrices returned by
    [addedSubtractedTransitioned], then [added[t, b]] and [subtracted[t, b]]
    are both false. *)
Theorem masterChanged_clears_added_subtracted
    worldDist fuel trees excludeAxon excludeBasal terminalDist filoDist out t b :
  addedSubtractedTransitioned worldDist fuel trees excludeAxon excludeBasal
    terminalDist filoDist = Ok out ->
  getCell (out_masterChanged out) t b = Ok true ->
  getCell (out_added out) t b = Ok false /\
  getCell (out_subtracted out) t b = Ok false.
Proof.
  intros Hrun Hmc.
  destruct (addedSubtractedTransitioned_inv _ _ _ _ _ _ _ _ Hrun)
    as (Hn & Hft & _ & Hsh & -> & -> & _).
  apply getCell_Ok in Hmc.
  assert (Hin : t < length trees - 1 /\ b < length (sortedBranchIDList trees)).
  { eapply cell_in_shape; eauto. }
  destruct (rolesAt_in_shape _ _ _ t b Hft) as [[f0 f1] Hroles]; [lia|lia|].
  split; apply getCell_Ok; rewrite cell_maskFill, Hmc.
  - rewrite cell_addedOf, Hroles. reflexivity.
  - rewrite cell_subtractedOf, Hroles. reflexivity.
Qed.

(** C5: for every pair of consecutive snapshots (t, t+1) and every branch
    index b, [added[t, b]] and [subtracted[t, b]] as returned by
    [addedSubtractedTransitioned] are never both true. *)
Theorem added_subtracted_exclusive
    worldDist fuel trees excludeAxon excludeBasal terminalDist filoDist out t b :
  addedSubtractedTransitioned worldDist fuel trees excludeAxon excludeBasal
    terminalDist filoDist = Ok out ->
  ~ (getCell (out_added out) t b = Ok true /\
     getCell (out_subtracted out) t b = Ok true).
Proof.
  intros Hrun [Ha Hs].
  destruct (addedSubtractedTransitioned_inv _ _ _ _ _ _ _ _ Hrun)
    as (_ & _ & _ & _ & Hadd & Hsub & _).
  rewrite Hadd in Ha. rewrite Hsub in Hs.
  apply getCell_Ok in Ha, Hs.
  rewrite cell_maskFill, cell_addedOf in Ha.
  rewrite cell_maskFill, cell_subtractedOf in Hs.
  destruct (rolesAt (out_filoTypes out) t b) as [[f0 f1]|]; [|discriminate].
  destruct (cell (out_masterChanged out) t b) as [[|]|]; try discriminate.
  simpl in Ha, Hs.
  apply (addedAt_subtractedAt f0 f1); congruence.
Qed.

(** * The classification of a child branch *)

Lemma list_index_contains x l i :
  list_index x l = Ok i -> list_contains x l = true.
Proof.
  revert i. induction l as [|y l IH]; intros i; simpl; [discriminate|].
  rewrite (String.eqb_sym x y).
  destruct (String.eqb y x); [reflexivity|].
  destruct (list_index x l); [|discriminate].
  intros _. simpl. eapply IH. reflexivity.
Qed.

Lemma setFiloType_in_range t b v s :
  is_Some (cell (filoTypes s) t b) ->
  exists s', setFiloType t b v s = Ok (tt, s') /\
             cell (filoTypes s') t b = Some v /\
             shape (filoTypes s') = shape (filoTypes s) /\
             masterNodes s' = masterNodes s.
Proof.
  intros Hin. unfold setFiloType.
  destruct (setCell_in_range _ t b v Hin) as [m Hm]. rewrite Hm.
  eexists. split; [reflexivity|]. simpl.
  eauto using setCell_cell, setCell_shape.
Qed.

Lemma setMasterNodes_in_range t b l s :
  is_Some (cell (masterNodes s) t b) ->
  exists s', setMasterNodes t b l s = Ok (tt, s') /\
             cell (masterNodes s') t b = Some l /\
             filoTypes s' = filoTypes s.
Proof.
  intros Hin. unfold setMasterNodes.
  destruct (setCell_in_range _ t b l Hin) as [m Hm]. rewrite Hm.
  eexists. split; [reflexivity|]. simpl.
  eauto using setCell_cell.
Qed.

Lemma cell_Some_same_shape {A} (m m' : Matrix A) t b :
  shape m' = shape m -> is_Some (cell m t b) -> is_Some (cell m' t b).
Proof.
  intros Hs. unfold cell.
  assert (Hrow : length <$> (m' !! t) = length <$> (m !! t)).
  { rewrite <- !list_lookup_fmap. unfold shape in Hs. now rewrite Hs. }
  destruct (m !! t) as [row|], (m' !! t) as [row'|]; simpl in *; try discriminate.
  - injection Hrow as Hlen. rewrite !lookup_lt_is_Some. lia.
  - intros [? ?]; discriminate.
Qed.

Section ChildFacts.

Variable worldDist : Location -> Location -> Q.
Variable branchIDList : list string.
Variables terminalDist filoDist : Q.
Variable recurse : nat -> M FTState unit.
Variable tree : Tree.
Variables treeIdx branchIdx : nat.
Variable branch : Branch.
Variable totalLength : Q.
Variable cumulativeLengths : list Q.
Variable pointIdx : nat.
Variable point : Point.
Variable forceInterstitial : bool.
Variable childBranch : nat.

(** The child is a known, non-empty branch that passes the filopodium test,
    and the point it grows from has a cumulative length. *)
Variable child : Branch.
Variable childBranchIdx : nat.
Variable cumAtPoint : Q.
Hypothesis child_at : branchAt tree childBranch = Ok child.
Hypothesis child_nonempty : 1 <= length (points child).
Hypothesis child_known : list_index (branch_id child) branchIDList = Ok childBranchIdx.
Hypothesis child_isFilo : fst (isFilo worldDist child filoDist) = true.
Hypothesis point_length : list_get cumulativeLengths pointIdx = Ok cumAtPoint.

Lemma classifyChild_filo s :
  classifyChild worldDist branchIDList terminalDist filoDist recurse tree
    treeIdx branchIdx branch totalLength cumulativeLengths pointIdx point
    forceInterstitial childBranch s =
  (setFiloType treeIdx childBranchIdx
     (roleByDistance terminalDist (totalLength - cumAtPoint)) ;;;
   if (length (children point) =? 1)
      && (Z.of_nat pointIdx =? Z.of_nat (length (points branch)) - 1)%Z
   then
     setFiloType treeIdx childBranchIdx BRANCH_ONLY ;;;
     setMasterNodes treeIdx childBranchIdx [branchIdx] ;;;
     ret forceInterstitial
   else ret forceInterstitial)%py s.
Proof.
  unfold classifyChild, bind at 1, lift at 1. rewrite child_at.
  replace (length (points child) <? 1) with false
    by (symmetry; apply Nat.ltb_ge; exact child_nonempty).
  rewrite (list_index_contains _ _ _ child_known). simpl negb. cbv iota.
  unfold bind at 1, lift at 1. rewrite child_known.
  destruct (isFilo worldDist child filoDist) as [isF len]. simpl in child_isFilo.
  subst isF.
  unfold bind at 1, lift at 1. rewrite point_length. reflexivity.
Qed.

End ChildFacts.

(** Lines 125-130 on a filopodium that is the only child at the last point
    of the branch: the role written first is overridden. *)
Lemma classifyChild_override
    worldDist branchIDList terminalDist filoDist recurse tree treeIdx branchIdx
    branch totalLength cumulativeLengths pointIdx point forceInterstitial
    childBranch child childBranchIdx cumAtPoint s :
  branchAt tree childBranch = Ok child ->
  1 <= length (points child) ->
  list_index (branch_id child) branchIDList = Ok childBranchIdx ->
  fst (isFilo worldDist child filoDist) = true ->
  list_get cumulativeLengths pointIdx = Ok cumAtPoint ->
  length (children point) = 1 ->
  S pointIdx = length (points branch) ->
  is_Some (cell (filoTypes s) treeIdx childBranchIdx) ->
  is_Some (cell (masterNodes s) treeIdx childBranchIdx) ->
  exists s',
    classifyChild worldDist branchIDList terminalDist filoDist recurse tree
      treeIdx branchIdx branch totalLength cumulativeLengths pointIdx point
      forceInterstitial childBranch s = Ok (forceInterstitial, s') /\
    sameShapes s s' /\
    cell (filoTypes s') treeIdx childBranchIdx = Some BRANCH_ONLY /\
    cell (masterNodes s') treeIdx childBranchIdx = Some [branchIdx].
Proof.
  intros Hat Hne Hidx Hfilo Hcum Hone Hlast Hcell Hmcell.
  rewrite (classifyChild_filo _ _ _ _ _ _ _ _ _ _ _ _ _ _ _ _ _ _
             Hat Hne Hidx Hfilo Hcum).
  destruct (setFiloType_in_range treeIdx childBranchIdx
              (roleByDistance terminalDist (totalLength - cumAtPoint)) s Hcell)
    as (s1 & Hset1 & _ & Hsh1 & Hmn1).
  destruct (setFiloType_in_range treeIdx childBranchIdx BRANCH_ONLY s1)
    as (s2 & Hset2 & Hv2 & Hsh2 & Hmn2).
  { eapply cell_Some_same_shape; eauto. }
  destruct (setMasterNodes_in_range treeIdx childBranchIdx [branchIdx] s2)
    as (s3 & Hset3 & Hv3 & Hft3).
  { rewrite Hmn2, Hmn1. exact Hmcell. }
  exists s3. unfold bind. rewrite Hset1.
  rewrite Hone, <- Hlast. cbn [Nat.eqb].
  replace (Z.of_nat pointIdx =? Z.of_nat (S pointIdx) - 1)%Z with true
    by (symmetry; apply Z.eqb_eq; lia).
  change (true && true) with true. cbv beta iota.
  rewrite Hset2. cbv beta iota. rewrite Hset3.
  split; [reflexivity|]. split.
  - apply (sameShapes_trans s s1); [eapply keeps_setFiloType; eauto|].
    apply (sameShapes_trans s1 s2); [eapply keeps_setFiloType; eauto|].
    eapply keeps_setMasterNodes; eauto.
  - rewrite Hft3. auto.
Qed.

(** * _calcFiloLengths *)

Lemma keeps_setFiloLength t b v : keeps sameShape (setFiloLength t b v).
Proof.
  intros m a m'. unfold setFiloLength.
  destruct (setCell m t b v) eqn:E; [|discriminate].
  intros [= _ <-]. eapply setCell_shape; eauto.
Qed.

Lemma keeps_excludedBy {S} (R : S -> S -> Prop) (R_refl : forall s, R s s)
    exclude pts label :
  keeps R (excludedBy exclude pts label).
Proof.
  intros s a s'. unfold excludedBy. destruct exclude.
  - unfold bind, lift. destruct (_lastPointWithLabel pts label); [|discriminate].
    intros [= _ <-]. apply R_refl.
  - intros [= _ <-]. apply R_refl.
Qed.

Lemma excludedBy_not {S} exclude pts label (s : S) :
  notExcluded exclude pts label -> excludedBy exclude pts label s = Ok (false, s).
Proof.
  intros [->|(i & Hi & Hneg)]; [reflexivity|].
  unfold excludedBy. destruct exclude; [|reflexivity].
  unfold bind, lift, ret. rewrite Hi.
  replace (0 <=? i)%Z with false by (symmetry; apply Z.leb_gt; exact Hneg).
  reflexivity.
Qed.

Lemma ownFiloLength_at_boundary filoDist totalLength totalLengthToLastBranch :
  (filoDist <= totalLength - totalLengthToLastBranch)%Q ->
  ownFiloLength filoDist totalLength totalLengthToLastBranch = 0%Q.
Proof.
  intros Hge. unfold ownFiloLength.
  destruct (Qltb 0 totalLengthToLastBranch).
  - replace (Qltb _ filoDist) with false; [reflexivity|].
    symmetry. apply Qltb_ge. exact Hge.
  - replace (Qltb _ filoDist) with false; [reflexivity|].
    symmetry. apply Qltb_ge.
    rewrite <- (Qplus_0_r filoDist) at 1.
    apply Qplus_le_r. discriminate.
Qed.

Lemma ownFiloLength_no_last_branch filoDist totalLength totalLengthToLastBranch :
  (totalLengthToLastBranch <= 0)%Q ->
  ownFiloLength filoDist totalLength totalLengthToLastBranch = 0%Q.
Proof.
  intros Hle. unfold ownFiloLength.
  replace (Qltb 0 totalLengthToLastBranch) with false
    by (symmetry; apply Qltb_ge; exact Hle).
  replace (Qltb _ filoDist) with false; [reflexivity|].
  symmetry. apply Qltb_ge.
  rewrite <- (Qplus_0_r filoDist) at 1.
  apply Qplus_le_r. discriminate.
Qed.

Lemma ownFiloLength_nonzero filoDist totalLength totalLengthToLastBranch :
  ownFiloLength filoDist totalLength totalLengthToLastBranch <> 0%Q ->
  ownFiloLength filoDist totalLength totalLengthToLastBranch
    = (totalLength - totalLengthToLastBranch)%Q /\
  (totalLength - totalLengthToLastBranch < filoDist)%Q /\
  (0 < totalLengthToLastBranch)%Q.
Proof.
  unfold ownFiloLength.
  destruct (Qltb 0 totalLengthToLastBranch) eqn:Hpos.
  - destruct (Qltb _ filoDist) eqn:Hlt; [|congruence].
    intros _. apply Qltb_lt in Hpos, Hlt. auto.
  - destruct (Qltb _ filoDist) eqn:Hlt; [|congruence].
    apply Qltb_lt in Hlt. exfalso.
    apply (Qlt_not_le _ _ Hlt).
    rewrite <- (Qplus_0_r filoDist) at 1.
    apply Qplus_le_r. discriminate.
Qed.

Section FiloLengthFacts.

Variable worldDist : Location -> Location -> Q.

(** A branch that reaches step 5: the recursion into its children, then the
    write of its own contribution. *)
Lemma calcFiloLengths_recursed fuel tree treeIdx branch excludeAxon excludeBasal
    filoDist b s :
  branchAt tree branch = Ok b ->
  1 <= length (points b) ->
  notExcluded excludeAxon (pointsWithParent b) "axon" ->
  notExcluded excludeBasal (pointsWithParent b) "basal" ->
  fst (isFilo worldDist b filoDist) = false ->
  _calcFiloLengths worldDist (S fuel) tree treeIdx branch
    excludeAxon excludeBasal filoDist s =
  (recurseIntoChildren worldDist fuel tree treeIdx b
     excludeAxon excludeBasal filoDist ;;;
   setFiloLength treeIdx branch
     (Fin (ownFiloLength filoDist (fst (worldLengths worldDist b))
             (snd (worldLengths worldDist b)))))%py s.
Proof.
  intros Hat Hne Hax Hbas Hfilo. cbn [_calcFiloLengths].
  unfold calcFiloLengths_body, recurseIntoChildren.
  unfold bind at 1, lift at 1. rewrite Hat.
  unfold bind at 1, lift at 1, indexInParent.
  assert (Hlt : branch < length (branches tree)).
  { unfold branchAt in Hat. destruct (branches tree !! branch) eqn:E; [|discriminate].
    eapply lookup_lt_Some; eauto. }
  apply Nat.ltb_lt in Hlt. rewrite Hlt.
  replace (length (parentPoint b :: map Some (points b)) <? 2) with false.
  2:{ symmetry. apply Nat.ltb_ge. cbn [length]. rewrite length_map. lia. }
  unfold bind at 1. rewrite (excludedBy_not _ _ _ _ Hax).
  unfold bind at 1. rewrite (excludedBy_not _ _ _ _ Hbas).
  destruct (isFilo worldDist b filoDist) as [isF len]. cbn [fst] in Hfilo. subst isF.
  destruct (worldLengths worldDist b) as [total toLast]. reflexivity.
Qed.

(** Whatever path a successful call takes, it ends with the write of the
    branch's value into the cell of the branch's position in its own tree;
    before that, at most the recursion into the children has run. *)
Lemma calcFiloLengths_final_write fuel tree treeIdx branch excludeAxon excludeBasal
    filoDist s s' :
  _calcFiloLengths worldDist (S fuel) tree treeIdx branch
    excludeAxon excludeBasal filoDist s = Ok (tt, s') ->
  exists b v s1,
    branches tree !! branch = Some b /\
    filoLengthOf worldDist excludeAxon excludeBasal filoDist b = Ok v /\
    (s1 = s \/
     recurseIntoChildren worldDist fuel tree treeIdx b
       excludeAxon excludeBasal filoDist s = Ok (tt, s1)) /\
    setFiloLength treeIdx branch v s1 = Ok (tt, s').
Proof.
  cbn [_calcFiloLengths]. unfold calcFiloLengths_body.
  unfold bind at 1, lift at 1, branchAt.
  destruct (branches tree !! branch) as [b|] eqn:Hb; [|discriminate].
  unfold bind at 1, lift at 1, indexInParent.
  destruct (branch <? length (branches tree)); [|discriminate].
  intros Hrun.
  enough (exists v s1,
            filoLengthOf worldDist excludeAxon excludeBasal filoDist b = Ok v /\
            (s1 = s \/
             recurseIntoChildren worldDist fuel tree treeIdx b
               excludeAxon excludeBasal filoDist s = Ok (tt, s1)) /\
            setFiloLength treeIdx branch v s1 = Ok (tt, s'))
    as (v & s1 & Hv & Hs1 & Hset) by (exists b, v, s1; auto).
  revert Hrun. unfold filoLengthOf, pointsWithParent, recurseIntoChildren.
  assert (Hrest :
    (let '(branchIsFilo, branchLength) := isFilo worldDist b filoDist in
     if branchIsFilo then setFiloLength treeIdx branch (Fin branchLength)
     else
       let '(totalLength, totalLengthToLastBranch) := worldLengths worldDist b in
       forM_ (points b) (fun point =>
         forM_ (children point) (fun childBranch =>
           _calcFiloLengths worldDist fuel tree treeIdx childBranch
             excludeAxon excludeBasal filoDist)) ;;;
       setFiloLength treeIdx branch
         (Fin (ownFiloLength filoDist totalLength totalLengthToLastBranch)))%py s
      = Ok (tt, s') ->
    exists v s1,
      (if fst (isFilo worldDist b filoDist)
       then Ok (Fin (snd (isFilo worldDist b filoDist)))
       else Ok (Fin (ownFiloLength filoDist (fst (worldLengths worldDist b))
                       (snd (worldLengths worldDist b))))) = Ok v /\
      (s1 = s \/
       forM_ (points b) (fun point =>
         forM_ (children point) (fun childBranch =>
           _calcFiloLengths worldDist fuel tree treeIdx childBranch
             excludeAxon excludeBasal filoDist)) s = Ok (tt, s1)) /\
      setFiloLength treeIdx branch v s1 = Ok (tt, s')).
  { destruct (isFilo worldDist b filoDist) as [[|] len]; cbn [fst snd].
    - intros H. eexists _, s. split; [reflexivity|]. split; [now left|exact H].
    - destruct (worldLengths worldDist b) as [total toLast]; cbn [fst snd].
      unfold bind at 1.
      destruct (forM_ _ _ s) as [[[] s1]|]; [|discriminate].
      intros H. eexists _, s1. split; [reflexivity|]. split; [now right|exact H]. }
  destruct (length (parentPoint b :: map Some (points b)) <? 2).
  { intros H. eexists _, s. split; [reflexivity|]. split; [now left|exact H]. }
  unfold bind at 1, excludedBy at 1.
  destruct excludeAxon.
  - unfold bind at 1, lift at 1.
    destruct (_lastPointWithLabel _ "axon") as [ia|]; [|discriminate].
    unfold ret at 1. destruct (0 <=? ia)%Z.
    { intros H. eexists _, s. split; [reflexivity|]. split; [now left|exact H]. }
    unfold bind at 1, excludedBy at 1.
    destruct excludeBasal.
    + unfold bind at 1, lift at 1.
      destruct (_lastPointWithLabel _ "basal") as [ib|]; [|discriminate].
      unfold ret at 1. destruct (0 <=? ib)%Z.
      { intros H. eexists _, s. split; [reflexivity|]. split; [now left|exact H]. }
      apply Hrest.
    + unfold ret at 1. apply Hrest.
  - unfold ret at 1. unfold bind at 1, excludedBy at 1.
    destruct excludeBasal.
    + unfold bind at 1, lift at 1.
      destruct (_lastPointWithLabel _ "basal") as [ib|]; [|discriminate].
      unfold ret at 1. destruct (0 <=? ib)%Z.
      { intros H. eexists _, s. split; [reflexivity|]. split; [now left|exact H]. }
      apply Hrest.
    + unfold ret at 1. apply Hrest.
Qed.

Lemma setFiloLength_cell t b v m m' :
  setFiloLength t b v m = Ok (tt, m') ->
  cell m' t b = Some v /\
  forall t' b', (t', b') <> (t, b) -> cell m' t' b' = cell m t' b'.
Proof.
  unfold setFiloLength.
  destruct (setCell m t b v) eqn:E; [|discriminate].
  intros [= <-]. split; [eapply setCell_cell; eauto|].
  intros t' b' Hne. eapply setCell_cell_other; eauto.
Qed.

Lemma calcFiloLengths_writes fuel tree treeIdx branch excludeAxon excludeBasal
    filoDist s s' :
  _calcFiloLengths worldDist fuel tree treeIdx branch
    excludeAxon excludeBasal filoDist s = Ok (tt, s') ->
  exists b v,
    branches tree !! branch = Some b /\
    filoLengthOf worldDist excludeAxon excludeBasal filoDist b = Ok v /\
    cell s' treeIdx branch = Some v.
Proof.
  destruct fuel as [|fuel]; [discriminate|]. intros Hrun.
  destruct (calcFiloLengths_final_write _ _ _ _ _ _ _ _ _ Hrun)
    as (b & v & s1 & Hb & Hv & _ & Hset).
  exists b, v. repeat split; auto.
  apply (setFiloLength_cell _ _ _ _ _ Hset).
Qed.

Lemma keeps_calcFiloLengths fuel tree treeIdx branch excludeAxon excludeBasal filoDist :
  keeps sameShape
    (_calcFiloLengths worldDist fuel tree treeIdx branch
       excludeAxon excludeBasal filoDist).
Proof.
  revert branch. induction fuel as [|fuel IH]; intros branch; simpl.
  - apply keeps_raise.
  - unfold calcFiloLengths_body.
    repeat first
      [ apply (keeps_bind _ sameShape_trans); [|intros ?]
      | apply (keeps_lift _ sameShape_refl)
      | apply keeps_setFiloLength
      | apply (keeps_excludedBy _ sameShape_refl)
      | apply (keeps_forM_ _ sameShape_refl sameShape_trans); intros ?
      | apply IH
      | match goal with
        | |- keeps _ (if ?c then _ else _) => destruct c
        | |- keeps _ (let '(_, _) := ?c in _) => destruct c
        end ].
Qed.

End FiloLengthFacts.

Section OwnContribution.

Variable worldDist : Location -> Location -> Q.
Variable fuel : nat.
Variable tree : Tree.
Variables treeIdx branch : nat.
Variables excludeAxon excludeBasal : bool.
Variable filoDist : Q.
Variable b : Branch.
Variables s s1 : Matrix npfloat.

(** A non-empty branch that is neither excluded nor a filopodium, whose
    recursion into the children returns, and whose cell exists. *)
Hypothesis branch_at : branchAt tree branch = Ok b.
Hypothesis branch_nonempty : 1 <= length (points b).
Hypothesis not_axon : notExcluded excludeAxon (pointsWithParent b) "axon".
Hypothesis not_basal : notExcluded excludeBasal (pointsWithParent b) "basal".
Hypothesis not_filo : fst (isFilo worldDist b filoDist) = false.
Hypothesis children_done :
  recurseIntoChildren worldDist fuel tree treeIdx b
    excludeAxon excludeBasal filoDist s = Ok (tt, s1).
Hypothesis cell_exists : is_Some (cell s1 treeIdx branch).

Lemma calcFiloLengths_own_contribution :
  exists s',
    _calcFiloLengths worldDist (S fuel) tree treeIdx branch
      excludeAxon excludeBasal filoDist s = Ok (tt, s') /\
    getCell s' treeIdx branch =
      Ok (Fin (ownFiloLength filoDist (fst (worldLengths worldDist b))
                 (snd (worldLengths worldDist b)))).
Proof.
  rewrite (calcFiloLengths_recursed worldDist fuel tree treeIdx branch
             excludeAxon excludeBasal filoDist b s
             branch_at branch_nonempty not_axon not_basal not_filo).
  unfold bind. rewrite children_done. unfold setFiloLength.
  destruct (setCell_in_range s1 treeIdx branch
              (Fin (ownFiloLength filoDist (fst (worldLengths worldDist b))
                      (snd (worldLengths worldDist b)))) cell_exists)
    as [m Hm].
  rewrite Hm. exists m. split; [reflexivity|].
  apply getCell_Ok. eapply setCell_cell; eauto.
Qed.

End OwnContribution.

(** C7: in the filopodium-length recomputation, a non-filopodium branch whose
    trailing segment [totalLength - lengthToLastBranch] equals [filoDist]
    contributes 0: the comparison is strict, and the trailing segment is the
    contribution only when it is strictly below [filoDist]. *)
Theorem calcFiloLengths_boundary_is_strict
    worldDist fuel tree treeIdx branch excludeAxon excludeBasal filoDist b s s1 :
  branchAt tree branch = Ok b ->
  1 <= length (points b) ->
  notExcluded excludeAxon (pointsWithParent b) "axon" ->
  notExcluded excludeBasal (pointsWithParent b) "basal" ->
  fst (isFilo worldDist b filoDist) = false ->
  recurseIntoChildren worldDist fuel tree treeIdx b
    excludeAxon excludeBasal filoDist s = Ok (tt, s1) ->
  is_Some (cell s1 treeIdx branch) ->
  exists s',
    _calcFiloLengths worldDist (S fuel) tree treeIdx branch
      excludeAxon excludeBasal filoDist s = Ok (tt, s') /\
    ((fst (worldLengths worldDist b) - snd (worldLengths worldDist b) == filoDist)%Q ->
       getCell s' treeIdx branch = Ok (Fin 0)) /\
    (forall v, getCell s' treeIdx branch = Ok (Fin v) -> v <> 0%Q ->
       v = (fst (worldLengths worldDist b) - snd (worldLengths worldDist b))%Q /\
       (fst (worldLengths worldDist b) - snd (worldLengths worldDist b) < filoDist)%Q).
Proof.
  intros Hat Hne Hax Hbas Hfilo Hkids Hcell.
  destruct (calcFiloLengths_own_contribution worldDist fuel tree treeIdx branch
              excludeAxon excludeBasal filoDist b s s1
              Hat Hne Hax Hbas Hfilo Hkids Hcell) as (s' & Hrun & Hv).
  exists s'. split; [exact Hrun|]. rewrite Hv. split.
  - intros Heq. rewrite ownFiloLength_at_boundary; [reflexivity|].
    rewrite Heq. apply Qle_refl.
  - intros v [= <-] Hnz.
    destruct (ownFiloLength_nonzero _ _ _ Hnz) as (Hval & Hlt & _). auto.
Qed.

(** C9: a non-empty, non-excluded, non-filopodium branch whose
    [lengthToLastBranch] is not strictly positive (0 in particular) is
    assigned the contribution 0 whatever its total length, because
    [lengthPastLastBranch] then keeps its default [filoDist + 1]. *)
Theorem calcFiloLengths_no_last_branch_is_zero
    worldDist fuel tree treeIdx branch excludeAxon excludeBasal filoDist b s s1 :
  branchAt tree branch = Ok b ->
  1 <= length (points b) ->
  notExcluded excludeAxon (pointsWithParent b) "axon" ->
  notExcluded excludeBasal (pointsWithParent b) "basal" ->
  fst (isFilo worldDist b filoDist) = false ->
  recurseIntoChildren worldDist fuel tree treeIdx b
    excludeAxon excludeBasal filoDist s = Ok (tt, s1) ->
  is_Some (cell s1 treeIdx branch) ->
  (snd (worldLengths worldDist b) <= 0)%Q ->
  exists s',
    _calcFiloLengths worldDist (S fuel) tree treeIdx branch
      excludeAxon excludeBasal filoDist s = Ok (tt, s') /\
    getCell s' treeIdx branch = Ok (Fin 0).
Proof.
  intros Hat Hne Hax Hbas Hfilo Hkids Hcell Hzero.
  destruct (calcFiloLengths_own_contribution worldDist fuel tree treeIdx branch
              excludeAxon excludeBasal filoDist b s s1
              Hat Hne Hax Hbas Hfilo Hkids Hcell) as (s' & Hrun & Hv).
  exists s'. split; [exact Hrun|].
  rewrite Hv, ownFiloLength_no_last_branch; [reflexivity|exact Hzero].
Qed.

(** * motility *)

Lemma keeps_forM_In {S A} (R : S -> S -> Prop)
    (R_refl : forall s, R s s)
    (R_trans : forall s1 s2 s3, R s1 s2 -> R s2 s3 -> R s1 s3)
    (l : list A) (body : A -> M S unit) :
  (forall x, In x l -> keeps R (body x)) -> keeps R (forM_ l body).
Proof.
  induction l as [|x l IH]; intros Hb; simpl.
  - apply keeps_ret, R_refl.
  - apply keeps_bind; [exact R_trans|apply Hb; now left|].
    intros _. apply IH. intros y Hy. apply Hb. now right.
Qed.

Lemma forM_raises {S A} (l : list A) (body : A -> M S unit) x :
  In x l -> (forall s, isOk (body x s) = false) ->
  forall s, isOk (forM_ l body s) = false.
Proof.
  intros Hin Hx. induction l as [|y l IH]; [destruct Hin|].
  intros s. simpl. unfold bind.
  destruct Hin as [->|Hin].
  - specialize (Hx s). destruct (body x s) as [[? ?]|]; [discriminate|reflexivity].
  - destruct (body y s) as [[? s1]|]; [apply IH; exact Hin|reflexivity].
Qed.

Lemma In_zip_seq {A} (l : list A) (x : A) k :
  In x l -> exists i, In (i, x) (zip (seq k (length l)) l).
Proof.
  revert k. induction l as [|y l IH]; intros k Hin; [destruct Hin|].
  simpl. destruct Hin as [->|Hin].
  - exists k. now left.
  - destruct (IH (S k) Hin) as [i Hi]. exists i. now right.
Qed.

Lemma In_enumerate {A} (l : list A) (x : A) :
  In x l -> exists i, In (i, x) (enumerate l).
Proof. apply In_zip_seq. Qed.

Lemma zip_seq_lookup {A} (l : list A) (x : A) i k :
  In (i, x) (zip (seq k (length l)) l) -> k <= i /\ l !! (i - k) = Some x.
Proof.
  revert k. induction l as [|y l IH]; intros k Hin; [destruct Hin|].
  simpl in Hin. destruct Hin as [[= <- <-]|Hin].
  - rewrite Nat.sub_diag. auto.
  - destruct (IH (S k) Hin) as [Hle Hl]. split; [lia|].
    replace (i - k) with (S (i - S k)) by lia. exact Hl.
Qed.

Lemma enumerate_lookup {A} (l : list A) (x : A) i :
  In (i, x) (enumerate l) -> l !! i = Some x.
Proof.
  intros Hin. destruct (zip_seq_lookup l x i 0 Hin) as [_ H].
  now rewrite Nat.sub_0_r in H.
Qed.

Lemma isFiloAt_countsAsFilo f : isFiloAt f = countsAsFilo f.
Proof. destruct f; reflexivity. Qed.

Lemma nFiloOf_filoCount ft : nFiloOf ft = map filoCount ft.
Proof.
  unfold nFiloOf, countTrue, mzip, mmap.
  induction ft as [|row ft IH]; [reflexivity|].
  cbn [fmap list_fmap zip_with map]. f_equal; [|exact IH].
  unfold filoCount. clear IH.
  induction row as [|f row IHrow]; [reflexivity|].
  cbn [fmap list_fmap zip_with List.filter].
  change (ft_gt f ABSENT && ft_lt f BRANCH_ONLY) with (isFiloAt f).
  rewrite isFiloAt_countsAsFilo.
  destruct (countsAsFilo f); cbn [length]; [f_equal|]; exact IHrow.
Qed.

Section MotilityFacts.

Variable worldDist : Location -> Location -> Q.
Variable TDBL : Tree -> bool -> bool -> bool -> Q -> npfloat.

(** What a successful run of [motility] went through. *)
Lemma motility_inv fuel trees excludeAxon excludeBasal includeAS
    terminalDist filoDist m filoLengths :
  motility worldDist TDBL fuel trees excludeAxon excludeBasal includeAS
    terminalDist filoDist = Ok (m, filoLengths) ->
  exists out lastTree,
    addedSubtractedTransitioned worldDist fuel trees excludeAxon excludeBasal
      terminalDist filoDist = Ok out /\
    List.last (map Some trees) None = Some lastTree /\
    forM_ (enumerate trees)
      (lengthsOfTree worldDist fuel excludeAxon excludeBasal filoDist)
      (full (length trees) (length (branches lastTree)) NaN)
      = Ok (tt, filoLengths) /\
    length (branches lastTree) = length (hd [] (out_filoTypes out)) /\
    rawNFilo m =
      zip_with fdiv (map nansum (raw m))
        (map ofCount (removelast (nFiloOf (out_filoTypes out)))).
Proof.
  unfold motility. intros H.
  destruct (addedSubtractedTransitioned _ _ _ _ _ _ _) as [out|]; [|discriminate].
  destruct (List.last (map Some trees) None) as [lastTree|]; [|discriminate].
  destruct (forM_ _ _ _) as [[[] fl]|] eqn:Hrun; [|discriminate].
  destruct (length (branches lastTree) =? length (hd [] (out_filoTypes out)))
    eqn:Hcols; [|discriminate].
  apply Nat.eqb_eq in Hcols. cbn [negb] in H.
  injection H as <- <-.
  exists out, lastTree. cbn [rawNFilo raw]. auto.
Qed.

(** [tree.rootPoint.children] on a tree without root. *)
Lemma lengthsOfTree_no_root fuel excludeAxon excludeBasal filoDist treeIdx tree s :
  rootPoint tree = None ->
  lengthsOfTree worldDist fuel excludeAxon excludeBasal filoDist (treeIdx, tree) s
    = Raise AttributeError.
Proof. intros H. unfold lengthsOfTree. rewrite H. reflexivity. Qed.

End MotilityFacts.

Lemma lookup_map {A B} (f : A -> B) (l : list A) i :
  map f l !! i = f <$> (l !! i).
Proof. exact (list_lookup_fmap f l i). Qed.

Lemma lookup_removelast_Some {A} (l : list A) i x :
  removelast l !! i = Some x -> l !! i = Some x /\ S i < length l.
Proof.
  rewrite removelast_firstn_len, lookup_take.
  case_decide; [|discriminate]. intros Hl. split; [exact Hl|lia].
Qed.

(** C3, as the code has it: the motility normalised by filopodium count of
    the transition (t, t+1) is the NaN-ignoring sum of the raw motility of
    that transition divided by the number of branches whose role at snapshot
    t lies strictly between ABSENT and BRANCH_ONLY, that is TERMINAL,
    INTERSTITIAL, BRANCH_WITH_TERMINAL or BRANCH_WITH_INTERSTITIAL. *)
Theorem rawNFilo_counts_every_filo_role
    worldDist TDBL fuel trees excludeAxon excludeBasal includeAS
    terminalDist filoDist m filoLengths t x :
  motility worldDist TDBL fuel trees excludeAxon excludeBasal includeAS
    terminalDist filoDist = Ok (m, filoLengths) ->
  rawNFilo m !! t = Some x ->
  exists out rawRow roles,
    addedSubtractedTransitioned worldDist fuel trees excludeAxon excludeBasal
      terminalDist filoDist = Ok out /\
    S t < length trees /\
    raw m !! t = Some rawRow /\
    out_filoTypes out !! t = Some roles /\
    x = fdiv (nansum rawRow) (ofCount (filoCount roles)).
Proof.
  intros Hrun Hx.
  destruct (motility_inv _ _ _ _ _ _ _ _ _ _ _ Hrun)
    as (out & lastTree & Hast & _ & _ & _ & Hraw).
  rewrite Hraw in Hx. apply lookup_zip_with_Some in Hx as (a & c & -> & Ha & Hc).
  rewrite lookup_map in Ha. rewrite lookup_map in Hc.
  destruct (raw m !! t) as [rawRow|] eqn:Hrow; [|discriminate].
  injection Ha as <-.
  destruct (removelast (nFiloOf (out_filoTypes out)) !! t) as [n|] eqn:Hn;
    [|discriminate].
  injection Hc as <-.
  apply lookup_removelast_Some in Hn as [Hn Hlen].
  rewrite nFiloOf_filoCount in Hn, Hlen. rewrite length_map in Hlen.
  rewrite lookup_map in Hn.
  destruct (out_filoTypes out !! t) as [roles|] eqn:Hroles; [|discriminate].
  injection Hn as <-.
  destruct (addedSubtractedTransitioned_inv _ _ _ _ _ _ _ _ Hast)
    as (_ & Hshape & _).
  apply shape_length in Hshape. rewrite Hshape in Hlen.
  exists out, rawRow, roles. auto.
Qed.

(** C8, where the code departs from it: [motility] raises on every sequence
    that contains a tree without root point. *)
Theorem motility_raises_on_rootless_tree
    worldDist TDBL fuel trees excludeAxon excludeBasal includeAS
    terminalDist filoDist tree :
  In tree trees ->
  rootPoint tree = None ->
  isOk (motility worldDist TDBL fuel trees excludeAxon excludeBasal includeAS
          terminalDist filoDist) = false.
Proof.
  intros Hin Hroot. unfold motility.
  destruct (addedSubtractedTransitioned _ _ _ _ _ _ _) as [out|]; [|reflexivity].
  destruct (List.last (map Some trees) None) as [lastTree|]; [|reflexivity].
  destruct (In_enumerate trees tree Hin) as [i Hi].
  pose proof (forM_raises (enumerate trees)
                (lengthsOfTree worldDist fuel excludeAxon excludeBasal filoDist)
                (i, tree) Hi) as Hraise.
  specialize (Hraise (fun s => f_equal isOk
                (lengthsOfTree_no_root worldDist fuel excludeAxon excludeBasal
                   filoDist i tree s Hroot))).
  specialize (Hraise (full (length trees) (length (branches lastTree)) NaN)).
  destruct (forM_ _ _ _) as [[? ?]|]; [discriminate|reflexivity].
Qed.

(** The sibling loop of [addedSubtractedTransitioned] skips such a tree. *)
Lemma classifyTree_skips_rootless_tree
    worldDist fuel branchIDList trees excludeAxon excludeBasal terminalDist filoDist
    treeIdx tree s :
  rootPoint tree = None ->
  classifyTree worldDist fuel branchIDList trees excludeAxon excludeBasal
    terminalDist filoDist (treeIdx, tree) s = Ok (tt, s).
Proof.
  intros H. unfold classifyTree. rewrite H.
  destruct (0 <? length (branches tree)); reflexivity.
Qed.

(** * The columns of the matrices *)

Lemma shape_replicate_tail nr (nc : nat) :
  tail (replicate nr nc) = replicate (nr - 1) nc.
Proof. destruct nr; simpl; [reflexivity|]. now rewrite Nat.sub_0_r. Qed.

Lemma shape_replicate_removelast nr (nc : nat) :
  removelast (replicate nr nc) = replicate (nr - 1) nc.
Proof.
  induction nr as [|nr IH]; [reflexivity|].
  simpl. rewrite Nat.sub_0_r. destruct nr; [reflexivity|].
  simpl in IH |- *. rewrite Nat.sub_0_r in IH. now rewrite IH.
Qed.

Lemma shape_rowsAfter {A} (m : Matrix A) nr nc :
  shape m = replicate nr nc -> shape (rowsAfter m) = replicate (nr - 1) nc.
Proof.
  intros H. unfold shape, rowsAfter in *.
  rewrite fmap_tail, H. apply shape_replicate_tail.
Qed.

Lemma fmap_removelast {A B} (f : A -> B) (l : list A) :
  f <$> removelast l = removelast (f <$> l).
Proof.
  induction l as [|x l IH]; [reflexivity|].
  destruct l; [reflexivity|]. cbn [removelast fmap list_fmap] in *. now rewrite IH.
Qed.

Lemma shape_rowsBefore {A} (m : Matrix A) nr nc :
  shape m = replicate nr nc -> shape (rowsBefore m) = replicate (nr - 1) nc.
Proof.
  intros H. unfold shape, rowsBefore in *.
  rewrite fmap_removelast, H. apply shape_replicate_removelast.
Qed.

Lemma shape_mzip {A B C} (f : A -> B -> C) (m1 : Matrix A) (m2 : Matrix B) nr nc :
  shape m1 = replicate nr nc -> shape m2 = replicate nr nc ->
  shape (mzip f m1 m2) = replicate nr nc.
Proof.
  unfold shape, mzip. revert m2 nr.
  induction m1 as [|r1 m1 IH]; intros [|r2 m2] [|nr]; simpl; try discriminate; auto.
  intros [= H1 H1'] [= H2 H2']. f_equal; [|eauto].
  rewrite length_zip_with. lia.
Qed.

Lemma shape_mmap_replicate {A B} (f : A -> B) (m : Matrix A) nr nc :
  shape m = replicate nr nc -> shape (mmap f m) = replicate nr nc.
Proof. intros H. now rewrite shape_mmap. Qed.

(** Solves the shape of an array expression over arrays of known shape. *)
Ltac shape_tac :=
  repeat first
    [ eassumption
    | apply shape_mzip
    | apply shape_mmap_replicate
    | apply shape_rowsBefore
    | apply shape_rowsAfter ].

Lemma shape_events ft nr nc :
  shape ft = replicate nr nc ->
  shape (addedOf ft) = replicate (nr - 1) nc /\
  shape (subtractedOf ft) = replicate (nr - 1) nc /\
  shape (transitionedOf ft) = replicate (nr - 1) nc.
Proof.
  intros H.
  unfold addedOf, subtractedOf, transitionedOf, filosOf, branchWithFiloOf,
    filosOf, filoExistsOf, branchesOf, justBranchesOf.
  repeat split; shape_tac.
Qed.

Section PositionFacts.

Variable worldDist : Location -> Location -> Q.
Variables excludeAxon excludeBasal : bool.
Variable filoDist : Q.

Lemma writesPositions_refl tree treeIdx s :
  writesPositions worldDist excludeAxon excludeBasal filoDist tree treeIdx s s.
Proof. intros t r v H. now left. Qed.

Lemma writesPositions_trans tree treeIdx s1 s2 s3 :
  writesPositions worldDist excludeAxon excludeBasal filoDist tree treeIdx s1 s2 ->
  writesPositions worldDist excludeAxon excludeBasal filoDist tree treeIdx s2 s3 ->
  writesPositions worldDist excludeAxon excludeBasal filoDist tree treeIdx s1 s3.
Proof.
  intros H12 H23 t r v H3.
  destruct (H23 t r v H3) as [H2|Hw]; [|now right].
  exact (H12 t r v H2).
Qed.

Lemma keeps_writesPositions fuel tree treeIdx branch :
  keeps (writesPositions worldDist excludeAxon excludeBasal filoDist tree treeIdx)
    (_calcFiloLengths worldDist fuel tree treeIdx branch
       excludeAxon excludeBasal filoDist).
Proof.
  revert branch. induction fuel as [|fuel IH]; intros branch s [] s' Hrun;
    [discriminate|].
  destruct (calcFiloLengths_final_write _ _ _ _ _ _ _ _ _ _ Hrun)
    as (b & v & s1 & Hb & Hv & Hs1 & Hset).
  apply (writesPositions_trans tree treeIdx s s1 s').
  - destruct Hs1 as [->|Hkids]; [apply writesPositions_refl|].
    revert Hkids. unfold recurseIntoChildren.
    apply (keeps_forM_ _ (writesPositions_refl tree treeIdx)
             (writesPositions_trans tree treeIdx)).
    intros point.
    apply (keeps_forM_ _ (writesPositions_refl tree treeIdx)
             (writesPositions_trans tree treeIdx)).
    intros child. apply IH.
  - destruct (setFiloLength_cell _ _ _ _ _ Hset) as [Hown Hother].
    intros t r v' Hc.
    destruct (decide ((t, r) = (treeIdx, branch))) as [[= -> ->]|Hne].
    + right. split; [reflexivity|]. exists b.
      rewrite Hown in Hc. injection Hc as <-. auto.
    + left. now rewrite <- (Hother t r Hne).
Qed.

Lemma writesPositionsOf_refl trees s :
  writesPositionsOf worldDist excludeAxon excludeBasal filoDist trees s s.
Proof. intros t r v H. now left. Qed.

Lemma writesPositionsOf_trans trees s1 s2 s3 :
  writesPositionsOf worldDist excludeAxon excludeBasal filoDist trees s1 s2 ->
  writesPositionsOf worldDist excludeAxon excludeBasal filoDist trees s2 s3 ->
  writesPositionsOf worldDist excludeAxon excludeBasal filoDist trees s1 s3.
Proof.
  intros H12 H23 t r v H3.
  destruct (H23 t r v H3) as [H2|Hw]; [|now right].
  exact (H12 t r v H2).
Qed.

Lemma keeps_lengthsOfTree fuel trees treeIdx tree :
  trees !! treeIdx = Some tree ->
  keeps (writesPositionsOf worldDist excludeAxon excludeBasal filoDist trees)
    (lengthsOfTree worldDist fuel excludeAxon excludeBasal filoDist (treeIdx, tree)).
Proof.
  intros Htree. unfold lengthsOfTree.
  destruct (rootPoint tree) as [root|]; [|apply keeps_raise].
  apply (keeps_forM_ _ (writesPositionsOf_refl trees) (writesPositionsOf_trans trees)).
  intros branch s a s' Hrun t r v Hc.
  destruct (keeps_writesPositions fuel tree treeIdx branch s a s' Hrun t r v Hc)
    as [Hold|(-> & b & Hb & Hv)]; [now left|].
  right. exists tree, b. auto.
Qed.

Lemma keeps_shape_lengthsOfTree fuel it :
  keeps sameShape
    (lengthsOfTree worldDist fuel excludeAxon excludeBasal filoDist it).
Proof.
  destruct it as [treeIdx tree]. unfold lengthsOfTree.
  destruct (rootPoint tree) as [root|]; [|apply keeps_raise].
  apply (keeps_forM_ _ sameShape_refl sameShape_trans).
  intros branch. apply keeps_calcFiloLengths.
Qed.

Lemma cell_full_NaN nr nc t r v :
  cell (full nr nc NaN) t r = Some v -> v = NaN.
Proof.
  unfold cell, full. intros H.
  destruct (replicate nr (replicate nc NaN) !! t) as [row|] eqn:Hrow; [|discriminate].
  apply lookup_replicate in Hrow as [-> _]. simpl in H.
  apply lookup_replicate in H as [-> _]. reflexivity.
Qed.

End PositionFacts.

(** * The global branch-identity index *)

Lemma In_insertID z x l : In z (insertID x l) <-> z = x \/ In z l.
Proof.
  induction l as [|y l IH]; simpl; [intuition congruence|].
  destruct (String.compare x y) eqn:E; simpl.
  - apply String.compare_eq_iff in E. subst y. intuition congruence.
  - intuition congruence.
  - rewrite IH. intuition congruence.
Qed.

Lemma sortedBranchIDList_In trees x :
  In x (sortedBranchIDList trees) <->
  exists tree b, In tree trees /\ In b (branches tree) /\ branch_id b = x.
Proof.
  unfold sortedBranchIDList.
  assert (H : forall l, In x (fold_right insertID [] l) <-> In x l).
  { induction l as [|y l IH]; simpl; [reflexivity|].
    rewrite In_insertID, IH. intuition congruence. }
  rewrite H, in_flat_map. split.
  - intros (tree & Htree & Hb). apply in_map_iff in Hb as (b & Hid & Hb). eauto.
  - intros (tree & b & Htree & Hb & Hid). exists tree. split; [exact Htree|].
    apply in_map_iff. eauto.
Qed.

Lemma idBefore_trans x y z : idBefore x y -> idBefore y z -> idBefore x z.
Proof.
  unfold idBefore. intros Hxy Hyz.
  apply String_as_OT.cmp_lt. apply String_as_OT.cmp_lt in Hxy, Hyz.
  eapply String_as_OT.lt_trans; eauto.
Qed.

Lemma insertID_sorted x l :
  StronglySorted idBefore l -> StronglySorted idBefore (insertID x l).
Proof.
  induction 1 as [|y l Hs IH Hall]; simpl.
  - repeat constructor.
  - destruct (String.compare x y) eqn:E.
    + now constructor.
    + constructor; [now constructor|].
      constructor; [exact E|].
      eapply Forall_impl; [exact Hall|].
      intros z Hz. eapply idBefore_trans; eauto.
    + constructor; [exact IH|].
      apply List.Forall_forall. intros z Hz. apply In_insertID in Hz as [->|Hz].
      * unfold idBefore. rewrite String.compare_antisym, E. reflexivity.
      * rewrite List.Forall_forall in Hall. apply Hall. exact Hz.
Qed.

(** The index is strictly increasing in the order of Python strings. *)
Lemma sortedBranchIDList_sorted trees :
  StronglySorted idBefore (sortedBranchIDList trees).
Proof.
  unfold sortedBranchIDList.
  induction (flat_map _ trees) as [|x l IH]; simpl.
  - constructor.
  - apply insertID_sorted, IH.
Qed.

Lemma sorted_ids_NoDup l : StronglySorted idBefore l -> List.NoDup l.
Proof.
  induction 1 as [|x l Hs IH Hall]; constructor; [|exact IH].
  intros Hin. rewrite List.Forall_forall in Hall. specialize (Hall x Hin).
  unfold idBefore in Hall. apply String_as_OT.cmp_lt in Hall.
  exact (String_as_OT.lt_not_eq _ _ Hall eq_refl).
Qed.

(** ... hence free of duplicates: one column per branch id. *)
Lemma sortedBranchIDList_NoDup trees : List.NoDup (sortedBranchIDList trees).
Proof. apply sorted_ids_NoDup, sortedBranchIDList_sorted. Qed.

Lemma list_index_lookup x l i : list_index x l = Ok i -> l !! i = Some x.
Proof.
  revert i. induction l as [|y l IH]; intros i; simpl; [discriminate|].
  destruct (String.eqb_spec y x) as [->|Hne].
  - intros [= <-]. reflexivity.
  - destruct (list_index x l); [|discriminate].
    intros [= <-]. simpl. now apply IH.
Qed.

Lemma list_index_In x l : In x l -> exists i, list_index x l = Ok i.
Proof.
  induction l as [|y l IH]; [intros []|]. simpl.
  destruct (String.eqb_spec y x) as [->|Hne]; [eauto|].
  intros [Heq|Hin]; [congruence|].
  destruct (IH Hin) as [i ->]. eauto.
Qed.

(** Every branch of every snapshot has a column. *)
Lemma branch_has_column trees tree b :
  In tree trees -> In b (branches tree) ->
  exists g, list_index (branch_id b) (sortedBranchIDList trees) = Ok g /\
            sortedBranchIDList trees !! g = Some (branch_id b).
Proof.
  intros Htree Hb.
  destruct (list_index_In (branch_id b) (sortedBranchIDList trees)) as [g Hg].
  { apply sortedBranchIDList_In. eauto. }
  exists g. split; [exact Hg|]. now apply list_index_lookup.
Qed.

(** * Each snapshot has its own row *)

Lemma setCell_other_row {A} (m m' : Matrix A) t b v t' :
  setCell m t b v = Ok m' -> t <> t' -> m' !! t' = m !! t'.
Proof.
  unfold setCell. destruct (m !! t) as [row|]; [|discriminate].
  destruct (b <? length row); [|discriminate].
  intros [= <-] Hne. now apply list_lookup_insert_ne.
Qed.

Lemma rowKept_refl t s : rowKept t s s.
Proof. split; reflexivity. Qed.

Lemma rowKept_trans t s1 s2 s3 : rowKept t s1 s2 -> rowKept t s2 s3 -> rowKept t s1 s3.
Proof. intros [H1 H2] [H3 H4]. split; congruence. Qed.

Lemma keeps_row_setFiloType t treeIdx b v :
  treeIdx <> t -> keeps (rowKept t) (setFiloType treeIdx b v).
Proof.
  intros Hne s a s'. unfold setFiloType.
  destruct (setCell (filoTypes s) treeIdx b v) as [m|] eqn:E; [|discriminate].
  intros [= _ <-]. split; simpl; [eapply setCell_other_row; eauto|reflexivity].
Qed.

Lemma keeps_row_getFiloType t treeIdx b : keeps (rowKept t) (getFiloType treeIdx b).
Proof.
  intros s a s'. unfold getFiloType.
  destruct (getCell (filoTypes s) treeIdx b); [|discriminate].
  intros [= _ <-]. apply rowKept_refl.
Qed.

Lemma keeps_row_setMasterNodes t treeIdx b l :
  treeIdx <> t -> keeps (rowKept t) (setMasterNodes treeIdx b l).
Proof.
  intros Hne s a s'. unfold setMasterNodes.
  destruct (setCell (masterNodes s) treeIdx b l) as [m|] eqn:E; [|discriminate].
  intros [= _ <-]. split; simpl; [reflexivity|eapply setCell_other_row; eauto].
Qed.

Section RowFacts.

Variable worldDist : Location -> Location -> Q.
Variable branchIDList : list string.
Variable trees : list Tree.
Variables excludeAxon excludeBasal : bool.
Variables terminalDist filoDist : Q.
Variable t : nat.

Lemma keeps_row_recursiveFiloTypes fuel treeIdx branchIdx :
  treeIdx <> t ->
  keeps (rowKept t)
    (_recursiveFiloTypes worldDist branchIDList trees excludeAxon excludeBasal
       terminalDist filoDist fuel treeIdx branchIdx).
Proof.
  intros Hne. revert branchIdx.
  induction fuel as [|fuel IH]; intros branchIdx; simpl; [apply keeps_raise|].
  unfold recursiveFiloTypes_body, walkPoint, classifyChild, downgradeTerminals, ownRole.
  repeat first
    [ apply (keeps_bind _ (rowKept_trans t)); [|intros ?]
    | apply (keeps_ret _ (rowKept_refl t))
    | apply (keeps_lift _ (rowKept_refl t))
    | apply keeps_row_setFiloType; exact Hne
    | apply keeps_row_getFiloType
    | apply keeps_row_setMasterNodes; exact Hne
    | apply (keeps_forM_ _ (rowKept_refl t) (rowKept_trans t)); intros ?
    | apply (keeps_foldM _ (rowKept_refl t) (rowKept_trans t)); intros ? ?
    | apply IH
    | match goal with
      | |- keeps _ (if ?c then _ else _) => destruct c
      | |- keeps _ (match ?c with _ => _ end) => destruct c
      | |- keeps _ (let '(_, _) := ?c in _) => destruct c
      end ].
Qed.

Lemma keeps_row_classifyTree fuel treeIdx tree :
  treeIdx <> t ->
  keeps (rowKept t)
    (classifyTree worldDist fuel branchIDList trees excludeAxon excludeBasal
       terminalDist filoDist (treeIdx, tree)).
Proof.
  intros Hne. unfold classifyTree.
  destruct (0 <? length (branches tree)); [|apply (keeps_ret _ (rowKept_refl t))].
  destruct (rootPoint tree); [|apply (keeps_ret _ (rowKept_refl t))].
  apply (keeps_forM_ _ (rowKept_refl t) (rowKept_trans t)). intros branch.
  apply (keeps_bind _ (rowKept_trans t)); [apply (keeps_lift _ (rowKept_refl t))|].
  intros b.
  apply (keeps_bind _ (rowKept_trans t)); [apply (keeps_lift _ (rowKept_refl t))|].
  intros branchIdx. now apply keeps_row_recursiveFiloTypes.
Qed.

End RowFacts.

(** The part of C8 that [addedSubtractedTransitioned] meets: whenever it
    returns, a snapshot without root point has its own row in the role
    matrix and in the master nodes, with the values they were allocated
    with. *)
Lemma rootless_tree_row_is_absent
    worldDist fuel trees excludeAxon excludeBasal terminalDist filoDist out t tree :
  addedSubtractedTransitioned worldDist fuel trees excludeAxon excludeBasal
    terminalDist filoDist = Ok out ->
  trees !! t = Some tree ->
  rootPoint tree = None ->
  out_filoTypes out !! t =
    Some (replicate (length (sortedBranchIDList trees)) ABSENT) /\
  out_masterNodes out !! t =
    Some (replicate (length (sortedBranchIDList trees)) []).
Proof.
  unfold addedSubtractedTransitioned. intros H Ht Hroot.
  destruct (length trees =? 0); [discriminate|].
  destruct (forM_ _ _ _) as [[[] s]|] eqn:Hrun; [|discriminate].
  destruct (fillMasterChanged _ _) as [[[] mc]|]; [|discriminate].
  injection H as <-. cbn [out_filoTypes out_masterNodes].
  assert (Hk : keeps (rowKept t)
            (forM_ (enumerate trees)
               (classifyTree worldDist fuel (sortedBranchIDList trees) trees
                  excludeAxon excludeBasal terminalDist filoDist))).
  { apply (keeps_forM_In _ (rowKept_refl t) (rowKept_trans t)).
    intros [i tree'] Hin. destruct (decide (i = t)) as [->|Hne].
    - apply enumerate_lookup in Hin. rewrite Ht in Hin. injection Hin as <-.
      intros s0 a s0'.
      rewrite (classifyTree_skips_rootless_tree _ _ _ _ _ _ _ _ _ _ _ Hroot).
      intros [= _ <-]. apply rowKept_refl.
    - now apply keeps_row_classifyTree. }
  destruct (Hk _ _ _ Hrun) as [Hft Hmn]. cbn [filoTypes masterNodes] in Hft, Hmn.
  rewrite Hft, Hmn. unfold emptyArrayMatrix, full.
  apply lookup_lt_Some in Ht.
  rewrite !lookup_replicate_2 by exact Ht. auto.
Qed.

(** * _calcFiloLengths returns on well-formed snapshots *)

Lemma lastPointWithLabel_from_Some i lastPointIdx (ps : list Point) label :
  exists j, lastPointWithLabel_from i lastPointIdx (map Some ps) label = Ok j.
Proof.
  revert i lastPointIdx. induction ps as [|p ps IH]; intros i lastPointIdx; simpl; eauto.
Qed.

Lemma lastPointWithLabel_with_parent parent (ps : list Point) label :
  is_Some parent ->
  exists j, _lastPointWithLabel (parent :: map Some ps) label = Ok j.
Proof.
  intros [p ->]. unfold _lastPointWithLabel. simpl.
  apply lastPointWithLabel_from_Some.
Qed.

Lemma excludedBy_total {S} exclude parent (ps : list Point) label (s : S) :
  is_Some parent ->
  exists c, excludedBy exclude (parent :: map Some ps) label s = Ok (c, s).
Proof.
  intros Hp. unfold excludedBy. destruct exclude; [|eexists; reflexivity].
  destruct (lastPointWithLabel_with_parent parent ps label Hp) as [j Hj].
  unfold bind, lift, ret. rewrite Hj. eauto.
Qed.

Lemma setFiloLength_total t b v s nr nc :
  shape s = replicate nr nc -> t < nr -> b < nc ->
  exists s', setFiloLength t b v s = Ok (tt, s') /\ shape s' = replicate nr nc.
Proof.
  intros Hs Ht Hb. unfold setFiloLength.
  destruct (setCell_in_range s t b v) as [m Hm].
  { eapply cell_in_shape; eauto. }
  rewrite Hm. exists m. split; [reflexivity|].
  now rewrite (setCell_shape _ _ _ _ _ Hm).
Qed.

Lemma forM_total {S A} (P : S -> Prop) (l : list A) (body : A -> M S unit) :
  (forall x s, In x l -> P s -> exists s', body x s = Ok (tt, s') /\ P s') ->
  forall s, P s -> exists s', forM_ l body s = Ok (tt, s') /\ P s'.
Proof.
  induction l as [|x l IH]; intros Hb s Hs; simpl.
  - exists s. split; [reflexivity|exact Hs].
  - destruct (Hb x s (or_introl eq_refl) Hs) as (s1 & Hx & Hs1).
    unfold bind. rewrite Hx.
    apply IH; [|exact Hs1]. intros y s0 Hy. apply Hb. now right.
Qed.

(** With more fuel than the rank of the branch, and an array that has the
    branch's row and a column for every branch of the tree, the traversal
    returns. *)
Lemma calcFiloLengths_returns
    worldDist rank tree treeIdx excludeAxon excludeBasal filoDist nr nc :
  wellFormedBy rank tree ->
  treeIdx < nr ->
  length (branches tree) <= nc ->
  forall fuel branch s,
    rank branch < fuel ->
    branch < length (branches tree) ->
    shape s = replicate nr nc ->
    exists s',
      _calcFiloLengths worldDist fuel tree treeIdx branch
        excludeAxon excludeBasal filoDist s = Ok (tt, s') /\
      shape s' = replicate nr nc.
Proof.
  intros Hwf Ht Hnc. induction fuel as [|fuel IH]; intros branch s Hrank Hlt Hs; [lia|].
  cbn [_calcFiloLengths]. unfold calcFiloLengths_body.
  destruct (lookup_lt_is_Some_2 _ _ Hlt) as [b Hb].
  destruct (Hwf branch b Hb) as [Hparent Hkids].
  unfold bind at 1, lift at 1, branchAt. rewrite Hb.
  unfold bind at 1, lift at 1, indexInParent.
  rewrite (proj2 (Nat.ltb_lt _ _) Hlt).
  assert (Hset : forall v s0, shape s0 = replicate nr nc ->
            exists s', setFiloLength treeIdx branch v s0 = Ok (tt, s') /\
                       shape s' = replicate nr nc).
  { intros v s0 Hs0. apply setFiloLength_total; auto with lia. }
  destruct (length (parentPoint b :: map Some (points b)) <? 2); [now apply Hset|].
  destruct (excludedBy_total excludeAxon (parentPoint b) (points b) "axon" s Hparent)
    as [axon Hax].
  unfold bind at 1. rewrite Hax. destruct axon; [now apply Hset|].
  destruct (excludedBy_total excludeBasal (parentPoint b) (points b) "basal" s Hparent)
    as [basal Hbas].
  unfold bind at 1. rewrite Hbas. destruct basal; [now apply Hset|].
  destruct (isFilo worldDist b filoDist) as [[|] len]; [now apply Hset|].
  destruct (worldLengths worldDist b) as [total toLast].
  destruct (forM_total (fun s0 => shape s0 = replicate nr nc) (points b)
              (fun point =>
                 forM_ (children point) (fun childBranch =>
                   _calcFiloLengths worldDist fuel tree treeIdx childBranch
                     excludeAxon excludeBasal filoDist))) with (s := s)
    as (s1 & Hloop & Hs1); [|exact Hs|].
  - intros p s0 Hp Hs0.
    apply (forM_total (fun s0 => shape s0 = replicate nr nc)); [|exact Hs0].
    intros c s2 Hc Hs2. destruct (Hkids p c Hp Hc) as [Hcl Hcr].
    apply IH; auto with lia.
  - unfold bind. rewrite Hloop. now apply Hset.
Qed.

(** Step 5 on a well-formed snapshot: the recursion into the children of a
    branch returns once the fuel exceeds the rank of every child. *)
Lemma recurseIntoChildren_returns
    worldDist rank tree treeIdx excludeAxon excludeBasal filoDist nr nc
    fuel branch b s :
  wellFormedBy rank tree ->
  treeIdx < nr ->
  length (branches tree) <= nc ->
  branches tree !! branch = Some b ->
  rank branch <= fuel ->
  shape s = replicate nr nc ->
  exists s1,
    recurseIntoChildren worldDist fuel tree treeIdx b
      excludeAxon excludeBasal filoDist s = Ok (tt, s1) /\
    is_Some (cell s1 treeIdx branch).
Proof.
  intros Hwf Ht Hnc Hb Hrank Hs.
  destruct (Hwf branch b Hb) as [_ Hkids].
  destruct (forM_total (fun s0 => shape s0 = replicate nr nc) (points b)
              (fun point =>
                 forM_ (children point) (fun childBranch =>
                   _calcFiloLengths worldDist fuel tree treeIdx childBranch
                     excludeAxon excludeBasal filoDist))) with (s := s)
    as (s1 & Hloop & Hs1); [|exact Hs|].
  - intros p s0 Hp Hs0.
    apply (forM_total (fun s0 => shape s0 = replicate nr nc)); [|exact Hs0].
    intros c s2 Hc Hs2. destruct (Hkids p c Hp Hc) as [Hcl Hcr].
    eapply calcFiloLengths_returns; eauto with lia.
  - exists s1. split; [exact Hloop|].
    eapply cell_in_shape; [exact Hs1|].
    apply lookup_lt_Some in Hb. lia.
Qed.

(** On a well-formed snapshot a branch that reaches step 6 gets its own
    contribution written, for every array with a cell for it. *)
Lemma calcFiloLengths_own_contribution_on_forest
    worldDist rank tree treeIdx excludeAxon excludeBasal filoDist nr nc
    fuel branch b s :
  wellFormedBy rank tree ->
  treeIdx < nr ->
  length (branches tree) <= nc ->
  branches tree !! branch = Some b ->
  rank branch <= fuel ->
  shape s = replicate nr nc ->
  1 <= length (points b) ->
  notExcluded excludeAxon (pointsWithParent b) "axon" ->
  notExcluded excludeBasal (pointsWithParent b) "basal" ->
  fst (isFilo worldDist b filoDist) = false ->
  exists s',
    _calcFiloLengths worldDist (S fuel) tree treeIdx branch
      excludeAxon excludeBasal filoDist s = Ok (tt, s') /\
    getCell s' treeIdx branch =
      Ok (Fin (ownFiloLength filoDist (fst (worldLengths worldDist b))
                 (snd (worldLengths worldDist b)))).
Proof.
  intros Hwf Ht Hnc Hb Hrank Hs Hne Hax Hbas Hfilo.
  destruct (recurseIntoChildren_returns worldDist rank tree treeIdx
              excludeAxon excludeBasal filoDist nr nc fuel branch b s
              Hwf Ht Hnc Hb Hrank Hs) as (s1 & Hkids & Hcell).
  eapply calcFiloLengths_own_contribution; eauto.
  unfold branchAt. now rewrite Hb.
Qed.

(** * Computations that return *)

Section Returns.

Context {St : Type} (P : St -> Prop).

Lemma returns_ret {A} (Q : A -> Prop) (a : A) : Q a -> returns P Q (ret a).
Proof. intros Ha s Hs. exists a, s. auto. Qed.

Lemma returns_lift {A} (Q : A -> Prop) (r : Result A) (a : A) :
  r = Ok a -> Q a -> returns P Q (lift r).
Proof. intros -> Ha s Hs. exists a, s. auto. Qed.

Lemma returns_bind {A B} (Q1 : A -> Prop) (Q : B -> Prop) (m : M St A) (k : A -> M St B) :
  returns P Q1 m -> (forall a, Q1 a -> returns P Q (k a)) -> returns P Q (bind m k).
Proof.
  intros Hm Hk s Hs. destruct (Hm s Hs) as (a & s1 & Hrun & Hs1 & Ha).
  unfold bind. rewrite Hrun. exact (Hk a Ha s1 Hs1).
Qed.

Lemma returns_forM_ {A} (l : list A) (body : A -> M St unit) :
  (forall x, In x l -> returns P (fun _ => True) (body x)) ->
  returns P (fun _ => True) (forM_ l body).
Proof.
  induction l as [|x l IH]; intros Hb; simpl.
  - now apply returns_ret.
  - apply (returns_bind (fun _ => True)); [apply Hb; now left|].
    intros _ _. apply IH. intros y Hy. apply Hb. now right.
Qed.

Lemma returns_foldM {A B} (l : list A) (acc : B) (body : B -> A -> M St B) :
  (forall acc x, In x l -> returns P (fun _ => True) (body acc x)) ->
  returns P (fun _ => True) (foldM l acc body).
Proof.
  revert acc. induction l as [|x l IH]; intros acc Hb; simpl.
  - now apply returns_ret.
  - apply (returns_bind (fun _ => True)); [apply Hb; now left|].
    intros acc' _. apply IH. intros acc0 y Hy. apply Hb. now right.
Qed.

End Returns.

Lemma foldM_app {St A B} (l1 l2 : list A) (acc : B) (body : B -> A -> M St B) s :
  foldM (l1 ++ l2) acc body s =
    match foldM l1 acc body s with
    | Ok (acc1, s1) => foldM l2 acc1 body s1
    | Raise e => Raise e
    end.
Proof.
  revert acc s. induction l1 as [|x l1 IH]; intros acc s; simpl; [reflexivity|].
  unfold bind. destruct (body acc x s) as [[acc' s']|]; [apply IH|reflexivity].
Qed.

Lemma zip_seq_snoc {A} (l : list A) (x : A) k :
  zip (seq k (length (l ++ [x]))) (l ++ [x])
  = zip (seq k (length l)) l ++ [(k + length l, x)].
Proof.
  revert k. induction l as [|y l IH]; intros k; simpl.
  - now rewrite Nat.add_0_r.
  - rewrite IH. now rewrite Nat.add_succ_r.
Qed.

Lemma enumerate_snoc {A} (l : list A) (x : A) :
  enumerate (l ++ [x]) = enumerate l ++ [(length l, x)].
Proof. unfold enumerate. now rewrite zip_seq_snoc. Qed.

Lemma In_take {A} (l : list A) n x : In x (take n l) -> In x l.
Proof.
  revert n. induction l as [|y l IH]; intros [|n]; simpl; try tauto.
  intros [->|H]; [now left|right; eauto].
Qed.

(** * Lookups *)

Lemma find_first_match {A} (p : A -> bool) (l : list A) :
  match List.find p l with
  | Some x =>
      exists i, l !! i = Some x /\ p x = true /\
        forall j y, j < i -> l !! j = Some y -> p y = false
  | None => forall y, In y l -> p y = false
  end.
Proof.
  induction l as [|a l IH]; simpl.
  - intros y [].
  - destruct (p a) eqn:Ha.
    + exists 0. split; [reflexivity|]. split; [exact Ha|]. intros j y Hj. lia.
    + destruct (List.find p l) as [x|].
      * destruct IH as (i & Hi & Hx & Hbefore).
        exists (S i). split; [exact Hi|]. split; [exact Hx|].
        intros [|j] y Hj Hy.
        -- injection Hy as <-. exact Ha.
        -- eapply Hbefore; [|exact Hy]. lia.
      * intros y [<-|Hy]; [exact Ha|now apply IH].
Qed.

Lemma list_index_lt x l i : list_index x l = Ok i -> i < length l.
Proof. intros H. eapply lookup_lt_Some, list_index_lookup, H. Qed.

Lemma list_contains_index x l :
  list_contains x l = true -> exists i, list_index x l = Ok i.
Proof.
  unfold list_contains. intros H. apply existsb_exists in H as (y & Hy & E).
  apply String.eqb_eq in E. subst y. now apply list_index_In.
Qed.

(** With distinct ids, the lookup by id finds the branch of every position. *)
Lemma getBranchByID_at tree r b :
  distinctIDs tree -> branches tree !! r = Some b ->
  getBranchByID tree (branch_id b) = Some b.
Proof.
  intros Hids Hb. unfold getBranchByID.
  pose proof (find_first_match (fun b' => String.eqb (branch_id b') (branch_id b))
                (branches tree)) as H.
  destruct (List.find _ (branches tree)) as [b'|].
  - destruct H as (i & Hi & Hid & _). apply String.eqb_eq in Hid.
    rewrite (Hids i r b' b Hi Hb Hid) in Hi. congruence.
  - assert (Hin : In b (branches tree)).
    { eapply list_elem_of_In, list_elem_of_lookup_2; eauto. }
    specialize (H b Hin). simpl in H. now rewrite String.eqb_refl in H.
Qed.

Lemma indexesInParent_valid tree (l : list nat) :
  (forall c, In c l -> c < length (branches tree)) ->
  indexesInParent tree l = Ok l.
Proof.
  induction l as [|c l IH]; intros H; simpl; [reflexivity|].
  unfold indexInParent.
  destruct (Nat.ltb_spec c (length (branches tree))) as [_|Hge].
  - rewrite IH; [reflexivity|]. intros c' Hc'. apply H. now right.
  - specialize (H c (or_introl eq_refl)). lia.
Qed.

Lemma length_cumulativeFrom worldDist prev acc ps :
  length (cumulativeFrom worldDist prev acc ps) = length ps.
Proof.
  revert prev acc. induction ps as [|p ps IH]; intros prev acc; simpl;
    [reflexivity|now rewrite IH].
Qed.

Lemma last_point_of_nonempty (ps : list Point) :
  ps <> [] -> exists p, List.last (map Some ps) None = Some p /\ In p ps.
Proof.
  induction ps as [|p ps IH]; [congruence|]. intros _.
  destruct ps as [|q ps].
  - exists p. split; [reflexivity|now left].
  - destruct IH as (r & Hr & Hin); [discriminate|].
    exists r. split; [exact Hr|now right].
Qed.

(** * The accumulators of the classifier *)

Lemma returns_setFiloType nr nc t b v :
  t < nr -> b < nc ->
  returns (arraysFit nr nc) (fun _ => True) (setFiloType t b v).
Proof.
  intros Ht Hb s [Hf Hm].
  destruct (setFiloType_in_range t b v s) as (s' & Hset & _ & Hsh & Hmn).
  { eapply cell_in_shape; eauto. }
  exists tt, s'. split; [exact Hset|]. split; [|exact I].
  split; congruence.
Qed.

Lemma returns_setMasterNodes nr nc t b l :
  t < nr -> b < nc ->
  returns (arraysFit nr nc) (fun _ => True) (setMasterNodes t b l).
Proof.
  intros Ht Hb s [Hf Hm].
  destruct (setMasterNodes_in_range t b l s) as (s' & Hset & _ & Hft).
  { eapply cell_in_shape; eauto. }
  exists tt, s'. split; [exact Hset|]. split; [|exact I].
  destruct (keeps_setMasterNodes t b l s tt s' Hset) as [H1 H2].
  split; congruence.
Qed.

Lemma returns_getFiloType nr nc t b :
  t < nr -> b < nc ->
  returns (arraysFit nr nc) (fun _ => True) (getFiloType t b).
Proof.
  intros Ht Hb s [Hf Hm]. unfold getFiloType.
  destruct (proj2 (cell_in_shape _ _ _ t b Hf)) as [v Hv]; [lia|].
  apply getCell_Ok in Hv. rewrite Hv.
  exists v, s. split; [reflexivity|]. split; [split; assumption|exact I].
Qed.

Lemma onlyCell_refl t b s : onlyCell t b s s.
Proof. intros t' b'. right. split; reflexivity. Qed.

Lemma onlyCell_trans t b s1 s2 s3 :
  onlyCell t b s1 s2 -> onlyCell t b s2 s3 -> onlyCell t b s1 s3.
Proof.
  intros H12 H23 t' b'.
  destruct (H12 t' b') as [E|[H1 H1']]; [now left|].
  destruct (H23 t' b') as [E|[H2 H2']]; [now left|].
  right. split; congruence.
Qed.

Lemma keeps_cell_setFiloType t b v : keeps (onlyCell t b) (setFiloType t b v).
Proof.
  intros s a s'. unfold setFiloType.
  destruct (setCell (filoTypes s) t b v) as [m|] eqn:E; [|discriminate].
  intros [= _ <-] t' b'. simpl.
  destruct (decide (t' = t)) as [->|Ht]; [destruct (decide (b' = b)) as [->|Hb]|].
  - now left.
  - right. split; [|reflexivity].
    eapply setCell_cell_other; [exact E|congruence].
  - right. split; [|reflexivity].
    eapply setCell_cell_other; [exact E|congruence].
Qed.

Lemma keeps_cell_setMasterNodes t b l : keeps (onlyCell t b) (setMasterNodes t b l).
Proof.
  intros s a s'. unfold setMasterNodes.
  destruct (setCell (masterNodes s) t b l) as [m|] eqn:E; [|discriminate].
  intros [= _ <-] t' b'. simpl.
  destruct (decide (t' = t)) as [->|Ht]; [destruct (decide (b' = b)) as [->|Hb]|].
  - now left.
  - right. split; [reflexivity|].
    eapply setCell_cell_other; [exact E|congruence].
  - right. split; [reflexivity|].
    eapply setCell_cell_other; [exact E|congruence].
Qed.

(** [ownRole] writes the cell of its own branch and no other. *)
Lemma keeps_cell_ownRole filoDist tree treeIdx branchIdx branch
    totalLength totalLengthToLastBranch forceInterstitial :
  keeps (onlyCell treeIdx branchIdx)
    (ownRole filoDist tree treeIdx branchIdx branch
       totalLength totalLengthToLastBranch forceInterstitial).
Proof.
  unfold ownRole.
  repeat match goal with
  | |- keeps _ (bind _ _) =>
      apply (keeps_bind _ (onlyCell_trans treeIdx branchIdx)); [|intros ?]
  | |- keeps _ (ret _) => apply (keeps_ret _ (onlyCell_refl treeIdx branchIdx))
  | |- keeps _ (lift _) => apply (keeps_lift _ (onlyCell_refl treeIdx branchIdx))
  | |- keeps _ (setFiloType _ _ _) => apply keeps_cell_setFiloType
  | |- keeps _ (setMasterNodes _ _ _) => apply keeps_cell_setMasterNodes
  | |- keeps _ (if ?c then _ else _) => destruct c
  | |- keeps _ (match ?c with _ => _ end) => destruct c
  end.
Qed.

(** * The classifier returns on a well-formed snapshot *)

Section ClassifierReturns.

Variable worldDist : Location -> Location -> Q.
Variable branchIDList : list string.
Variable trees : list Tree.
Variables excludeAxon excludeBasal : bool.
Variables terminalDist filoDist : Q.
Variable rank : nat -> nat.
Variable tree : Tree.
Variables treeIdx nr nc : nat.

Hypothesis tree_at : trees !! treeIdx = Some tree.
Hypothesis wf : wellFormedBy rank tree.
Hypothesis ids : distinctIDs tree.
Hypothesis row_in : treeIdx < nr.
Hypothesis cols_ids : length branchIDList <= nc.
Hypothesis cols_pos : length (branches tree) <= nc.

Section Walk.

Variable recurse : nat -> M FTState unit.
Variable r : nat.
Variable branch : Branch.
Variable branchIdx : nat.

Hypothesis branch_at : branches tree !! r = Some branch.
Hypothesis branchIdx_in : branchIdx < length branchIDList.
Hypothesis recurse_returns :
  forall c child childIdx,
    branches tree !! c = Some child -> rank c < rank r ->
    list_index (branch_id child) branchIDList = Ok childIdx ->
    returns (arraysFit nr nc) (fun _ => True) (recurse childIdx).

Lemma child_of_branch point c :
  In point (points branch) -> In c (children point) ->
  c < length (branches tree) /\ rank c < rank r.
Proof. intros Hp Hc. destruct (wf r branch branch_at) as [_ H]. eauto. Qed.

Lemma classifyChild_returns totalLength pointIdx point force c :
  In point (points branch) -> In c (children point) ->
  pointIdx < length (points branch) ->
  returns (arraysFit nr nc) (fun _ => True)
    (classifyChild worldDist branchIDList terminalDist filoDist recurse tree
       treeIdx branchIdx branch totalLength
       (cumulativeWorldLengths worldDist branch) pointIdx point force c).
Proof.
  intros Hp Hc Hi.
  destruct (child_of_branch point c Hp Hc) as [Hlt Hrank].
  destruct (lookup_lt_is_Some_2 (branches tree) c Hlt) as [child Hchild].
  unfold classifyChild.
  apply (returns_bind _ (fun x => x = child)).
  { apply returns_lift with child; [|reflexivity].
    unfold branchAt. now rewrite Hchild. }
  intros ? ->.
  destruct (length (points child) <? 1); [now apply returns_ret|].
  destruct (list_contains (branch_id child) branchIDList) eqn:Hknown;
    [|now apply returns_ret].
  cbn [negb].
  destruct (list_contains_index _ _ Hknown) as [childIdx Hidx].
  pose proof (list_index_lt _ _ _ Hidx) as HidxLt.
  apply (returns_bind _ (fun x => x = childIdx)).
  { now apply returns_lift with childIdx. }
  intros ? ->.
  destruct (isFilo worldDist child filoDist) as [[|] childLength].
  - destruct (lookup_lt_is_Some_2 (cumulativeWorldLengths worldDist branch) pointIdx)
      as [cumAtPoint Hcum].
    { unfold cumulativeWorldLengths. now rewrite length_cumulativeFrom. }
    apply (returns_bind _ (fun _ => True)).
    { apply returns_lift with cumAtPoint; [|exact I].
      unfold list_get. now rewrite Hcum. }
    intros ? _.
    apply (returns_bind _ (fun _ => True));
      [apply returns_setFiloType; [exact row_in|lia]|].
    intros _ _.
    destruct ((length (children point) =? 1)
              && (Z.of_nat pointIdx =? Z.of_nat (length (points branch)) - 1)%Z);
      [|now apply returns_ret].
    apply (returns_bind _ (fun _ => True));
      [apply returns_setFiloType; [exact row_in|lia]|].
    intros _ _.
    apply (returns_bind _ (fun _ => True));
      [apply returns_setMasterNodes; [exact row_in|lia]|].
    intros _ _. now apply returns_ret.
  - apply (returns_bind _ (fun _ => True)).
    { exact (recurse_returns c child childIdx Hchild Hrank Hidx). }
    intros _ _. now apply returns_ret.
Qed.

Lemma downgradeTerminals_returns pointIdx :
  returns (arraysFit nr nc) (fun _ => True)
    (downgradeTerminals tree treeIdx branch pointIdx).
Proof.
  unfold downgradeTerminals.
  apply returns_forM_. intros prevPoint Hprev. apply In_take in Hprev.
  apply returns_forM_. intros c Hc.
  destruct (child_of_branch prevPoint c Hprev Hc) as [Hlt _].
  apply (returns_bind _ (fun x => x = c)).
  { apply returns_lift with c; [|reflexivity].
    unfold indexInParent.
    destruct (Nat.ltb_spec c (length (branches tree))); [reflexivity|lia]. }
  intros ? ->.
  apply (returns_bind _ (fun _ => True));
    [apply returns_getFiloType; [exact row_in|lia]|].
  intros ft _.
  destruct (ft_eq ft TERMINAL); [|now apply returns_ret].
  apply returns_setFiloType; [exact row_in|lia].
Qed.

Lemma walkPoint_returns totalLength force ip :
  In ip (enumerate (points branch)) ->
  returns (arraysFit nr nc) (fun _ => True)
    (walkPoint worldDist branchIDList terminalDist filoDist recurse tree
       treeIdx branchIdx branch totalLength
       (cumulativeWorldLengths worldDist branch) force ip).
Proof.
  destruct ip as [pointIdx point]. intros Hin.
  pose proof (enumerate_lookup _ _ _ Hin) as Hat.
  assert (Hp : In point (points branch)).
  { eapply list_elem_of_In, list_elem_of_lookup_2; eauto. }
  pose proof (lookup_lt_Some _ _ _ Hat) as Hlt.
  unfold walkPoint.
  destruct (length (children point) =? 0); [now apply returns_ret|].
  apply (returns_bind _ (fun _ => True)).
  { apply returns_foldM. intros acc c Hc. now apply classifyChild_returns. }
  intros force' _.
  apply (returns_bind _ (fun _ => True)).
  { destruct force'; [apply downgradeTerminals_returns|now apply returns_ret]. }
  intros _ _. now apply returns_ret.
Qed.

Lemma ownRole_returns totalLength totalLengthToLastBranch force :
  points branch <> [] ->
  returns (arraysFit nr nc) (fun _ => True)
    (ownRole filoDist tree treeIdx branchIdx branch
       totalLength totalLengthToLastBranch force).
Proof.
  intros Hne. unfold ownRole.
  assert (Hkids : forall p, In p (points branch) ->
            indexesInParent tree (children p) = Ok (children p)).
  { intros p Hp. apply indexesInParent_valid. intros c Hc.
    now destruct (child_of_branch p c Hp Hc). }
  destruct (Qltb 0 (totalLength - totalLengthToLastBranch)
            && Qltb (totalLength - totalLengthToLastBranch) filoDist).
  - apply (returns_bind _ (fun _ => True));
      [apply returns_setFiloType; [exact row_in|lia]|].
    intros _ _. unfold lastPointWithChildren.
    destruct (List.find _ (rev (points branch))) as [p|] eqn:E;
      [|now apply returns_ret].
    apply find_some in E as [Hin _]. apply in_rev in Hin.
    apply (returns_bind _ (fun _ => True)).
    { apply returns_lift with (children p); [now apply Hkids|exact I]. }
    intros l _. apply returns_setMasterNodes; [exact row_in|lia].
  - destruct (Qeq_bool (totalLength - totalLengthToLastBranch) 0).
    + apply (returns_bind _ (fun _ => True));
        [apply returns_setFiloType; [exact row_in|lia]|].
      intros _ _.
      destruct (last_point_of_nonempty (points branch) Hne) as (p & Hlast & Hin).
      apply (returns_bind _ (fun x => x = p)).
      { apply returns_lift with p; [now rewrite Hlast|reflexivity]. }
      intros ? ->.
      apply (returns_bind _ (fun _ => True)).
      { apply returns_lift with (children p); [now apply Hkids|exact I]. }
      intros l _. apply returns_setMasterNodes; [exact row_in|lia].
    + apply (returns_bind _ (fun _ => True));
        [apply returns_setFiloType; [exact row_in|lia]|].
      intros _ _. apply returns_setMasterNodes; [exact row_in|lia].
Qed.

End Walk.

(** With more recursion depth than the rank of the branch, the classifier
    returns and leaves both accumulators in their shape. *)
Lemma recursiveFiloTypes_returns fuel : forall branchIdx,
  0 < fuel ->
  branchIdx < length branchIDList ->
  (forall r b, branches tree !! r = Some b ->
     branchIDList !! branchIdx = Some (branch_id b) -> rank r < fuel) ->
  returns (arraysFit nr nc) (fun _ => True)
    (_recursiveFiloTypes worldDist branchIDList trees excludeAxon excludeBasal
       terminalDist filoDist fuel treeIdx branchIdx).
Proof.
  induction fuel as [|fuel IH]; intros branchIdx Hpos Hidx Hrank; [lia|].
  cbn [_recursiveFiloTypes]. unfold recursiveFiloTypes_body.
  apply (returns_bind _ (fun x => x = tree)).
  { apply returns_lift with tree; [|reflexivity].
    unfold list_get. now rewrite tree_at. }
  intros ? ->.
  destruct (lookup_lt_is_Some_2 branchIDList branchIdx Hidx) as [branchID HbranchID].
  apply (returns_bind _ (fun x => x = branchID)).
  { apply returns_lift with branchID; [|reflexivity].
    unfold list_get. now rewrite HbranchID. }
  intros ? ->.
  destruct (getBranchByID tree branchID) as [branch|] eqn:Hfound;
    [|apply returns_setFiloType; [exact row_in|lia]].
  unfold getBranchByID in Hfound. apply find_some in Hfound as [Hin Hid].
  apply String.eqb_eq in Hid.
  apply list_elem_of_In, list_elem_of_lookup in Hin as [r Hr].
  assert (Hfuel : rank r < S fuel) by (apply (Hrank r branch Hr); congruence).
  destruct (isEmpty branch || excludeAxon && isAxon branch
            || excludeBasal && isBasal branch) eqn:Hex;
    [apply returns_setFiloType; [exact row_in|lia]|].
  destruct (negb (hasChildren branch)
            && (0 <=? lastPointWithLabelIdx (pointsWithRoot branch) "lam")%Z);
    [apply returns_setFiloType; [exact row_in|lia]|].
  destruct (worldLengths worldDist branch) as [totalLength totalLengthToLastBranch].
  assert (Hrec : forall c child childIdx,
            branches tree !! c = Some child -> rank c < rank r ->
            list_index (branch_id child) branchIDList = Ok childIdx ->
            returns (arraysFit nr nc) (fun _ => True)
              (_recursiveFiloTypes worldDist branchIDList trees excludeAxon
                 excludeBasal terminalDist filoDist fuel treeIdx childIdx)).
  { intros c child childIdx Hchild Hlt Hcidx. apply IH.
    - lia.
    - eapply list_index_lt; eauto.
    - intros r' b' Hr' Hid'. apply list_index_lookup in Hcidx.
      assert (E : r' = c) by (eapply ids; eauto; congruence).
      subst r'. lia. }
  apply (returns_bind _ (fun _ => True)).
  { apply returns_foldM. intros acc ip Hip.
    eapply walkPoint_returns; eauto. }
  intros force _.
  eapply ownRole_returns; eauto.
  intros Hnil. unfold isEmpty in Hex. rewrite Hnil in Hex. discriminate.
Qed.

End ClassifierReturns.

(** * The filopodium at the tip of a branch *)

(** C6: when a child branch that passes the filopodium test is the only
    child at the last point of its parent branch, the classifier, called for
    the parent branch on a well-formed snapshot, returns with the child's
    role overridden to BRANCH_ONLY and with the singleton of the parent
    branch's index as the child's master nodes. *)
Theorem branch_tip_filopodium_is_branch_only
    worldDist branchIDList trees excludeAxon excludeBasal terminalDist filoDist
    rank tree treeIdx nr nc fuel r branch branchIdx init point childBranch child
    childIdx s :
  trees !! treeIdx = Some tree ->
  wellFormedBy rank tree ->
  distinctIDs tree ->
  treeIdx < nr ->
  length branchIDList <= nc ->
  length (branches tree) <= nc ->
  arraysFit nr nc s ->
  branches tree !! r = Some branch ->
  branchIDList !! branchIdx = Some (branch_id branch) ->
  rank r < fuel ->
  excludeAxon && isAxon branch = false ->
  excludeBasal && isBasal branch = false ->
  points branch = init ++ [point] ->
  children point = [childBranch] ->
  branches tree !! childBranch = Some child ->
  fst (isFilo worldDist child filoDist) = true ->
  list_index (branch_id child) branchIDList = Ok childIdx ->
  exists s',
    _recursiveFiloTypes worldDist branchIDList trees excludeAxon excludeBasal
      terminalDist filoDist fuel treeIdx branchIdx s = Ok (tt, s') /\
    getCell (filoTypes s') treeIdx childIdx = Ok BRANCH_ONLY /\
    getCell (masterNodes s') treeIdx childIdx = Ok [branchIdx].
Proof.
  intros Htree Hwf Hids Hrow Hcid Hcpos Hfit Hr Hid Hrank Hax Hbas Hpts Hkids
    Hchild Hfilo Hcidx.
  destruct fuel as [|fuel]; [lia|].
  assert (Hbidx : branchIdx < length branchIDList) by (eapply lookup_lt_Some; eauto).
  assert (Hpoint : In point (points branch)).
  { rewrite Hpts. apply in_or_app. right. now left. }
  assert (Hc : In childBranch (children point)) by (rewrite Hkids; now left).
  destruct (Hwf r branch Hr) as [_ Hwfkids].
  destruct (Hwfkids point childBranch Hpoint Hc) as [Hclt Hcrank].
  pose proof (list_index_lt _ _ _ Hcidx) as Hcidx_lt.
  assert (Hne : childIdx <> branchIdx).
  { intros ->. pose proof (list_index_lookup _ _ _ Hcidx) as Hl.
    rewrite Hl in Hid. injection Hid as Hid.
    assert (E : childBranch = r) by (eapply Hids; eauto).
    rewrite E in Hcrank. lia. }
  assert (Hrec : forall c child' childIdx',
            branches tree !! c = Some child' -> rank c < rank r ->
            list_index (branch_id child') branchIDList = Ok childIdx' ->
            returns (arraysFit nr nc) (fun _ => True)
              (_recursiveFiloTypes worldDist branchIDList trees excludeAxon
                 excludeBasal terminalDist filoDist fuel treeIdx childIdx')).
  { intros c child' childIdx' Hchild' Hlt Hcidx'.
    eapply recursiveFiloTypes_returns; eauto.
    - lia.
    - eapply list_index_lt; eauto.
    - intros r' b' Hr' Hid'. apply list_index_lookup in Hcidx'.
      assert (E : r' = c) by (eapply Hids; eauto; congruence).
      subst r'. lia. }
  assert (HisEmpty : isEmpty branch = false).
  { unfold isEmpty. rewrite Hpts, length_app. apply Nat.eqb_neq. simpl. lia. }
  assert (HhasKids : hasChildren branch = true).
  { unfold hasChildren. apply existsb_exists. exists point.
    split; [exact Hpoint|]. now rewrite Hkids. }
  assert (Hchild_ne : 1 <= length (points child)).
  { unfold isFilo, isEmpty in Hfilo. cbn [fst] in Hfilo.
    destruct (length (points child)); [discriminate|lia]. }
  cbn [_recursiveFiloTypes]. unfold recursiveFiloTypes_body.
  unfold bind at 1, lift at 1, list_get. rewrite Htree.
  unfold bind at 1, lift at 1, list_get. rewrite Hid.
  rewrite (getBranchByID_at tree r branch Hids Hr).
  rewrite HisEmpty, Hax, Hbas, HhasKids. cbn [orb negb andb].
  destruct (worldLengths worldDist branch) as [total toLast].
  unfold bind at 1.
  rewrite Hpts, enumerate_snoc, foldM_app.
  destruct (returns_foldM (arraysFit nr nc) (enumerate init) false
              (walkPoint worldDist branchIDList terminalDist filoDist
                 (_recursiveFiloTypes worldDist branchIDList trees excludeAxon
                    excludeBasal terminalDist filoDist fuel treeIdx)
                 tree treeIdx branchIdx branch total
                 (cumulativeWorldLengths worldDist branch)))
    with (s := s) as (f1 & s1 & Hrun1 & Hfit1 & _).
  { intros acc ip Hip. eapply walkPoint_returns; eauto.
    rewrite Hpts, enumerate_snoc. apply in_or_app. now left. }
  { exact Hfit. }
  rewrite Hrun1.
  destruct (lookup_lt_is_Some_2 (cumulativeWorldLengths worldDist branch) (length init))
    as [cumAtPoint Hcum].
  { unfold cumulativeWorldLengths.
    rewrite length_cumulativeFrom, Hpts, length_app. simpl. lia. }
  destruct Hfit1 as [Hf1 Hm1].
  destruct (classifyChild_override
              worldDist branchIDList terminalDist filoDist
              (_recursiveFiloTypes worldDist branchIDList trees excludeAxon
                 excludeBasal terminalDist filoDist fuel treeIdx)
              tree treeIdx branchIdx branch total
              (cumulativeWorldLengths worldDist branch) (length init) point false
              childBranch child childIdx cumAtPoint s1)
    as (s2 & Hrun2 & [Hsf2 Hsm2] & Hrole & Hmaster).
  { unfold branchAt. now rewrite Hchild. }
  { exact Hchild_ne. }
  { exact Hcidx. }
  { exact Hfilo. }
  { unfold list_get. now rewrite Hcum. }
  { now rewrite Hkids. }
  { rewrite Hpts, length_app. simpl. lia. }
  { eapply cell_in_shape; [exact Hf1|]. split; lia. }
  { eapply cell_in_shape; [exact Hm1|]. split; lia. }
  cbn [foldM]. unfold bind at 1. unfold walkPoint at 1.
  rewrite Hkids. cbn [length Nat.eqb foldM].
  unfold bind at 1. unfold bind at 1. rewrite Hrun2.
  unfold ret at 1. unfold bind at 1. unfold ret at 1. unfold ret at 1.
  unfold ret at 1.
  assert (Hown : returns (arraysFit nr nc) (fun _ => True)
                   (ownRole filoDist tree treeIdx branchIdx branch total toLast false)).
  { eapply ownRole_returns; eauto.
    rewrite Hpts. intros E. destruct init; discriminate. }
  destruct (Hown s2) as ([] & s3 & Hrun3 & _); [split; congruence|].
  rewrite Hrun3. exists s3. split; [reflexivity|].
  destruct (keeps_cell_ownRole filoDist tree treeIdx branchIdx branch total toLast
              false s2 tt s3 Hrun3 treeIdx childIdx) as [[_ E]|[E1 E2]];
    [contradiction|].
  rewrite !getCell_Ok. split; congruence.
Qed.

(** C10: masking by [masterChanged] touches [added] and [subtracted] only.
    The returned [transitioned] is the unmasked array expression of line 69,
    cell by cell the event of the two roles, and there are runs in which a
    cell is true in both [transitioned] and [masterChanged]. *)
Theorem transitioned_is_not_masked :
  (forall worldDist fuel trees excludeAxon excludeBasal terminalDist filoDist out,
     addedSubtractedTransitioned worldDist fuel trees excludeAxon excludeBasal
       terminalDist filoDist = Ok out ->
     out_transitioned out = transitionedOf (out_filoTypes out) /\
     forall t b before after,
       rolesAt (out_filoTypes out) t b = Some (before, after) ->
       getCell (out_transitioned out) t b = Ok (transitionedAt before after)) /\
  (exists out t b,
     addedSubtractedTransitioned lineDist 100 growingTrees true true 10 10 = Ok out /\
     getCell (out_transitioned out) t b = Ok true /\
     getCell (out_masterChanged out) t b = Ok true).
Proof.
  split.
  - intros worldDist fuel trees excludeAxon excludeBasal terminalDist filoDist out Hrun.
    destruct (addedSubtractedTransitioned_inv _ _ _ _ _ _ _ _ Hrun)
      as (_ & _ & _ & _ & _ & _ & Htr).
    split; [exact Htr|].
    intros t b before after Hroles.
    apply getCell_Ok. now rewrite Htr, cell_transitionedOf, Hroles.
  - eexists _, 0, 1. split; [vm_compute; reflexivity|].
    split; reflexivity.
Qed.

(** * The classifier at the tip of a branch *)

Example branchTipTree_wellFormed : wellFormedBy positionRank branchTipTree.
Proof.
  intros [|[|r]] b Hb; try discriminate; injection Hb as <-;
    (split; [eexists; reflexivity|]); intros p c Hp Hc; simpl in Hp.
  - destruct Hp as [<-|[]]. destruct Hc as [<-|[]].
    simpl. unfold positionRank. lia.
  - destruct Hp as [<-|[]]. destruct Hc.
Qed.

Example branchTipTree_distinctIDs : distinctIDs branchTipTree.
Proof.
  intros [|[|r]] [|[|r']] b b' Hb Hb' E; try discriminate; try reflexivity;
    injection Hb as <-; injection Hb' as <-; discriminate E.
Qed.

(** The filopodium at the tip of the short trunk becomes BRANCH_ONLY, with
    the trunk (index 0) as its master node. *)
Lemma branch_tip_filopodium_witness :
  exists s',
    _recursiveFiloTypes lineDist ["0000"; "0001"]%string [branchTipTree]
      true true 10 10 2 0 0 (freshState 1) = Ok (tt, s') /\
    getCell (filoTypes s') 0 1 = Ok BRANCH_ONLY /\
    getCell (masterNodes s') 0 1 = Ok [0].
Proof.
  apply (branch_tip_filopodium_is_branch_only
           lineDist ["0000"; "0001"]%string [branchTipTree] true true 10%Q 10%Q
           positionRank branchTipTree 0 1 2 2 0 shortTrunk 0 [] fork 1 (side 3) 1
           (freshState 1)).
  - reflexivity.
  - apply branchTipTree_wellFormed.
  - apply branchTipTree_distinctIDs.
  - lia.
  - simpl; lia.
  - simpl; lia.
  - split; reflexivity.
  - reflexivity.
  - reflexivity.
  - unfold positionRank; lia.
  - vm_compute; reflexivity.
  - vm_compute; reflexivity.
  - reflexivity.
  - reflexivity.
  - reflexivity.
  - vm_compute; reflexivity.
  - reflexivity.
Defined.

(** * Columns by position where the arrays have columns by id *)

(** C4 fails on [shiftedTrees].  In the second snapshot the filopodium
    "0004" grows from the first of the two points of the trunk "0000", 5
    before the trunk's end and below [terminalDist] = 10; it is not the only
    child at the last point, and every child of the trunk is a filopodium,
    so that no downgrade applies on its branch.  Line 117 files it as
    TERMINAL in column 4, the index of its id.  The downgrade of lines
    138-145 for the other trunk "0002" then reads its child "0005" at
    [indexInParent()] = 4 and turns the cell of "0004" into INTERSTITIAL,
    while "0005", which the downgrade is meant for, stays TERMINAL in
    column 5.  The same snapshot taken alone, where positions and indexes of
    ids agree, gets TERMINAL for "0004" and INTERSTITIAL for "0005". *)
Theorem terminal_filopodium_downgraded_by_position :
  exists out alone trunk0 filo,
    addedSubtractedTransitioned lineDist 100 shiftedTrees true true 10 10 = Ok out /\
    addedSubtractedTransitioned lineDist 100 [shiftedTree] true true 10 10 = Ok alone /\
    sortedBranchIDList shiftedTrees
      = ["0000"; "0001"; "0002"; "0003"; "0004"; "0005"]%string /\
    getBranchByID shiftedTree "0000" = Some trunk0 /\
    getBranchByID shiftedTree "0004" = Some filo /\
    branches shiftedTree !! 3 = Some filo /\
    isFilo lineDist filo 10 = (true, 3%Q) /\
    points trunk0 = [pt "a1" 20 0 [3]; pt "a2" 25 0 []] /\
    roleByDistance 10
      (fst (worldLengths lineDist trunk0)
       - nth 0 (cumulativeWorldLengths lineDist trunk0) 0%Q) = TERMINAL /\
    (fst (worldLengths lineDist trunk0)
     - nth 0 (cumulativeWorldLengths lineDist trunk0) 0%Q == 5)%Q /\
    forallb
      (fun p =>
         forallb
           (fun c => match branches shiftedTree !! c with
                     | Some b => fst (isFilo lineDist b 10)
                     | None => false
                     end)
           (children p))
      (points trunk0) = true /\
    getCell (out_filoTypes out) 1 4 = Ok INTERSTITIAL /\
    getCell (out_filoTypes out) 1 5 = Ok TERMINAL /\
    getCell (out_filoTypes alone) 0 3 = Ok TERMINAL /\
    getCell (out_filoTypes alone) 0 4 = Ok INTERSTITIAL.
Proof.
  eexists _, _, _, _.
  split; [vm_compute; reflexivity|].
  split; [vm_compute; reflexivity|].
  split; [vm_compute; reflexivity|].
  split; [vm_compute; reflexivity|].
  split; [vm_compute; reflexivity|].
  split; [vm_compute; reflexivity|].
  split; [vm_compute; reflexivity|].
  split; [vm_compute; reflexivity|].
  split; [vm_compute; reflexivity|].
  split; [vm_compute; reflexivity|].
  split; [vm_compute; reflexivity|].
  repeat split; reflexivity.
Qed.

(** C2 fails on [lateBranchTrees].  Branch "0002" is second in the first
    snapshot's list of branches and third in the sorted list of ids.
    [addedSubtractedTransitioned] files its role in column 2 of both
    snapshots; [_calcFiloLengths] stores its length 3 of the first snapshot
    in column 1 and leaves column 2 at the initial NaN.  The raw motility of
    column 1 is then the length of "0001" in the second snapshot minus the
    length of "0002" in the first, and that of column 2 is NaN although
    "0002" has length 3 in both snapshots. *)
Theorem filoLengths_by_position_against_ids :
  exists m filoLengths out b0002 b0001 b0002',
    motility lineDist unitTDBL 100 lateBranchTrees true true false 10 10
      = Ok (m, filoLengths) /\
    addedSubtractedTransitioned lineDist 100 lateBranchTrees true true 10 10 = Ok out /\
    sortedBranchIDList lateBranchTrees = ["0000"; "0001"; "0002"]%string /\
    (exists t0, lateBranchTrees !! 0 = Some t0 /\
                getBranchByID t0 "0002" = Some b0002 /\
                branches t0 !! 1 = Some b0002) /\
    (exists t1, lateBranchTrees !! 1 = Some t1 /\
                getBranchByID t1 "0001" = Some b0001 /\
                branches t1 !! 1 = Some b0001 /\
                getBranchByID t1 "0002" = Some b0002' /\
                branches t1 !! 2 = Some b0002') /\
    filoLengthOf lineDist true true 10 b0002 = Ok (Fin 3) /\
    filoLengthOf lineDist true true 10 b0001 = Ok (Fin 4) /\
    filoLengthOf lineDist true true 10 b0002' = Ok (Fin 3) /\
    getCell (out_filoTypes out) 0 2 = Ok TERMINAL /\
    getCell (out_filoTypes out) 1 2 = Ok TERMINAL /\
    getCell (out_filoTypes out) 0 1 = Ok ABSENT /\
    getCell filoLengths 0 1 = Ok (Fin 3) /\
    getCell filoLengths 0 2 = Ok NaN /\
    getCell filoLengths 1 1 = Ok (Fin 4) /\
    getCell filoLengths 1 2 = Ok (Fin 3) /\
    getCell (raw m) 0 1 = Ok (Fin 1) /\
    getCell (raw m) 0 2 = Ok NaN /\
    ~ storedAtGlobalIndex lineDist true true 10 lateBranchTrees filoLengths.
Proof.
  eexists _, _, _, _, _, _.
  split; [vm_compute; reflexivity|].
  split; [vm_compute; reflexivity|].
  split; [vm_compute; reflexivity|].
  split; [eexists; split; [reflexivity|]; split; [vm_compute; reflexivity|]; reflexivity|].
  split; [eexists; split; [reflexivity|]; split; [vm_compute; reflexivity|];
          split; [reflexivity|]; split; [vm_compute; reflexivity|reflexivity]|].
  split; [vm_compute; reflexivity|].
  split; [vm_compute; reflexivity|].
  split; [vm_compute; reflexivity|].
  do 9 (split; [reflexivity|]).
  intros Hclaim.
  specialize (Hclaim 0 _ (mkBranch "0002" [pt "c1" 20 3 []] (Some (pt "a1" 20 0 [1])))
                2 (Fin 3) eq_refl).
  assert (H : getCell [[Fin 5; Fin 3; NaN]; [Fin 3; Fin 4; Fin 3]] 0 2 = Ok (Fin 3)).
  { apply Hclaim.
    - right; left; reflexivity.
    - vm_compute; reflexivity.
    - vm_compute; reflexivity. }
  discriminate H.
Qed.

(** * The theorems at concrete snapshots *)

(** When the trunk sprouts its first filopodium, its master nodes change
    from itself to the new child: the addition of the trunk's tail is
    masked. *)
Lemma masterChanged_clears_witness :
  exists out,
    addedSubtractedTransitioned lineDist 100 sproutingTrees true true 10 10 = Ok out /\
    getCell (addedOf (out_filoTypes out)) 0 0 = Ok true /\
    getCell (out_added out) 0 0 = Ok false /\
    getCell (out_subtracted out) 0 0 = Ok false.
Proof.
  eexists. split; [vm_compute; reflexivity|].
  split; [reflexivity|].
  apply (masterChanged_clears_added_subtracted
           lineDist 100 sproutingTrees true true 10%Q 10%Q _ 0 0);
    vm_compute; reflexivity.
Defined.

Lemma added_subtracted_exclusive_witness :
  exists out,
    addedSubtractedTransitioned lineDist 100 sproutingTrees true true 10 10 = Ok out /\
    getCell (out_added out) 0 1 = Ok true /\
    ~ (getCell (out_added out) 0 1 = Ok true /\
       getCell (out_subtracted out) 0 1 = Ok true).
Proof.
  eexists. split; [vm_compute; reflexivity|].
  split; [reflexivity|].
  apply (added_subtracted_exclusive
           lineDist 100 sproutingTrees true true 10%Q 10%Q _ 0 1).
  vm_compute; reflexivity.
Defined.

Lemma transitioned_is_not_masked_witness :
  exists out,
    addedSubtractedTransitioned lineDist 100 growingTrees true true 10 10 = Ok out /\
    out_transitioned out = transitionedOf (out_filoTypes out).
Proof.
  eexists. split; [vm_compute; reflexivity|].
  apply (proj1 transitioned_is_not_masked
           lineDist 100 growingTrees true true 10%Q 10%Q).
  vm_compute; reflexivity.
Defined.

(** The classification of the trunk with one side filopodium, and of the
    trunk that ends where its only child starts. *)
Example classification_of_side_filopodium :
  option_map out_filoTypes
    (match addedSubtractedTransitioned lineDist 100 [sideBranchTree 25 3]
             true true 10 10 with Ok out => Some out | Raise _ => None end)
    = Some [[BRANCH_WITH_TERMINAL; TERMINAL]] /\
  option_map out_filoTypes
    (match addedSubtractedTransitioned lineDist 100 [sideBranchTree 25 3]
             true true 5 10 with Ok out => Some out | Raise _ => None end)
    = Some [[BRANCH_WITH_TERMINAL; INTERSTITIAL]] /\
  option_map (fun out => (out_filoTypes out, out_masterNodes out))
    (match addedSubtractedTransitioned lineDist 100 [branchTipTree]
             true true 10 10 with Ok out => Some out | Raise _ => None end)
    = Some ([[BRANCH_ONLY; BRANCH_ONLY]], [[[1]; [0]]]).
Proof. repeat split; vm_compute; reflexivity. Qed.

(** The trunk of [sideBranchTree 30 3] runs 10 past its fork, which is
    [filoDist]: it contributes 0. *)
Lemma calcFiloLengths_boundary_witness :
  exists s',
    _calcFiloLengths lineDist 6 (sideBranchTree 30 3) 0 0 true true 10
      (full 1 2 NaN) = Ok (tt, s') /\
    getCell s' 0 0 = Ok (Fin 0).
Proof.
  destruct (calcFiloLengths_boundary_is_strict
              lineDist 5 (sideBranchTree 30 3) 0 0 true true 10%Q (trunk 30)
              (full 1 2 NaN) [[NaN; Fin 3]])
    as (s' & Hrun & Hzero & _).
  - reflexivity.
  - simpl; lia.
  - right. exists (-1)%Z. split; [vm_compute; reflexivity|lia].
  - right. exists (-1)%Z. split; [vm_compute; reflexivity|lia].
  - vm_compute; reflexivity.
  - vm_compute; reflexivity.
  - eexists; reflexivity.
  - exists s'. split; [exact Hrun|]. apply Hzero. vm_compute; reflexivity.
Defined.

(** One unit less and the tail of 9 is the contribution. *)
Example calcFiloLengths_below_boundary :
  _calcFiloLengths lineDist 6 (sideBranchTree 29 3) 0 0 true true 10
    (full 1 2 NaN) = Ok (tt, [[Fin 9; Fin 3]]).
Proof. vm_compute; reflexivity. Qed.

(** The unbranched trunk of length 25 has no last branch point: it
    contributes 0. *)
Lemma calcFiloLengths_no_last_branch_witness :
  exists s',
    _calcFiloLengths lineDist 6 trunkOnlyTree 0 0 true true 10
      (full 1 1 NaN) = Ok (tt, s') /\
    getCell s' 0 0 = Ok (Fin 0).
Proof.
  apply (calcFiloLengths_no_last_branch_is_zero
           lineDist 5 trunkOnlyTree 0 0 true true 10%Q bareTrunk
           (full 1 1 NaN) (full 1 1 NaN)).
  - reflexivity.
  - simpl; lia.
  - right. exists (-1)%Z. split; [vm_compute; reflexivity|lia].
  - right. exists (-1)%Z. split; [vm_compute; reflexivity|lia].
  - vm_compute; reflexivity.
  - vm_compute; reflexivity.
  - eexists; reflexivity.
  - vm_compute. discriminate.
Defined.

(** The trunk's tail grows from 5 to 7 next to an unchanged filopodium: two
    roles count, the quotient is 2/2. *)
Lemma rawNFilo_witness :
  exists m filoLengths out rawRow roles,
    motility lineDist unitTDBL 100 extendingTrees true true false 10 10
      = Ok (m, filoLengths) /\
    addedSubtractedTransitioned lineDist 100 extendingTrees true true 10 10 = Ok out /\
    raw m !! 0 = Some rawRow /\
    out_filoTypes out !! 0 = Some roles /\
    rawNFilo m !! 0 = Some (fdiv (nansum rawRow) (ofCount (filoCount roles))) /\
    roles = [BRANCH_WITH_TERMINAL; TERMINAL] /\
    filoCount roles = 2.
Proof.
  eexists _, _.
  destruct (rawNFilo_counts_every_filo_role
              lineDist unitTDBL 100 extendingTrees true true false 10%Q 10%Q
              _ _ 0 _ ltac:(vm_compute; reflexivity) ltac:(reflexivity))
    as (out & rawRow & roles & Hast & _ & Hraw & Hroles & Hx).
  exists out, rawRow, roles.
  split; [vm_compute; reflexivity|].
  split; [exact Hast|]. split; [exact Hraw|]. split; [exact Hroles|].
  vm_compute in Hast. injection Hast as <-.
  vm_compute in Hroles. injection Hroles as <-.
  vm_compute in Hraw. injection Hraw as <-.
  repeat split; reflexivity.
Defined.

(** C3 as stated fails there: one branch is TERMINAL or INTERSTITIAL, so
    the claimed quotient is 2/1, and the code returns 2/2. *)
Lemma rawNFilo_not_by_strict_count :
  exists m filoLengths out,
    motility lineDist unitTDBL 100 extendingTrees true true false 10 10
      = Ok (m, filoLengths) /\
    addedSubtractedTransitioned lineDist 100 extendingTrees true true 10 10 = Ok out /\
    ~ normalisedByStrictCount m (out_filoTypes out).
Proof.
  eexists _, _, _.
  split; [vm_compute; reflexivity|].
  split; [vm_compute; reflexivity|].
  intros Hclaim.
  specialize (Hclaim 0 _ _ _ eq_refl eq_refl eq_refl).
  vm_compute in Hclaim. discriminate Hclaim.
Qed.

(** The failing input of C8: the classification skips the empty first
    snapshot and leaves its row ABSENT, the length recomputation raises. *)
Lemma motility_raises_witness :
  (exists out,
     addedSubtractedTransitioned lineDist 100 emptyFirstTrees true true 10 10 = Ok out /\
     out_filoTypes out !! 0 = Some [ABSENT; ABSENT]) /\
  isOk (motility lineDist unitTDBL 100 emptyFirstTrees true true false 10 10) = false.
Proof.
  split.
  - eexists. split; [vm_compute; reflexivity|reflexivity].
  - apply (motility_raises_on_rootless_tree
             lineDist unitTDBL 100 emptyFirstTrees true true false 10%Q 10%Q
             emptyTree).
    + left; reflexivity.
    + reflexivity.
Defined.

Example motility_on_empty_first_snapshot :
  motility lineDist unitTDBL 100 emptyFirstTrees true true false 10 10
    = Raise AttributeError.
Proof. vm_compute; reflexivity. Qed.

(** * Further runs *)

(** Section 8 of the spec, last scenario: "added=[false,false],
    subtracted=[false,true], raw filo length vector = [3,3,NaN]" for the
    filopodium, which is column 1. *)
Example retracting_filopodium :
  exists out m filoLengths,
    addedSubtractedTransitioned lineDist 100 retractingTrees true true 10 10 = Ok out /\
    motility lineDist unitTDBL 100 retractingTrees true true false 10 10
      = Ok (m, filoLengths) /\
    (getCell (out_added out) 0 1, getCell (out_added out) 1 1)
      = (Ok false, Ok false) /\
    (getCell (out_subtracted out) 0 1, getCell (out_subtracted out) 1 1)
      = (Ok false, Ok true) /\
    (getCell filoLengths 0 1, getCell filoLengths 1 1, getCell filoLengths 2 1)
      = (Ok (Fin 3), Ok (Fin 3), Ok NaN).
Proof.
  eexists _, _, _.
  split; [vm_compute; reflexivity|].
  split; [vm_compute; reflexivity|].
  repeat split.
Qed.

(** Labels.  A side filopodium labelled as the axon gets no length when
    axons are excluded, and its length when they are not; its role is decided
    by the walk along its parent, where labels are not consulted.  A trunk
    labelled as the axon is ABSENT, and so is everything that grows from it. *)
Example axon_is_excluded :
  (exists out m filoLengths,
     addedSubtractedTransitioned lineDist 100 [axonTree] true true 10 10 = Ok out /\
     motility lineDist unitTDBL 100 [axonTree] true true false 10 10
       = Ok (m, filoLengths) /\
     out_filoTypes out = [[BRANCH_WITH_TERMINAL; TERMINAL]] /\
     filoLengths = [[Fin 5; NaN]]) /\
  (exists m filoLengths,
     motility lineDist unitTDBL 100 [axonTree] false true false 10 10
       = Ok (m, filoLengths) /\
     filoLengths = [[Fin 5; Fin 3]]) /\
  (exists out m filoLengths,
     addedSubtractedTransitioned lineDist 100 [axonTrunkTree] true true 10 10 = Ok out /\
     motility lineDist unitTDBL 100 [axonTrunkTree] true true false 10 10
       = Ok (m, filoLengths) /\
     out_filoTypes out = [[ABSENT; ABSENT]] /\
     filoLengths = [[NaN; NaN]]) /\
  hasLabel "the axon" "axon" = true /\
  hasLabel "the axon" "basal" = false.
Proof.
  split; [|split; [|split; [|split; reflexivity]]].
  - eexists _, _, _.
    split; [vm_compute; reflexivity|].
    split; [vm_compute; reflexivity|].
    split; reflexivity.
  - eexists _, _.
    split; [vm_compute; reflexivity|reflexivity].
  - eexists _, _, _.
    split; [vm_compute; reflexivity|].
    split; [vm_compute; reflexivity|].
    split; reflexivity.
Qed.

(** The two example trees are well-formed, so that the traversal of their
    trunk returns for every array of the right shape. *)
Example sideBranchTree_wellFormed trunkEnd tip :
  wellFormedBy positionRank (sideBranchTree trunkEnd tip).
Proof.
  intros [|[|r]] b Hb; try discriminate; injection Hb as <-;
    (split; [eexists; reflexivity|]); intros p c Hp Hc; simpl in Hp.
  - destruct Hp as [<-|[<-|[]]]; simpl in Hc; [|destruct Hc].
    destruct Hc as [<-|[]]. simpl. unfold positionRank. lia.
  - destruct Hp as [<-|[]]. destruct Hc.
Qed.

(** The trunk that runs exactly [filoDist] past its fork contributes 0 on
    every array of one row and two columns. *)
Example trunk_at_boundary_on_any_array (s : Matrix npfloat) :
  shape s = replicate 1 2 ->
  exists s',
    _calcFiloLengths lineDist 2 (sideBranchTree 30 3) 0 0 true true 10 s
      = Ok (tt, s') /\
    getCell s' 0 0 = Ok (Fin 0).
Proof.
  intros Hs.
  apply (calcFiloLengths_own_contribution_on_forest
           lineDist positionRank (sideBranchTree 30 3) 0 true true 10%Q 1 2
           1 0 (trunk 30) s).
  - apply sideBranchTree_wellFormed.
  - lia.
  - simpl; lia.
  - reflexivity.
  - unfold positionRank; lia.
  - exact Hs.
  - simpl; lia.
  - right. exists (-1)%Z. split; [vm_compute; reflexivity|lia].
  - right. exists (-1)%Z. split; [vm_compute; reflexivity|lia].
  - vm_compute; reflexivity.
Qed.

(** * More about addedSubtractedTransitioned *)

(** X1: whenever [addedSubtractedTransitioned] returns, the role matrix and
    the master nodes have one row per snapshot, the four event matrices one
    row per pair of consecutive snapshots, and all six one column per branch
    id. *)
Theorem addedSubtractedTransitioned_shapes
    worldDist fuel trees excludeAxon excludeBasal terminalDist filoDist out :
  addedSubtractedTransitioned worldDist fuel trees excludeAxon excludeBasal
    terminalDist filoDist = Ok out ->
  shape (out_filoTypes out) =
    replicate (length trees) (length (sortedBranchIDList trees)) /\
  shape (out_masterNodes out) =
    replicate (length trees) (length (sortedBranchIDList trees)) /\
  shape (out_added out) =
    replicate (length trees - 1) (length (sortedBranchIDList trees)) /\
  shape (out_subtracted out) =
    replicate (length trees - 1) (length (sortedBranchIDList trees)) /\
  shape (out_transitioned out) =
    replicate (length trees - 1) (length (sortedBranchIDList trees)) /\
  shape (out_masterChanged out) =
    replicate (length trees - 1) (length (sortedBranchIDList trees)).
Proof.
  intros Hrun.
  destruct (addedSubtractedTransitioned_inv _ _ _ _ _ _ _ _ Hrun)
    as (Hn & Hft & Hmn & Hmc & Hadd & Hsub & Htr).
  destruct (shape_events _ _ _ Hft) as (Hsa & Hss & Hst).
  repeat split; auto.
  - rewrite Hadd. unfold maskFill. now apply shape_mzip.
  - rewrite Hsub. unfold maskFill. now apply shape_mzip.
  - now rewrite Htr.
Qed.

Lemma addedSubtractedTransitioned_shapes_witness :
  exists out,
    addedSubtractedTransitioned lineDist 100 growingTrees true true 10 10 = Ok out /\
    shape (out_filoTypes out) = [2; 2] /\
    shape (out_masterChanged out) = [2].
Proof.
  eexists. split; [vm_compute; reflexivity|].
  destruct (addedSubtractedTransitioned_shapes
              lineDist 100 growingTrees true true 10%Q 10%Q _
              ltac:(vm_compute; reflexivity))
    as (Hft & _ & _ & _ & _ & Hmc).
  split; [exact Hft|exact Hmc].
Defined.









(** X5: a cell that is true in [transitioned] is false in [added] and in
    [subtracted]: the three events exclude one another. *)
Theorem transitioned_excludes_added_subtracted
    worldDist fuel trees excludeAxon excludeBasal terminalDist filoDist out t b :
  addedSubtractedTransitioned worldDist fuel trees excludeAxon excludeBasal
    terminalDist filoDist = Ok out ->
  getCell (out_transitioned out) t b = Ok true ->
  getCell (out_added out) t b = Ok false /\
  getCell (out_subtracted out) t b = Ok false.
Proof.
  intros Hrun Htr.
  destruct (addedSubtractedTransitioned_inv _ _ _ _ _ _ _ _ Hrun)
    as (_ & Hft & _ & Hsm & Hadd & Hsub & Htrd).
  destruct (shape_events _ _ _ Hft) as (_ & _ & Hst). rewrite <- Htrd in Hst.
  assert (Hin : is_Some (cell (out_masterChanged out) t b)).
  { eapply cell_in_shape; [exact Hsm|]. eapply cell_in_shape; [exact Hst|].
    apply getCell_Ok in Htr. rewrite Htr. eauto. }
  destruct Hin as [c Hc].
  rewrite Htrd in Htr. apply getCell_Ok in Htr. rewrite cell_transitionedOf in Htr.
  destruct (rolesAt (out_filoTypes out) t b) as [[f0 f1]|] eqn:Hr; [|discriminate].
  simpl in Htr. injection Htr as Htr.
  rewrite Hadd, Hsub, !getCell_Ok, !cell_maskFill, cell_addedOf, cell_subtractedOf,
    Hr, Hc. simpl.
  destruct c; [auto|].
  destruct f0, f1; try discriminate Htr; auto.
Qed.

Lemma transitioned_excludes_witness :
  exists out,
    addedSubtractedTransitioned lineDist 100 growingTrees true true 10 10 = Ok out /\
    getCell (out_added out) 0 1 = Ok false /\
    getCell (out_subtracted out) 0 1 = Ok false.
Proof.
  eexists. split; [vm_compute; reflexivity|].
  apply (transitioned_excludes_added_subtracted
           lineDist 100 growingTrees true true 10%Q 10%Q _ 0 1);
    vm_compute; reflexivity.
Defined.

(** A loop establishes at every element what its body establishes, as long
    as the later iterations keep it. *)
Lemma forM_establishes {S A} (R : S -> S -> Prop) (Q : A -> S -> Prop)
    (R_refl : forall s, R s s)
    (R_trans : forall s1 s2 s3, R s1 s2 -> R s2 s3 -> R s1 s3)
    (l : list A) (body : A -> M S unit) :
  (forall x, keeps R (body x)) ->
  (forall x s s', In x l -> body x s = Ok (tt, s') -> Q x s') ->
  (forall x s s', Q x s -> R s s' -> Q x s') ->
  forall s s', forM_ l body s = Ok (tt, s') -> forall x, In x l -> Q x s'.
Proof.
  intros Hkeeps Hbody Hstable.
  induction l as [|y l IH]; intros s s' Hrun x Hin; [destruct Hin|].
  simpl in Hrun. unfold bind in Hrun.
  destruct (body y s) as [[[] s1]|] eqn:Hy; [|discriminate].
  destruct Hin as [->|Hin].
  - apply (Hstable x s1 s').
    + apply (Hbody x s s1); [now left|exact Hy].
    + exact (keeps_forM_ R R_refl R_trans l body Hkeeps s1 tt s' Hrun).
  - apply (IH (fun z s0 s0' Hz => Hbody z s0 s0' (or_intror Hz)) s1 s' Hrun x Hin).
Qed.

Lemma setsDisjoint_spec l1 l2 :
  setsDisjoint l1 l2 = true <-> forall x, In x l1 -> ~ In x l2.
Proof.
  unfold setsDisjoint. rewrite Nat.eqb_eq. split.
  - intros Hlen x H1 H2.
    assert (Hin : In x (List.filter (fun x => existsb (Nat.eqb x) l2) l1)).
    { apply filter_In. split; [exact H1|].
      apply existsb_exists. exists x. split; [exact H2|apply Nat.eqb_refl]. }
    destruct (List.filter _ l1); [destruct Hin|discriminate].
  - intros Hdis.
    destruct (List.filter (fun x => existsb (Nat.eqb x) l2) l1) as [|y rest] eqn:E;
      [reflexivity|].
    assert (Hin : In y (List.filter (fun x => existsb (Nat.eqb x) l2) l1))
      by (rewrite E; now left).
    apply filter_In in Hin as [H1 H2].
    apply existsb_exists in H2 as (z & Hz & Heq). apply Nat.eqb_eq in Heq. subst z.
    destruct (Hdis y H1 Hz).
Qed.

Lemma fillsWith_refl mn mc : fillsWith mn mc mc.
Proof. intros t b. now left. Qed.

Lemma fillsWith_trans mn mc1 mc2 mc3 :
  fillsWith mn mc1 mc2 -> fillsWith mn mc2 mc3 -> fillsWith mn mc1 mc3.
Proof.
  intros H12 H23 t b.
  destruct (H23 t b) as [Heq|Hw]; [|now right].
  rewrite Heq. apply H12.
Qed.

(** One iteration of the inner loop of [fillMasterChanged]. *)
Lemma fillMasterChanged_cell mn t b (mc mc' : Matrix bool) :
  (l1 <- lift (getCell mn t b) ;;
   l2 <- lift (getCell mn (t + 1) b) ;;
   fun mc0 : Matrix bool =>
     match setCell mc0 t b ((0 <? length l2) && setsDisjoint l1 l2) with
     | Ok mc1 => Ok (tt, mc1)
     | Raise e => Raise e
     end)%py mc = Ok (tt, mc') ->
  exists l1 l2,
    cell mn t b = Some l1 /\ cell mn (S t) b = Some l2 /\
    cell mc' t b = Some (masterChangedAt l1 l2) /\
    forall t' b', (t', b') <> (t, b) -> cell mc' t' b' = cell mc t' b'.
Proof.
  unfold bind, lift. rewrite Nat.add_1_r.
  destruct (getCell mn t b) as [l1|] eqn:H1; [|discriminate].
  destruct (getCell mn (S t) b) as [l2|] eqn:H2; [|discriminate].
  destruct (setCell mc t b _) as [mc1|] eqn:Hset; [|discriminate].
  intros [= <-]. exists l1, l2. apply getCell_Ok in H1, H2.
  repeat split; auto.
  - eapply setCell_cell; eauto.
  - intros t' b' Hne. eapply setCell_cell_other; eauto.
Qed.

Lemma fillMasterChanged_fills mn (mc mc' : Matrix bool) nr nc :
  shape mc = replicate nr nc ->
  fillMasterChanged mn mc = Ok (tt, mc') ->
  forall t b, t < nr -> b < nc ->
    exists l1 l2,
      cell mn t b = Some l1 /\ cell mn (S t) b = Some l2 /\
      cell mc' t b = Some (masterChangedAt l1 l2).
Proof.
  intros Hshape. unfold fillMasterChanged.
  assert (Hrows : length mc = nr) by (eapply shape_length; eauto).
  assert (Hcols : 0 < nr -> length (hd [] mc) = nc).
  { intros Hpos. destruct mc as [|row mc]; [simpl in Hrows; lia|].
    destruct nr; [lia|]. unfold shape in Hshape. simpl in Hshape. now injection Hshape. }
  rewrite Hrows. intros Hrun t b Ht Hb.
  rewrite Hcols in Hrun by lia.
  set (inner := fun t0 b0 =>
         (l1 <- lift (getCell mn t0 b0) ;;
          l2 <- lift (getCell mn (t0 + 1) b0) ;;
          fun mc0 : Matrix bool =>
            match setCell mc0 t0 b0 ((0 <? length l2) && setsDisjoint l1 l2) with
            | Ok mc1 => Ok (tt, mc1)
            | Raise e => Raise e
            end)%py) in *.
  set (Q := fun (t0 b0 : nat) (s : Matrix bool) =>
         exists l1 l2, cell mn t0 b0 = Some l1 /\ cell mn (S t0) b0 = Some l2 /\
                       cell s t0 b0 = Some (masterChangedAt l1 l2)).
  assert (Hstable : forall t0 b0 s s', Q t0 b0 s -> fillsWith mn s s' -> Q t0 b0 s').
  { intros t0 b0 s s' (l1 & l2 & H1 & H2 & Hc) HR.
    destruct (HR t0 b0) as [Heq|(l1' & l2' & H1' & H2' & Hc')].
    - exists l1, l2. rewrite Heq. auto.
    - exists l1', l2'. auto. }
  assert (Hinner : forall t0 b0, keeps (fillsWith mn) (inner t0 b0)).
  { intros t0 b0 s [] s' Hs t' b'.
    destruct (fillMasterChanged_cell mn t0 b0 s s' Hs) as (l1 & l2 & H1 & H2 & Hc & Ho).
    destruct (decide ((t', b') = (t0, b0))) as [[= -> ->]|Hne].
    - right. exists l1, l2. auto.
    - left. now apply Ho. }
  assert (Hrow : forall t0, keeps (fillsWith mn) (forM_ (seq 0 nc) (inner t0))).
  { intros t0. apply (keeps_forM_ _ (fillsWith_refl mn) (fillsWith_trans mn)).
    intros b0. apply Hinner. }
  apply (forM_establishes (fillsWith mn) (fun t0 s => forall b0, b0 < nc -> Q t0 b0 s)
           (fillsWith_refl mn) (fillsWith_trans mn) (seq 0 nr)
           (fun t0 => forM_ (seq 0 nc) (inner t0)) Hrow) with (s := mc) (x := t);
    auto.
  - intros t0 s s' _ Hs b0 Hb0.
    apply (forM_establishes (fillsWith mn) (Q t0)
             (fillsWith_refl mn) (fillsWith_trans mn) (seq 0 nc) (inner t0)
             (Hinner t0)) with (s := s) (x := b0); auto.
    + intros b1 s0 s0' _ Hs0.
      destruct (fillMasterChanged_cell mn t0 b1 s0 s0' Hs0) as (l1 & l2 & H1 & H2 & Hc & _).
      exists l1, l2. auto.
    + intros b1 s0 s0'. apply Hstable.
    + apply in_seq. lia.
  - intros t0 s s' HQ HR b0 Hb0. eapply Hstable; eauto.
  - apply in_seq. lia.
Qed.

(** X6: for every pair of consecutive snapshots and every branch index,
    [masterChanged[t, b]] is true exactly when the master nodes of the branch
    at t+1 are not empty and share no element with its master nodes at t. *)
Theorem masterChanged_means_disjoint_master_nodes
    worldDist fuel trees excludeAxon excludeBasal terminalDist filoDist out t b :
  addedSubtractedTransitioned worldDist fuel trees excludeAxon excludeBasal
    terminalDist filoDist = Ok out ->
  S t < length trees ->
  b < length (sortedBranchIDList trees) ->
  exists l1 l2,
    getCell (out_masterNodes out) t b = Ok l1 /\
    getCell (out_masterNodes out) (S t) b = Ok l2 /\
    (getCell (out_masterChanged out) t b = Ok true <->
     l2 <> [] /\ forall x, In x l1 -> ~ In x l2) /\
    (getCell (out_masterChanged out) t b = Ok false <->
     l2 = [] \/ exists x, In x l1 /\ In x l2).
Proof.
  unfold addedSubtractedTransitioned. intros H Ht Hb.
  destruct (length trees =? 0); [discriminate|].
  destruct (forM_ _ _ _) as [[[] s]|]; [|discriminate].
  destruct (fillMasterChanged _ _) as [[[] mc]|] eqn:Hmc; [|discriminate].
  injection H as <-. cbn [out_masterNodes out_masterChanged].
  destruct (fillMasterChanged_fills _ _ _ _ _ (shape_full _ _ _) Hmc t b)
    as (l1 & l2 & H1 & H2 & Hc); [lia|exact Hb|].
  exists l1, l2. rewrite !getCell_Ok, Hc.
  split; [exact H1|]. split; [exact H2|].
  assert (Hnonempty : (0 <? length l2) = true <-> l2 <> []).
  { rewrite Nat.ltb_lt. destruct l2; simpl; split; intros; try lia; congruence. }
  unfold masterChangedAt. split; split.
  - intros [= Hv]. apply andb_true_iff in Hv as [Hv1 Hv2].
    split; [now apply Hnonempty|now apply setsDisjoint_spec].
  - intros [Hne Hdis]. f_equal. apply andb_true_iff.
    split; [now apply Hnonempty|now apply setsDisjoint_spec].
  - intros [= Hv]. apply andb_false_iff in Hv as [Hv|Hv].
    + left. destruct l2; [reflexivity|discriminate Hv].
    + right. unfold setsDisjoint in Hv. apply Nat.eqb_neq in Hv.
      destruct (List.filter (fun x => existsb (Nat.eqb x) l2) l1) as [|y rest] eqn:E;
        [contradiction|].
      assert (Hin : In y (List.filter (fun x => existsb (Nat.eqb x) l2) l1))
        by (rewrite E; now left).
      apply filter_In in Hin as [Hy1 Hy2].
      apply existsb_exists in Hy2 as (z & Hz & Heq). apply Nat.eqb_eq in Heq. subst z.
      eauto.
  - intros [->|(x & Hx1 & Hx2)]; [reflexivity|].
    f_equal. apply andb_false_iff. right.
    destruct (setsDisjoint l1 l2) eqn:E; [|reflexivity].
    destruct (proj1 (setsDisjoint_spec l1 l2) E x Hx1 Hx2).
Qed.

Lemma masterChanged_means_disjoint_witness :
  exists out l1 l2,
    addedSubtractedTransitioned lineDist 100 sproutingTrees true true 10 10 = Ok out /\
    getCell (out_masterNodes out) 0 0 = Ok l1 /\
    getCell (out_masterNodes out) 1 0 = Ok l2 /\
    (getCell (out_masterChanged out) 0 0 = Ok true <->
     l2 <> [] /\ forall x, In x l1 -> ~ In x l2).
Proof.
  eexists.
  destruct (masterChanged_means_disjoint_master_nodes
              lineDist 100 sproutingTrees true true 10%Q 10%Q _ 0 0
              ltac:(vm_compute; reflexivity) ltac:(simpl; lia)
              ltac:(vm_compute; lia))
    as (l1 & l2 & H1 & H2 & Htrue & _).
  exists l1, l2. split; [vm_compute; reflexivity|]. auto.
Defined.

(** X7: whenever [addedSubtractedTransitioned] returns, a snapshot without
    root point or without branches is skipped: its row of the role matrix is
    ABSENT throughout and its master nodes are all empty. *)
Theorem skipped_snapshot_row_is_absent
    worldDist fuel trees excludeAxon excludeBasal terminalDist filoDist out t tree :
  addedSubtractedTransitioned worldDist fuel trees excludeAxon excludeBasal
    terminalDist filoDist = Ok out ->
  trees !! t = Some tree ->
  rootPoint tree = None \/ branches tree = [] ->
  out_filoTypes out !! t =
    Some (replicate (length (sortedBranchIDList trees)) ABSENT) /\
  out_masterNodes out !! t =
    Some (replicate (length (sortedBranchIDList trees)) []).
Proof.
  unfold addedSubtractedTransitioned. intros H Ht Hskip.
  destruct (length trees =? 0); [discriminate|].
  destruct (forM_ _ _ _) as [[[] s]|] eqn:Hrun; [|discriminate].
  destruct (fillMasterChanged _ _) as [[[] mc]|]; [|discriminate].
  injection H as <-. cbn [out_filoTypes out_masterNodes].
  assert (Hk : keeps (rowKept t)
            (forM_ (enumerate trees)
               (classifyTree worldDist fuel (sortedBranchIDList trees) trees
                  excludeAxon excludeBasal terminalDist filoDist))).
  { apply (keeps_forM_In _ (rowKept_refl t) (rowKept_trans t)).
    intros [i tree'] Hin. destruct (decide (i = t)) as [->|Hne].
    - apply enumerate_lookup in Hin. rewrite Ht in Hin. injection Hin as <-.
      intros s0 a s0'. unfold classifyTree.
      destruct Hskip as [Hroot|Hnone].
      + rewrite Hroot. destruct (0 <? length (branches tree));
          intros [= _ <-]; apply rowKept_refl.
      + rewrite Hnone. intros [= _ <-]. apply rowKept_refl.
    - now apply keeps_row_classifyTree. }
  destruct (Hk _ _ _ Hrun) as [Hft Hmn]. cbn [filoTypes masterNodes] in Hft, Hmn.
  rewrite Hft, Hmn. unfold emptyArrayMatrix, full.
  apply lookup_lt_Some in Ht.
  rewrite !lookup_replicate_2 by exact Ht. auto.
Qed.

Lemma skipped_snapshot_witness :
  exists out,
    addedSubtractedTransitioned lineDist 100 emptyFirstTrees true true 10 10 = Ok out /\
    out_filoTypes out !! 0 = Some [ABSENT; ABSENT] /\
    out_masterNodes out !! 0 = Some [[]; []].
Proof.
  eexists. split; [vm_compute; reflexivity|].
  apply (skipped_snapshot_row_is_absent
           lineDist 100 emptyFirstTrees true true 10%Q 10%Q _ 0 emptyTree).
  - vm_compute; reflexivity.
  - reflexivity.
  - left; reflexivity.
Defined.

(** X8: a call of [_recursiveFiloTypes] for snapshot [treeIdx] writes into
    row [treeIdx] only: every other row of the role matrix and of the master
    nodes is as before, and both keep their shapes. *)
Theorem recursiveFiloTypes_writes_own_row
    worldDist branchIDList trees excludeAxon excludeBasal terminalDist filoDist
    fuel treeIdx branchIdx s s' t :
  _recursiveFiloTypes worldDist branchIDList trees excludeAxon excludeBasal
    terminalDist filoDist fuel treeIdx branchIdx s = Ok (tt, s') ->
  t <> treeIdx ->
  filoTypes s' !! t = filoTypes s !! t /\
  masterNodes s' !! t = masterNodes s !! t /\
  shape (filoTypes s') = shape (filoTypes s) /\
  shape (masterNodes s') = shape (masterNodes s).
Proof.
  intros Hrun Hne.
  destruct (keeps_row_recursiveFiloTypes worldDist branchIDList trees
              excludeAxon excludeBasal terminalDist filoDist t fuel treeIdx branchIdx
              (fun H => Hne (eq_sym H)) s tt s' Hrun) as [Hft Hmn].
  destruct (keeps_recursiveFiloTypes worldDist branchIDList trees
              excludeAxon excludeBasal terminalDist filoDist fuel treeIdx branchIdx
              s tt s' Hrun) as [Hsf Hsm].
  auto.
Qed.

Lemma recursiveFiloTypes_writes_own_row_witness :
  exists s',
    _recursiveFiloTypes lineDist ["0000"; "0001"]%string growingTrees true true 10 10
      5 1 0 (freshState 2) = Ok (tt, s') /\
    filoTypes s' !! 0 = Some [ABSENT; ABSENT] /\
    filoTypes s' !! 1 = Some [BRANCH_WITH_INTERSTITIAL; BRANCH_ONLY].
Proof.
  eexists. split; [vm_compute; reflexivity|].
  split; [|reflexivity].
  apply (recursiveFiloTypes_writes_own_row
           lineDist ["0000"; "0001"]%string growingTrees true true 10%Q 10%Q
           5 1 0 (freshState 2) _ 0).
  - vm_compute; reflexivity.
  - discriminate.
Defined.

(** X9: for a branch id that the snapshot does not have, and for a branch
    that is empty or excluded, [_recursiveFiloTypes] sets the role ABSENT and
    does nothing else: no other cell changes, the master nodes are untouched,
    and no child is visited. *)
Theorem recursiveFiloTypes_absent
    worldDist branchIDList trees excludeAxon excludeBasal terminalDist filoDist
    fuel treeIdx branchIdx tree branchID s :
  trees !! treeIdx = Some tree ->
  branchIDList !! branchIdx = Some branchID ->
  treatedAsAbsent excludeAxon excludeBasal (getBranchByID tree branchID) ->
  is_Some (cell (filoTypes s) treeIdx branchIdx) ->
  exists s',
    _recursiveFiloTypes worldDist branchIDList trees excludeAxon excludeBasal
      terminalDist filoDist (S fuel) treeIdx branchIdx s = Ok (tt, s') /\
    getCell (filoTypes s') treeIdx branchIdx = Ok ABSENT /\
    masterNodes s' = masterNodes s /\
    forall t b, (t, b) <> (treeIdx, branchIdx) ->
      cell (filoTypes s') t b = cell (filoTypes s) t b.
Proof.
  intros Htree Hid Habs Hcell.
  destruct (setCell_in_range _ treeIdx branchIdx ABSENT Hcell) as [m Hm].
  assert (Hset : setFiloType treeIdx branchIdx ABSENT s
                 = Ok (tt, mkFTState m (masterNodes s))).
  { unfold setFiloType. now rewrite Hm. }
  exists (mkFTState m (masterNodes s)). split.
  - cbn [_recursiveFiloTypes]. unfold recursiveFiloTypes_body.
    unfold bind at 1, lift at 1, list_get. rewrite Htree.
    unfold bind at 1, lift at 1, list_get. rewrite Hid.
    unfold treatedAsAbsent in Habs.
    destruct (getBranchByID tree branchID) as [branch|]; [|exact Hset].
    replace (isEmpty branch || excludeAxon && isAxon branch
             || excludeBasal && isBasal branch) with true; [exact Hset|].
    symmetry. destruct Habs as [->|[[-> ->]|[-> ->]]]; simpl;
      rewrite ?orb_true_r; reflexivity.
  - cbn [filoTypes masterNodes]. split; [|split; [reflexivity|]].
    + apply getCell_Ok. eapply setCell_cell; eauto.
    + intros t b Hne. eapply setCell_cell_other; eauto.
Qed.

Lemma recursiveFiloTypes_absent_witness :
  exists s',
    _recursiveFiloTypes lineDist ["0000"; "0001"; "0002"]%string lateBranchTrees
      true true 10 10 1 0 1 (mkFTState (full 2 3 BRANCH_ONLY) (emptyArrayMatrix 2 3))
      = Ok (tt, s') /\
    getCell (filoTypes s') 0 1 = Ok ABSENT /\
    getCell (filoTypes s') 0 2 = Ok BRANCH_ONLY.
Proof.
  destruct (recursiveFiloTypes_absent
              lineDist ["0000"; "0001"; "0002"]%string lateBranchTrees
              true true 10%Q 10%Q 0 0 1
              (mkTree (Some (pt "soma" 0 0 [0]))
                 [ mkBranch "0000" [pt "a1" 20 0 [1]; pt "a3" 25 0 []]
                     (Some (pt "soma" 0 0 [0]));
                   mkBranch "0002" [pt "c1" 20 3 []] (Some (pt "a1" 20 0 [1])) ])
              "0001"%string
              (mkFTState (full 2 3 BRANCH_ONLY) (emptyArrayMatrix 2 3)))
    as (s' & Hrun & Habs & _ & Hother).
  - reflexivity.
  - reflexivity.
  - exact I.
  - eexists; reflexivity.
  - exists s'. split; [exact Hrun|]. split; [exact Habs|].
    apply getCell_Ok. rewrite Hother by discriminate. reflexivity.
Defined.

Lemma setMasterNodes_filoTypes t b l s s' :
  setMasterNodes t b l s = Ok (tt, s') -> filoTypes s' = filoTypes s.
Proof.
  unfold setMasterNodes. destruct (setCell (masterNodes s) t b l); [|discriminate].
  intros [= <-]. reflexivity.
Qed.

Lemma setFiloType_cell t b v s s' :
  setFiloType t b v s = Ok (tt, s') ->
  cell (filoTypes s') t b = Some v /\ masterNodes s' = masterNodes s.
Proof.
  unfold setFiloType. destruct (setCell (filoTypes s) t b v) eqn:E; [|discriminate].
  intros [= <-]. split; [eapply setCell_cell; eauto|reflexivity].
Qed.

Section OwnRoleFacts.

Variable worldDist : Location -> Location -> Q.
Variable branchIDList : list string.
Variable trees : list Tree.
Variables excludeAxon excludeBasal : bool.
Variables terminalDist filoDist : Q.

(** What [ownRole] leaves in the cell of the branch. *)
Lemma ownRole_cell tree treeIdx branchIdx branch totalLength totalLengthToLastBranch
    forceInterstitial s s' :
  ownRole filoDist tree treeIdx branchIdx branch totalLength totalLengthToLastBranch
    forceInterstitial s = Ok (tt, s') ->
  cell (filoTypes s') treeIdx branchIdx =
    Some (if tailIsFilo filoDist totalLength totalLengthToLastBranch
          then if forceInterstitial then BRANCH_WITH_INTERSTITIAL
               else BRANCH_WITH_TERMINAL
          else BRANCH_ONLY).
Proof.
  unfold ownRole, tailIsFilo.
  destruct (Qltb 0 (totalLength - totalLengthToLastBranch)
            && Qltb (totalLength - totalLengthToLastBranch) filoDist).
  - unfold bind at 1.
    destruct (setFiloType _ _ _ s) as [[[] s1]|] eqn:Hset; [|discriminate].
    apply setFiloType_cell in Hset as [Hc _].
    destruct (lastPointWithChildren branch).
    + unfold bind, lift. destruct (indexesInParent tree (children p)); [|discriminate].
      intros Hm. apply setMasterNodes_filoTypes in Hm. now rewrite Hm.
    + intros [= <-]. exact Hc.
  - destruct (Qeq_bool (totalLength - totalLengthToLastBranch) 0).
    + unfold bind at 1.
      destruct (setFiloType _ _ _ s) as [[[] s1]|] eqn:Hset; [|discriminate].
      apply setFiloType_cell in Hset as [Hc _].
      unfold bind, lift.
      destruct (List.last (map Some (points branch)) None); [|discriminate].
      destruct (indexesInParent tree (children p)); [|discriminate].
      intros Hm. apply setMasterNodes_filoTypes in Hm. now rewrite Hm.
    + unfold bind at 1.
      destruct (setFiloType _ _ _ s) as [[[] s1]|] eqn:Hset; [|discriminate].
      apply setFiloType_cell in Hset as [Hc _].
      intros Hm. apply setMasterNodes_filoTypes in Hm. now rewrite Hm.
Qed.

(** The role that a returning call leaves for its own branch. *)
Lemma recursiveFiloTypes_final_role fuel treeIdx branchIdx s s' :
  _recursiveFiloTypes worldDist branchIDList trees excludeAxon excludeBasal
    terminalDist filoDist (S fuel) treeIdx branchIdx s = Ok (tt, s') ->
  exists tree branchID,
    trees !! treeIdx = Some tree /\
    branchIDList !! branchIdx = Some branchID /\
    ((treatedAsAbsent excludeAxon excludeBasal (getBranchByID tree branchID) /\
      cell (filoTypes s') treeIdx branchIdx = Some ABSENT) \/
     exists branch,
       getBranchByID tree branchID = Some branch /\
       (cell (filoTypes s') treeIdx branchIdx = Some BRANCH_ONLY \/
        (tailIsFilo filoDist (fst (worldLengths worldDist branch))
           (snd (worldLengths worldDist branch)) = true /\
         (cell (filoTypes s') treeIdx branchIdx = Some BRANCH_WITH_TERMINAL \/
          cell (filoTypes s') treeIdx branchIdx = Some BRANCH_WITH_INTERSTITIAL)))).
Proof.
  cbn [_recursiveFiloTypes]. unfold recursiveFiloTypes_body.
  unfold bind at 1, lift at 1, list_get.
  destruct (trees !! treeIdx) as [tree|]; [|discriminate].
  unfold bind at 1, lift at 1, list_get.
  destruct (branchIDList !! branchIdx) as [branchID|]; [|discriminate].
  intros Hrun. exists tree, branchID. split; [reflexivity|]. split; [reflexivity|].
  unfold treatedAsAbsent.
  destruct (getBranchByID tree branchID) as [branch|].
  2:{ left. split; [exact I|]. apply (setFiloType_cell _ _ _ _ _ Hrun). }
  destruct (isEmpty branch) eqn:He.
  { left. split; [now left|]. apply (setFiloType_cell _ _ _ _ _ Hrun). }
  destruct (excludeAxon && isAxon branch) eqn:Ha.
  { left. apply andb_true_iff in Ha. split; [right; now left|].
    apply (setFiloType_cell _ _ _ _ _ Hrun). }
  destruct (excludeBasal && isBasal branch) eqn:Hb.
  { left. apply andb_true_iff in Hb. split; [right; now right|].
    apply (setFiloType_cell _ _ _ _ _ Hrun). }
  right. exists branch. split; [reflexivity|].
  cbn [orb] in Hrun.
  destruct (negb (hasChildren branch)
            && (0 <=? lastPointWithLabelIdx (pointsWithRoot branch) "lam")%Z).
  { left. apply (setFiloType_cell _ _ _ _ _ Hrun). }
  destruct (worldLengths worldDist branch) as [total toLast]. cbn [fst snd].
  unfold bind at 1 in Hrun.
  destruct (foldM _ _ _ s) as [[force s1]|]; [|discriminate].
  apply ownRole_cell in Hrun. rewrite Hrun.
  destruct (tailIsFilo filoDist total toLast); [|now left].
  right. split; [reflexivity|]. destruct force; auto.
Qed.

End OwnRoleFacts.

(** X10: the role that a returning call of [_recursiveFiloTypes] leaves for
    its own branch is never TERMINAL and never INTERSTITIAL (those two are
    only given to a child by the walk along its parent), and it is
    BRANCH_WITH_TERMINAL or BRANCH_WITH_INTERSTITIAL only for a branch whose
    trailing segment is longer than 0 and shorter than [filoDist]. *)
Theorem recursiveFiloTypes_own_role
    worldDist branchIDList trees excludeAxon excludeBasal terminalDist filoDist
    fuel treeIdx branchIdx s s' :
  _recursiveFiloTypes worldDist branchIDList trees excludeAxon excludeBasal
    terminalDist filoDist fuel treeIdx branchIdx s = Ok (tt, s') ->
  exists role,
    getCell (filoTypes s') treeIdx branchIdx = Ok role /\
    role <> TERMINAL /\ role <> INTERSTITIAL /\
    (role = BRANCH_WITH_TERMINAL \/ role = BRANCH_WITH_INTERSTITIAL ->
     exists tree branchID branch,
       trees !! treeIdx = Some tree /\
       branchIDList !! branchIdx = Some branchID /\
       getBranchByID tree branchID = Some branch /\
       (0 < fst (worldLengths worldDist branch) - snd (worldLengths worldDist branch))%Q /\
       (fst (worldLengths worldDist branch) - snd (worldLengths worldDist branch)
          < filoDist)%Q).
Proof.
  destruct fuel as [|fuel]; [discriminate|]. intros Hrun.
  destruct (recursiveFiloTypes_final_role _ _ _ _ _ _ _ _ _ _ _ _ Hrun)
    as (tree & branchID & Htree & Hid & Hcase).
  destruct Hcase as [[_ Hc]|(branch & Hb & [Hc|[Htail [Hc|Hc]]])].
  - exists ABSENT. rewrite getCell_Ok.
    split; [exact Hc|]. repeat split; try discriminate. intros [?|?]; discriminate.
  - exists BRANCH_ONLY. rewrite getCell_Ok.
    split; [exact Hc|]. repeat split; try discriminate. intros [?|?]; discriminate.
  - exists BRANCH_WITH_TERMINAL. rewrite getCell_Ok.
    split; [exact Hc|]. repeat split; try discriminate. intros _.
    exists tree, branchID, branch.
    unfold tailIsFilo in Htail. apply andb_true_iff in Htail as [H1 H2].
    apply Qltb_lt in H1, H2. auto.
  - exists BRANCH_WITH_INTERSTITIAL. rewrite getCell_Ok.
    split; [exact Hc|]. repeat split; try discriminate. intros _.
    exists tree, branchID, branch.
    unfold tailIsFilo in Htail. apply andb_true_iff in Htail as [H1 H2].
    apply Qltb_lt in H1, H2. auto.
Qed.

Lemma recursiveFiloTypes_own_role_witness :
  exists s' role,
    _recursiveFiloTypes lineDist ["0000"; "0001"]%string growingTrees true true 10 10
      5 0 0 (freshState 2) = Ok (tt, s') /\
    getCell (filoTypes s') 0 0 = Ok role /\
    role <> TERMINAL /\ role <> INTERSTITIAL.
Proof.
  eexists.
  destruct (recursiveFiloTypes_own_role
              lineDist ["0000"; "0001"]%string growingTrees true true 10%Q 10%Q
              5 0 0 (freshState 2) _ ltac:(vm_compute; reflexivity))
    as (role & Hrole & Hnt & Hni & _).
  exists role. split; [vm_compute; reflexivity|]. auto.
Defined.

Lemma walk_childless_points worldDist branchIDList terminalDist filoDist recurse
    tree treeIdx branchIdx branch totalLength cumulativeLengths
    (l : list (nat * Point)) acc s :
  (forall ip, In ip l -> length (children (snd ip)) = 0) ->
  foldM l acc
    (walkPoint worldDist branchIDList terminalDist filoDist recurse tree
       treeIdx branchIdx branch totalLength cumulativeLengths) s = Ok (acc, s).
Proof.
  revert acc s. induction l as [|[i p] l IH]; intros acc s Hl; [reflexivity|].
  pose proof (Hl (i, p) (or_introl eq_refl)) as Hp. cbn [snd] in Hp.
  cbn [foldM]. unfold bind. unfold walkPoint at 1.
  rewrite Hp. cbn [Nat.eqb]. unfold ret at 1.
  apply IH. intros ip Hip. apply Hl. now right.
Qed.

Lemma In_zip_snd {A B} (l1 : list A) (l2 : list B) x :
  In x (zip l1 l2) -> In (snd x) l2.
Proof.
  revert l2. induction l1 as [|a l1 IH]; intros [|b l2] Hin; simpl in *; try tauto.
  destruct Hin as [<-|Hin]; [now left|right; now apply IH].
Qed.

Lemma hasChildren_false branch p :
  hasChildren branch = false -> In p (points branch) -> children p = [].
Proof.
  unfold hasChildren. intros H Hp.
  destruct (children p) as [|c cs] eqn:E; [reflexivity|].
  assert (Ht : existsb (fun p => negb (length (children p) =? 0)) (points branch) = true).
  { apply existsb_exists. exists p. split; [exact Hp|]. now rewrite E. }
  congruence.
Qed.

Lemma lastPointWithChildren_childless branch :
  hasChildren branch = false -> lastPointWithChildren branch = None.
Proof.
  intros H. unfold lastPointWithChildren.
  destruct (List.find _ (rev (points branch))) as [p|] eqn:E; [|reflexivity].
  apply find_some in E as [Hin Hp]. apply in_rev in Hin.
  rewrite (hasChildren_false branch p H Hin) in Hp. discriminate.
Qed.

(** X11: a branch without children that is classified by its own call, such
    as a filopodium that grows from the soma, never becomes TERMINAL.  When
    one of its points or its parent point carries a label that contains
    "lam", it is BRANCH_ONLY and keeps the master nodes it had.  Otherwise it
    is BRANCH_WITH_TERMINAL when its trailing segment is longer than 0 and
    shorter than [filoDist], and keeps the master nodes it had; and else it
    is BRANCH_ONLY, with itself as master node, or with none when the
    segment has length 0. *)
Theorem childless_branch_role
    worldDist branchIDList trees excludeAxon excludeBasal terminalDist filoDist
    fuel treeIdx branchIdx tree branchID branch s :
  trees !! treeIdx = Some tree ->
  branchIDList !! branchIdx = Some branchID ->
  getBranchByID tree branchID = Some branch ->
  isEmpty branch = false ->
  excludeAxon && isAxon branch = false ->
  excludeBasal && isBasal branch = false ->
  hasChildren branch = false ->
  is_Some (cell (filoTypes s) treeIdx branchIdx) ->
  is_Some (cell (masterNodes s) treeIdx branchIdx) ->
  exists s',
    _recursiveFiloTypes worldDist branchIDList trees excludeAxon excludeBasal
      terminalDist filoDist (S fuel) treeIdx branchIdx s = Ok (tt, s') /\
    getCell (filoTypes s') treeIdx branchIdx =
      Ok (if (0 <=? lastPointWithLabelIdx (pointsWithRoot branch) "lam")%Z
          then BRANCH_ONLY
          else if tailIsFilo filoDist (fst (worldLengths worldDist branch))
                    (snd (worldLengths worldDist branch))
          then BRANCH_WITH_TERMINAL else BRANCH_ONLY) /\
    getCell (masterNodes s') treeIdx branchIdx =
      if (0 <=? lastPointWithLabelIdx (pointsWithRoot branch) "lam")%Z
      then getCell (masterNodes s) treeIdx branchIdx
      else if tailIsFilo filoDist (fst (worldLengths worldDist branch))
                (snd (worldLengths worldDist branch))
      then getCell (masterNodes s) treeIdx branchIdx
      else if Qeq_bool (fst (worldLengths worldDist branch)
                        - snd (worldLengths worldDist branch)) 0
           then Ok [] else Ok [branchIdx].
Proof.
  intros Htree Hid Hfound Hne Hax Hbas Hkids Hft Hmn.
  cbn [_recursiveFiloTypes]. unfold recursiveFiloTypes_body.
  unfold bind at 1, lift at 1, list_get. rewrite Htree.
  unfold bind at 1, lift at 1, list_get. rewrite Hid, Hfound, Hne, Hax, Hbas, Hkids.
  cbn [orb negb andb].
  destruct (0 <=? lastPointWithLabelIdx (pointsWithRoot branch) "lam")%Z.
  { destruct (setFiloType_in_range treeIdx branchIdx BRANCH_ONLY s Hft)
      as (s1 & Hset & Hc & _ & Hm).
    exists s1. split; [exact Hset|]. rewrite Hm. split; [|reflexivity].
    now apply getCell_Ok. }
  destruct (worldLengths worldDist branch) as [total toLast]. cbn [fst snd].
  unfold bind at 1. rewrite walk_childless_points.
  2:{ intros ip Hip. apply In_zip_snd in Hip.
      now rewrite (hasChildren_false branch _ Hkids Hip). }
  unfold ownRole, tailIsFilo.
  destruct (Qltb 0 (total - toLast) && Qltb (total - toLast) filoDist).
  - destruct (setFiloType_in_range treeIdx branchIdx BRANCH_WITH_TERMINAL s Hft)
      as (s1 & Hset & Hc & _ & Hm).
    unfold bind. rewrite Hset, (lastPointWithChildren_childless branch Hkids).
    exists s1. split; [reflexivity|]. rewrite Hm. split; [|reflexivity].
    now apply getCell_Ok.
  - destruct (setFiloType_in_range treeIdx branchIdx BRANCH_ONLY s Hft)
      as (s1 & Hset & Hc & _ & Hm).
    destruct (Qeq_bool (total - toLast) 0).
    + destruct (last_point_of_nonempty (points branch)) as (p & Hlast & Hp).
      { unfold isEmpty in Hne. destruct (points branch); [discriminate|discriminate]. }
      destruct (setMasterNodes_in_range treeIdx branchIdx [] s1)
        as (s2 & Hset2 & Hc2 & Hf2); [now rewrite Hm|].
      unfold bind, lift. rewrite Hset, Hlast, (hasChildren_false branch p Hkids Hp).
      cbn [indexesInParent]. rewrite Hset2.
      exists s2. split; [reflexivity|]. rewrite !getCell_Ok, Hf2. auto.
    + destruct (setMasterNodes_in_range treeIdx branchIdx [branchIdx] s1)
        as (s2 & Hset2 & Hc2 & Hf2); [now rewrite Hm|].
      unfold bind. rewrite Hset, Hset2.
      exists s2. split; [reflexivity|]. rewrite !getCell_Ok, Hf2. auto.
Qed.

Lemma childless_branch_role_witness :
  (exists s',
     _recursiveFiloTypes lineDist ["0000"]%string [somaFiloTree] true true 10 10
       1 0 0 (mkFTState (full 1 1 ABSENT) (emptyArrayMatrix 1 1)) = Ok (tt, s') /\
     getCell (filoTypes s') 0 0 = Ok BRANCH_WITH_TERMINAL /\
     getCell (masterNodes s') 0 0 = Ok []) /\
  (exists s',
     _recursiveFiloTypes lineDist ["0000"]%string [lamellaTree] true true 10 10
       1 0 0 (mkFTState (full 1 1 ABSENT) (emptyArrayMatrix 1 1)) = Ok (tt, s') /\
     getCell (filoTypes s') 0 0 = Ok BRANCH_ONLY /\
     getCell (masterNodes s') 0 0 = Ok []).
Proof.
  split.
  - apply (childless_branch_role
             lineDist ["0000"]%string [somaFiloTree] true true 10%Q 10%Q
             0 0 0 somaFiloTree "0000"%string somaFilo
             (mkFTState (full 1 1 ABSENT) (emptyArrayMatrix 1 1)));
      try reflexivity; try (vm_compute; reflexivity); eexists; reflexivity.
  - apply (childless_branch_role
             lineDist ["0000"]%string [lamellaTree] true true 10%Q 10%Q
             0 0 0 lamellaTree "0000"%string lamella
             (mkFTState (full 1 1 ABSENT) (emptyArrayMatrix 1 1)));
      try reflexivity; try (vm_compute; reflexivity); eexists; reflexivity.
Defined.

(** * downgradeTerminals *)

Lemma onlyDowngrades_refl treeIdx s : onlyDowngrades treeIdx s s.
Proof. repeat split. intros t b. now left. Qed.

Lemma onlyDowngrades_trans treeIdx s1 s2 s3 :
  onlyDowngrades treeIdx s1 s2 -> onlyDowngrades treeIdx s2 s3 ->
  onlyDowngrades treeIdx s1 s3.
Proof.
  intros (Hm12 & Hs12 & H12) (Hm23 & Hs23 & H23).
  split; [congruence|]. split; [congruence|].
  intros t b.
  destruct (H23 t b) as [E23|(Ht' & Ht2 & Hi3)];
    destruct (H12 t b) as [E12|(Ht & Ht1 & Hi2)].
  - left. congruence.
  - right. rewrite E23. auto.
  - right. rewrite <- E12. auto.
  - congruence.
Qed.

(** The body of the inner loop of lines 140-143, for the child at position
    [childBranch]. *)
Lemma downgrade_child tree treeIdx childBranch s s' :
  (childBranchIdx <- lift (indexInParent tree childBranch) ;;
   ft <- getFiloType treeIdx childBranchIdx ;;
   if ft_eq ft TERMINAL
   then setFiloType treeIdx childBranchIdx INTERSTITIAL
   else ret tt)%py s = Ok (tt, s') ->
  onlyDowngrades treeIdx s s' /\
  exists role, cell (filoTypes s') treeIdx childBranch = Some role /\ role <> TERMINAL.
Proof.
  unfold bind, lift, indexInParent.
  destruct (childBranch <? length (branches tree)); [|discriminate].
  unfold getFiloType.
  destruct (getCell (filoTypes s) treeIdx childBranch) as [ft|] eqn:Hget; [|discriminate].
  apply getCell_Ok in Hget.
  destruct (ft_eq ft TERMINAL) eqn:Hft.
  - unfold setFiloType.
    destruct (setCell (filoTypes s) treeIdx childBranch INTERSTITIAL) as [m|] eqn:Hset;
      [|discriminate].
    intros [= <-]. cbn [filoTypes masterNodes]. split.
    + split; [reflexivity|]. split; [eapply setCell_shape; eauto|].
      intros t b. destruct (decide ((t, b) = (treeIdx, childBranch))) as [[= -> ->]|Hne].
      * right. split; [reflexivity|]. split.
        -- rewrite Hget. destruct ft; try discriminate Hft. reflexivity.
        -- eapply setCell_cell; eauto.
      * left. eapply setCell_cell_other; eauto.
    + exists INTERSTITIAL. split; [eapply setCell_cell; eauto|discriminate].
  - intros [= <-]. split; [apply onlyDowngrades_refl|].
    exists ft. split; [exact Hget|]. intros ->. discriminate.
Qed.

(** X12: the downgrade of lines 138-145 changes roles from TERMINAL to
    INTERSTITIAL only, in the row of the snapshot only, and leaves the master
    nodes alone.  When it returns, none of the columns that it visits (the
    positions of the children of the points up to [pointIdx] in the tree's
    list of branches) holds TERMINAL. *)
Theorem downgradeTerminals_effect tree treeIdx branch pointIdx s s' :
  downgradeTerminals tree treeIdx branch pointIdx s = Ok (tt, s') ->
  masterNodes s' = masterNodes s /\
  (forall t b,
     cell (filoTypes s') t b = cell (filoTypes s) t b \/
     (t = treeIdx /\
      cell (filoTypes s) t b = Some TERMINAL /\
      cell (filoTypes s') t b = Some INTERSTITIAL)) /\
  (forall i point childBranch,
     i <= pointIdx ->
     points branch !! i = Some point ->
     In childBranch (children point) ->
     exists role,
       getCell (filoTypes s') treeIdx childBranch = Ok role /\ role <> TERMINAL).
Proof.
  unfold downgradeTerminals. intros Hrun.
  set (inner := fun childBranch : nat =>
         (childBranchIdx <- lift (indexInParent tree childBranch) ;;
          ft <- getFiloType treeIdx childBranchIdx ;;
          if ft_eq ft TERMINAL
          then setFiloType treeIdx childBranchIdx INTERSTITIAL
          else ret tt)%py) in *.
  set (Q := fun (c : nat) (s0 : FTState) =>
         exists role, cell (filoTypes s0) treeIdx c = Some role /\ role <> TERMINAL).
  assert (Hinner : forall c, keeps (onlyDowngrades treeIdx) (inner c)).
  { intros c s0 [] s0' Hs0. apply (downgrade_child tree treeIdx c s0 s0' Hs0). }
  assert (Hpoint : forall p : Point,
            keeps (onlyDowngrades treeIdx) (forM_ (children p) inner)).
  { intros p. apply (keeps_forM_ _ (onlyDowngrades_refl treeIdx)
                       (onlyDowngrades_trans treeIdx)). exact Hinner. }
  assert (Hstable : forall c s0 s0', Q c s0 -> onlyDowngrades treeIdx s0 s0' -> Q c s0').
  { intros c s0 s0' (role & Hc & Hne) (_ & _ & HR).
    destruct (HR treeIdx c) as [Heq|(_ & _ & Hi)].
    - exists role. rewrite Heq. auto.
    - exists INTERSTITIAL. split; [exact Hi|discriminate]. }
  assert (Hall : keeps (onlyDowngrades treeIdx)
            (forM_ (take (S pointIdx) (points branch))
               (fun prevPoint => forM_ (children prevPoint) inner))).
  { apply (keeps_forM_ _ (onlyDowngrades_refl treeIdx) (onlyDowngrades_trans treeIdx)).
    exact Hpoint. }
  destruct (Hall _ _ _ Hrun) as (Hm & _ & Hcells).
  split; [exact Hm|]. split; [exact Hcells|].
  intros i point c Hi Hp Hc.
  assert (Hin : In point (take (S pointIdx) (points branch))).
  { apply list_elem_of_In. apply list_elem_of_lookup. exists i.
    rewrite lookup_take_lt by lia. exact Hp. }
  destruct (forM_establishes (onlyDowngrades treeIdx)
              (fun (p : Point) s0 => forall c0, In c0 (children p) -> Q c0 s0)
              (onlyDowngrades_refl treeIdx) (onlyDowngrades_trans treeIdx)
              (take (S pointIdx) (points branch))
              (fun prevPoint => forM_ (children prevPoint) inner)
              Hpoint) with (s := s) (s' := s') (x := point) (c0 := c)
    as (role & Hrole & Hne); auto.
  - intros p s0 s0' _ Hs0 c0 Hc0.
    apply (forM_establishes (onlyDowngrades treeIdx) Q
             (onlyDowngrades_refl treeIdx) (onlyDowngrades_trans treeIdx)
             (children p) inner Hinner) with (s := s0); auto.
    intros c1 s1 s1' _ Hs1. apply (downgrade_child tree treeIdx c1 s1 s1' Hs1).
  - intros p s0 s0' HQ HR c0 Hc0. eapply Hstable; eauto.
  - exists role. rewrite getCell_Ok. auto.
Qed.

Lemma downgradeTerminals_effect_witness :
  exists s',
    downgradeTerminals twoSidesTree 0 twoSidesTrunk 1
      (mkFTState [[ABSENT; TERMINAL; BRANCH_ONLY]] (emptyArrayMatrix 1 3))
      = Ok (tt, s') /\
    exists role, getCell (filoTypes s') 0 1 = Ok role /\ role <> TERMINAL.
Proof.
  eexists. split; [vm_compute; reflexivity|].
  destruct (downgradeTerminals_effect twoSidesTree 0 twoSidesTrunk 1
              (mkFTState [[ABSENT; TERMINAL; BRANCH_ONLY]] (emptyArrayMatrix 1 3)) _
              ltac:(vm_compute; reflexivity)) as (_ & _ & Hpost).
  apply (Hpost 0 (pt "a1" 10 0 [1]) 1); [lia|reflexivity|now left].
Defined.

(** * _lastPointWithLabel *)

Lemma prefix_append (s1 s2 : string) :
  String.prefix s1 s2 = true <-> exists post, s2 = (s1 ++ post)%string.
Proof.
  revert s2. induction s1 as [|a s1 IH]; intros s2; simpl.
  - split; [intros _; exists s2; reflexivity|].
    intros _. destruct s2; reflexivity.
  - destruct s2 as [|b s2]; simpl.
    + split; [discriminate|intros [post H]; discriminate].
    + destruct (Ascii.ascii_dec a b) as [->|Hne].
      * rewrite IH. split; intros [post H]; exists post; congruence.
      * split; [discriminate|intros [post H]; congruence].
Qed.

(** [s.find(label) != -1]: [label] occurs in [s]. *)
Lemma hasLabel_spec (s label : string) :
  hasLabel s label = true <-> exists pre post, s = (pre ++ label ++ post)%string.
Proof.
  unfold hasLabel.
  assert (H : forall s, (exists n, String.index 0 label s = Some n) <->
                        exists pre post, s = (pre ++ label ++ post)%string).
  { clear s. induction s as [|b s IH]; cbn [String.index].
    - destruct label; split.
      + intros _. exists ""%string, ""%string. reflexivity.
      + intros _. eexists; reflexivity.
      + intros [n H]; discriminate.
      + intros (pre & post & H). destruct pre; discriminate.
    - destruct (String.prefix label (String b s)) eqn:Hp.
      + split; [|intros _; eexists; reflexivity]. intros _.
        apply prefix_append in Hp as [post Hp]. exists ""%string, post. exact Hp.
      + split.
        * intros [n Hn]. destruct (String.index 0 label s) eqn:E; [|discriminate].
          destruct (proj1 IH (ex_intro _ _ eq_refl)) as (pre & post & ->).
          exists (String b pre), post. reflexivity.
        * intros (pre & post & H). destruct pre as [|c pre].
          -- simpl in H. assert (String.prefix label (String b s) = true)
               by (apply prefix_append; eauto). congruence.
          -- injection H as <- ->.
             destruct (proj2 IH (ex_intro _ pre (ex_intro _ post eq_refl))) as [n ->].
             eauto. }
  destruct (String.index 0 label s) as [n|] eqn:E.
  - split; [intros _; apply H; eauto|reflexivity].
  - split; [discriminate|]. intros Hex. apply H in Hex as [n Hn]. congruence.
Qed.

Lemma lastPointWithLabel_from_spec (ps : list Point) label i0 last0 :
  exists k,
    lastPointWithLabel_from i0 last0 (map Some ps) label = Ok k /\
    ((k = last0 /\ forall p, In p ps -> hasLabel (annotation p) label = false) \/
     exists j p,
       k = (i0 + Z.of_nat j)%Z /\ ps !! j = Some p /\
       hasLabel (annotation p) label = true /\
       forall j' q, j < j' -> ps !! j' = Some q ->
                    hasLabel (annotation q) label = false).
Proof.
  revert i0 last0. induction ps as [|p ps IH]; intros i0 last0; simpl.
  - exists last0. split; [reflexivity|]. left. split; [reflexivity|intros p []].
  - destruct (IH (i0 + 1)%Z (if hasLabel (annotation p) label then i0 else last0))
      as (k & Hk & Hcase).
    exists k. split; [exact Hk|].
    destruct Hcase as [[-> Hnone]|(j & q & -> & Hq & Hm & Hafter)].
    + destruct (hasLabel (annotation p) label) eqn:Hp.
      * right. exists 0, p. repeat split; auto with lia.
        intros [|j'] q' Hlt Hq'; [lia|]. simpl in Hq'.
        apply Hnone. eapply list_elem_of_In, list_elem_of_lookup_2; eauto.
      * left. split; [reflexivity|]. intros q [<-|Hq]; auto.
    + right. exists (S j), q. repeat split; auto with lia.
      intros [|j'] q' Hlt Hq'; [lia|]. simpl in Hq'. apply (Hafter j' q'); [lia|exact Hq'].
Qed.

(** X13: on a list of points that are all present, [_lastPointWithLabel]
    returns -1 when no annotation contains the label, and otherwise the
    index of the last point whose annotation contains it; it returns nothing
    else. *)
Theorem lastPointWithLabel_is_last_match (ps : list Point) (label : string) :
  exists k,
    _lastPointWithLabel (map Some ps) label = Ok k /\
    ((k = (-1)%Z /\
      forall p, In p ps ->
        ~ exists pre post, annotation p = (pre ++ label ++ post)%string) \/
     (exists j p,
        k = Z.of_nat j /\
        ps !! j = Some p /\
        (exists pre post, annotation p = (pre ++ label ++ post)%string) /\
        forall j' q, j < j' -> ps !! j' = Some q ->
          ~ exists pre post, annotation q = (pre ++ label ++ post)%string)).
Proof.
  unfold _lastPointWithLabel.
  destruct (lastPointWithLabel_from_spec ps label 0 (-1)) as (k & Hk & Hcase).
  exists k. split; [exact Hk|].
  assert (Hno : forall s, hasLabel s label = false <->
                          ~ exists pre post, s = (pre ++ label ++ post)%string).
  { intros s. rewrite <- hasLabel_spec. destruct (hasLabel s label); split; congruence. }
  destruct Hcase as [[-> Hnone]|(j & p & -> & Hp & Hm & Hafter)].
  - left. split; [reflexivity|]. intros p Hin. apply Hno. auto.
  - right. exists j, p. rewrite Z.add_0_l.
    split; [reflexivity|]. split; [exact Hp|]. split; [now apply hasLabel_spec|].
    intros j' q Hlt Hq. apply Hno. eauto.
Qed.

Lemma lastPointWithLabel_from_None (pts : list (option Point)) label i last0 :
  In None pts -> lastPointWithLabel_from i last0 pts label = Raise AttributeError.
Proof.
  revert i last0. induction pts as [|[p|] pts IH]; intros i last0 Hin; simpl.
  - destruct Hin.
  - destruct Hin as [Hp|Hin]; [discriminate|]. now apply IH.
  - reflexivity.
Qed.

(** X14: [_lastPointWithLabel] raises AttributeError as soon as the list
    holds [None] (the parent point of a branch that has none), whatever the
    other points are labelled. *)
Theorem lastPointWithLabel_raises_on_None (pts : list (option Point)) (label : string) :
  In None pts -> _lastPointWithLabel pts label = Raise AttributeError.
Proof. apply lastPointWithLabel_from_None. Qed.

Lemma lastPointWithLabel_raises_witness :
  _lastPointWithLabel [None; Some (pt "b1" 20 3 [])] "axon" = Raise AttributeError.
Proof.
  apply lastPointWithLabel_raises_on_None. left; reflexivity.
Defined.

(** * More about _calcFiloLengths *)

(** X15: for a branch without points [_calcFiloLengths] stores 0 and stops:
    no label is looked at (so a missing parent point does no harm), no child
    is visited, and no other cell changes. *)
Theorem calcFiloLengths_empty_branch
    worldDist fuel tree treeIdx branch excludeAxon excludeBasal filoDist b s :
  branchAt tree branch = Ok b ->
  points b = [] ->
  is_Some (cell s treeIdx branch) ->
  exists s',
    _calcFiloLengths worldDist (S fuel) tree treeIdx branch
      excludeAxon excludeBasal filoDist s = Ok (tt, s') /\
    getCell s' treeIdx branch = Ok (Fin 0) /\
    forall t r, (t, r) <> (treeIdx, branch) -> cell s' t r = cell s t r.
Proof.
  intros Hat Hempty Hcell.
  cbn [_calcFiloLengths]. unfold calcFiloLengths_body.
  unfold bind at 1, lift at 1. rewrite Hat.
  unfold bind at 1, lift at 1, indexInParent.
  assert (Hlt : branch < length (branches tree)).
  { unfold branchAt in Hat. destruct (branches tree !! branch) eqn:E; [|discriminate].
    eapply lookup_lt_Some; eauto. }
  rewrite (proj2 (Nat.ltb_lt _ _) Hlt), Hempty. cbn [map length Nat.ltb Nat.leb].
  destruct (setCell_in_range s treeIdx branch (Fin 0) Hcell) as [m Hm].
  unfold setFiloLength. rewrite Hm. exists m. split; [reflexivity|]. split.
  - apply getCell_Ok. eapply setCell_cell; eauto.
  - intros t r Hne. eapply setCell_cell_other; eauto.
Qed.

Lemma calcFiloLengths_empty_branch_witness :
  exists s',
    _calcFiloLengths lineDist 1 retractedTree 0 1 true true 10 [[Fin 7; NaN]]
      = Ok (tt, s') /\
    getCell s' 0 1 = Ok (Fin 0) /\
    getCell s' 0 0 = Ok (Fin 7).
Proof.
  destruct (calcFiloLengths_empty_branch
              lineDist 0 retractedTree 0 1 true true 10%Q
              (mkBranch "0001" [] None) [[Fin 7; NaN]])
    as (s' & Hrun & Hzero & Hother).
  - reflexivity.
  - reflexivity.
  - eexists; reflexivity.
  - exists s'. split; [exact Hrun|]. split; [exact Hzero|].
    apply getCell_Ok. rewrite Hother by discriminate. reflexivity.
Defined.

(** X16: for a branch that has points but no parent point,
    [_calcFiloLengths] raises AttributeError as soon as one of the two
    exclusions is switched on, because the label test reads the annotation of
    the missing parent. *)
Theorem calcFiloLengths_raises_without_parent
    worldDist fuel tree treeIdx branch excludeAxon excludeBasal filoDist b s :
  branchAt tree branch = Ok b ->
  parentPoint b = None ->
  1 <= length (points b) ->
  excludeAxon = true \/ excludeBasal = true ->
  _calcFiloLengths worldDist (S fuel) tree treeIdx branch
    excludeAxon excludeBasal filoDist s = Raise AttributeError.
Proof.
  intros Hat Hparent Hne Hex.
  cbn [_calcFiloLengths]. unfold calcFiloLengths_body.
  unfold bind at 1, lift at 1. rewrite Hat.
  unfold bind at 1, lift at 1, indexInParent.
  assert (Hlt : branch < length (branches tree)).
  { unfold branchAt in Hat. destruct (branches tree !! branch) eqn:E; [|discriminate].
    eapply lookup_lt_Some; eauto. }
  rewrite (proj2 (Nat.ltb_lt _ _) Hlt), Hparent.
  replace (length (None :: map Some (points b)) <? 2) with false.
  2:{ symmetry. apply Nat.ltb_ge. cbn [length]. rewrite length_map. lia. }
  assert (Hraise : forall label S0 (s0 : S0),
            excludedBy true (None :: map Some (points b)) label s0
            = Raise AttributeError).
  { intros label S0 s0. unfold excludedBy, bind, lift.
    unfold _lastPointWithLabel.
    rewrite lastPointWithLabel_from_None by (left; reflexivity). reflexivity. }
  destruct excludeAxon.
  - unfold bind at 1. now rewrite Hraise.
  - destruct Hex as [Hex|Hb]; [discriminate|]. subst excludeBasal.
    unfold bind at 1. unfold excludedBy at 1, ret at 1.
    unfold bind at 1. now rewrite Hraise.
Qed.

Lemma calcFiloLengths_raises_without_parent_witness :
  _calcFiloLengths lineDist 3 orphanTree 0 1 false true 10 (full 1 2 NaN)
    = Raise AttributeError.
Proof.
  apply (calcFiloLengths_raises_without_parent
           lineDist 2 orphanTree 0 1 false true 10%Q
           (mkBranch "0001" [pt "b1" 20 3 []] None)).
  - reflexivity.
  - reflexivity.
  - simpl; lia.
  - right; reflexivity.
Defined.

(** X17: on a well-formed snapshot (every branch has a parent point, the
    children of every point are registered branches, no cycles),
    [_calcFiloLengths] returns as soon as the fuel exceeds the rank of the
    branch and the array has the snapshot's row and a column for every
    branch; it then holds the value of the branch in the column of the
    branch's position, and has kept its shape. *)
Theorem calcFiloLengths_on_forest
    worldDist rank tree treeIdx excludeAxon excludeBasal filoDist nr nc
    fuel branch b s :
  wellFormedBy rank tree ->
  treeIdx < nr ->
  length (branches tree) <= nc ->
  rank branch < fuel ->
  branches tree !! branch = Some b ->
  shape s = replicate nr nc ->
  exists s' v,
    _calcFiloLengths worldDist fuel tree treeIdx branch
      excludeAxon excludeBasal filoDist s = Ok (tt, s') /\
    filoLengthOf worldDist excludeAxon excludeBasal filoDist b = Ok v /\
    getCell s' treeIdx branch = Ok v /\
    shape s' = replicate nr nc.
Proof.
  intros Hwf Ht Hnc Hrank Hb Hs.
  destruct (calcFiloLengths_returns worldDist rank tree treeIdx
              excludeAxon excludeBasal filoDist nr nc Hwf Ht Hnc fuel branch s)
    as (s' & Hrun & Hs'); auto.
  { eapply lookup_lt_Some; eauto. }
  destruct (calcFiloLengths_writes _ _ _ _ _ _ _ _ _ _ Hrun) as (b' & v & Hb' & Hv & Hc).
  rewrite Hb in Hb'. injection Hb' as <-.
  exists s', v. rewrite getCell_Ok. auto.
Qed.

Lemma calcFiloLengths_on_forest_witness :
  exists s' v,
    _calcFiloLengths lineDist 2 (sideBranchTree 25 3) 0 0 true true 10
      (full 1 2 NaN) = Ok (tt, s') /\
    filoLengthOf lineDist true true 10 (trunk 25) = Ok v /\
    getCell s' 0 0 = Ok v /\
    shape s' = [2].
Proof.
  apply (calcFiloLengths_on_forest
           lineDist positionRank (sideBranchTree 25 3) 0 true true 10%Q 1 2
           2 0 (trunk 25) (full 1 2 NaN)).
  - apply sideBranchTree_wellFormed.
  - lia.
  - simpl; lia.
  - unfold positionRank; lia.
  - reflexivity.
  - reflexivity.
Defined.

Lemma keeps_rows_calcFiloLengths worldDist fuel tree treeIdx branch
    excludeAxon excludeBasal filoDist t :
  t <> treeIdx ->
  keeps (fun s s' : Matrix npfloat => s' !! t = s !! t)
    (_calcFiloLengths worldDist fuel tree treeIdx branch
       excludeAxon excludeBasal filoDist).
Proof.
  intros Hne. revert branch.
  assert (Hrefl : forall s : Matrix npfloat, s !! t = s !! t) by reflexivity.
  assert (Htrans : forall s1 s2 s3 : Matrix npfloat,
            s2 !! t = s1 !! t -> s3 !! t = s2 !! t -> s3 !! t = s1 !! t)
    by (intros; congruence).
  assert (Hset : forall b v, keeps (fun s s' : Matrix npfloat => s' !! t = s !! t)
                               (setFiloLength treeIdx b v)).
  { intros b v s a s'. unfold setFiloLength.
    destruct (setCell s treeIdx b v) eqn:E; [|discriminate].
    intros [= _ <-]. eapply setCell_other_row; eauto. }
  induction fuel as [|fuel IH]; intros branch; [apply keeps_raise|].
  cbn [_calcFiloLengths]. unfold calcFiloLengths_body.
  repeat first
    [ apply (keeps_bind _ Htrans); [|intros ?]
    | apply (keeps_lift _ Hrefl)
    | apply Hset
    | apply (keeps_excludedBy _ Hrefl)
    | apply (keeps_forM_ _ Hrefl Htrans); intros ?
    | apply IH
    | match goal with
      | |- keeps _ (if ?c then _ else _) => destruct c
      | |- keeps _ (let '(_, _) := ?c in _) => destruct c
      end ].
Qed.

(** X18: a call of [_calcFiloLengths] for snapshot [treeIdx] writes into row
    [treeIdx] only: the other rows and the shape of the array are as
    before. *)
Theorem calcFiloLengths_writes_own_row
    worldDist fuel tree treeIdx branch excludeAxon excludeBasal filoDist s s' :
  _calcFiloLengths worldDist fuel tree treeIdx branch
    excludeAxon excludeBasal filoDist s = Ok (tt, s') ->
  shape s' = shape s /\
  forall t, t <> treeIdx -> s' !! t = s !! t.
Proof.
  intros Hrun. split.
  - exact (keeps_calcFiloLengths worldDist fuel tree treeIdx branch
             excludeAxon excludeBasal filoDist s tt s' Hrun).
  - intros t Hne.
    exact (keeps_rows_calcFiloLengths worldDist fuel tree treeIdx branch
             excludeAxon excludeBasal filoDist t Hne s tt s' Hrun).
Qed.

Lemma calcFiloLengths_writes_own_row_witness :
  exists s',
    _calcFiloLengths lineDist 2 (sideBranchTree 25 3) 1 0 true true 10
      [[Fin 1; Fin 2]; [NaN; NaN]] = Ok (tt, s') /\
    s' !! 0 = Some [Fin 1; Fin 2].
Proof.
  eexists. split; [vm_compute; reflexivity|].
  destruct (calcFiloLengths_writes_own_row
              lineDist 2 (sideBranchTree 25 3) 1 0 true true 10%Q
              [[Fin 1; Fin 2]; [NaN; NaN]] _ ltac:(vm_compute; reflexivity))
    as [_ Hrows].
  rewrite (Hrows 0) by discriminate. reflexivity.
Defined.

(** * More about motility *)

Lemma cell_maskCopy {A} (m : Matrix A) mask src t b :
  cell (maskCopy m mask src) t b =
    match cell m t b, cell mask t b, cell src t b with
    | Some x, Some c, Some y => Some (if c : bool then y else x)
    | _, _, _ => None
    end.
Proof.
  unfold cell, maskCopy. rewrite lookup_zip_with.
  destruct (m !! t) as [row|]; simpl; [|reflexivity].
  rewrite lookup_zip_with.
  destruct (mask !! t) as [mrow|]; simpl; [|destruct (row !! b); reflexivity].
  destruct (src !! t) as [srow|]; simpl.
  2:{ destruct (row !! b), (mrow !! b); reflexivity. }
  rewrite lookup_zip_with, lookup_zip_with.
  destruct (row !! b), (mrow !! b), (srow !! b); reflexivity.
Qed.

Lemma shape_maskCopy {A} (m : Matrix A) mask src nr nc :
  shape m = replicate nr nc -> shape mask = replicate nr nc ->
  shape src = replicate nr nc ->
  shape (maskCopy m mask src) = replicate nr nc.
Proof.
  unfold shape, maskCopy. revert mask src nr.
  induction m as [|r m IH]; intros [|mr mask] [|sr src] [|nr]; simpl;
    try discriminate; auto.
  intros [= H1 H1'] [= H2 H2'] [= H3 H3']. f_equal; [|eauto].
  rewrite length_zip_with, length_zip_with. lia.
Qed.

Section MotilityCells.

Variable worldDist : Location -> Location -> Q.
Variable TDBL : Tree -> bool -> bool -> bool -> Q -> npfloat.

(** The arrays that a successful run of [motility] is made of. *)
Lemma motility_arrays fuel trees excludeAxon excludeBasal includeAS
    terminalDist filoDist m filoLengths :
  motility worldDist TDBL fuel trees excludeAxon excludeBasal includeAS
    terminalDist filoDist = Ok (m, filoLengths) ->
  exists out,
    addedSubtractedTransitioned worldDist fuel trees excludeAxon excludeBasal
      terminalDist filoDist = Ok out /\
    shape filoLengths =
      replicate (length trees) (length (sortedBranchIDList trees)) /\
    raw m =
      (let base := maskFill (mzip fsub (rowsAfter filoLengths) (rowsBefore filoLengths))
                     (out_masterChanged out) NaN in
       if includeAS
       then maskCopy (maskCopy base (out_added out) (rowsAfter filoLengths))
              (out_subtracted out) (mmap fneg (rowsBefore filoLengths))
       else base) /\
    rawTDBL m =
      zip_with fdiv (map nansum (raw m))
        (removelast
           (map (fun tree => TDBL tree excludeAxon excludeBasal true filoDist) trees)) /\
    rawFilo m =
      zip_with fdiv (map nansum (raw m))
        (map nansum
           (maskFill (take (length (raw m)) filoLengths) (mmap isnan (raw m)) NaN)) /\
    rawNFilo m =
      zip_with fdiv (map nansum (raw m))
        (map ofCount (removelast (nFiloOf (out_filoTypes out)))).
Proof.
  unfold motility. intros H.
  destruct (addedSubtractedTransitioned _ _ _ _ _ _ _) as [out|] eqn:Hast; [|discriminate].
  destruct (List.last (map Some trees) None) as [lastTree|]; [|discriminate].
  destruct (forM_ _ _ _) as [[[] fl]|] eqn:Hrun; [|discriminate].
  destruct (length (branches lastTree) =? length (hd [] (out_filoTypes out)))
    eqn:Hcols; [|discriminate].
  apply Nat.eqb_eq in Hcols. cbn [negb] in H.
  injection H as <- <-. exists out. cbn [raw rawTDBL rawFilo rawNFilo].
  split; [reflexivity|]. split; [|repeat split; reflexivity].
  assert (Hk : keeps sameShape
            (forM_ (enumerate trees)
               (lengthsOfTree worldDist fuel excludeAxon excludeBasal filoDist))).
  { apply (keeps_forM_ _ sameShape_refl sameShape_trans).
    intros it. apply keeps_shape_lengthsOfTree. }
  rewrite (Hk _ _ _ Hrun), shape_full. f_equal. rewrite Hcols.
  destruct (addedSubtractedTransitioned_inv _ _ _ _ _ _ _ _ Hast) as (Hn & Hft & _).
  unfold shape in Hft. destruct (out_filoTypes out) as [|row ft].
  - destruct trees; [inversion Hn|discriminate].
  - destruct trees; [inversion Hn|]. simpl in Hft. now injection Hft.
Qed.

(** The raw motility of one cell. *)
Lemma raw_cell fuel trees excludeAxon excludeBasal includeAS
    terminalDist filoDist m filoLengths t b :
  motility worldDist TDBL fuel trees excludeAxon excludeBasal includeAS
    terminalDist filoDist = Ok (m, filoLengths) ->
  S t < length trees ->
  b < length (sortedBranchIDList trees) ->
  exists out changed add sub before after,
    addedSubtractedTransitioned worldDist fuel trees excludeAxon excludeBasal
      terminalDist filoDist = Ok out /\
    getCell (out_masterChanged out) t b = Ok changed /\
    getCell (out_added out) t b = Ok add /\
    getCell (out_subtracted out) t b = Ok sub /\
    getCell filoLengths t b = Ok before /\
    getCell filoLengths (S t) b = Ok after /\
    (changed = true -> add = false /\ sub = false) /\
    getCell (raw m) t b =
      Ok (if changed then NaN
          else if includeAS && sub then fneg before
          else if includeAS && add then after
          else fsub after before).
Proof.
  intros Hrun Ht Hb.
  destruct (motility_arrays _ _ _ _ _ _ _ _ _ Hrun)
    as (out & Hast & Hfl & Hraw & _).
  destruct (addedSubtractedTransitioned_inv _ _ _ _ _ _ _ _ Hast)
    as (_ & Hft & _ & Hmc & Hadd & Hsub & _).
  destruct (proj2 (cell_in_shape _ _ _ t b Hmc)) as [changed Hc]; [lia|].
  destruct (proj2 (cell_in_shape _ _ _ t b Hfl)) as [before Hb0]; [lia|].
  destruct (proj2 (cell_in_shape _ _ _ (S t) b Hfl)) as [after Hb1]; [lia|].
  destruct (rolesAt_in_shape _ _ _ t b Hft) as [[f0 f1] Hroles]; [lia|lia|].
  assert (Ha : cell (out_added out) t b
               = Some (if changed then false else addedAt f0 f1)).
  { now rewrite Hadd, cell_maskFill, cell_addedOf, Hroles, Hc. }
  assert (Hs : cell (out_subtracted out) t b
               = Some (if changed then false else subtractedAt f0 f1)).
  { now rewrite Hsub, cell_maskFill, cell_subtractedOf, Hroles, Hc. }
  assert (Hlen : length filoLengths = length trees) by (eapply shape_length; eauto).
  assert (Hbase : cell (maskFill (mzip fsub (rowsAfter filoLengths)
                                    (rowsBefore filoLengths))
                          (out_masterChanged out) NaN) t b
                  = Some (if changed then NaN else fsub after before)).
  { rewrite cell_maskFill, cell_mzip, cell_rowsAfter, cell_rowsBefore, Hlen.
    rewrite decide_True by lia. now rewrite Hb1, Hb0, Hc. }
  exists out, changed, (if changed then false else addedAt f0 f1),
    (if changed then false else subtractedAt f0 f1), before, after.
  rewrite !getCell_Ok.
  split; [exact Hast|]. split; [exact Hc|]. split; [exact Ha|].
  split; [exact Hs|]. split; [exact Hb0|]. split; [exact Hb1|].
  split; [intros ->; split; reflexivity|].
  rewrite Hraw. cbv zeta. destruct includeAS.
  - rewrite !cell_maskCopy, Hbase, Ha, Hs, cell_rowsAfter, Hb1, cell_mmap,
      cell_rowsBefore, Hlen.
    rewrite decide_True by lia. rewrite Hb0. simpl.
    destruct changed; [reflexivity|].
    destruct (subtractedAt f0 f1), (addedAt f0 f1); reflexivity.
  - rewrite Hbase. destruct changed; reflexivity.
Qed.

End MotilityCells.

(** X19: every cell of the raw motility is, in this order of precedence, NaN
    where [masterChanged] is true; with [includeAS], minus the length at t
    where [subtracted] is true and the length at t+1 where [added] is true;
    and the length at t+1 minus the length at t otherwise. *)
Theorem raw_motility_cell
    worldDist TDBL fuel trees excludeAxon excludeBasal includeAS
    terminalDist filoDist m filoLengths t b :
  motility worldDist TDBL fuel trees excludeAxon excludeBasal includeAS
    terminalDist filoDist = Ok (m, filoLengths) ->
  S t < length trees ->
  b < length (sortedBranchIDList trees) ->
  exists out changed add sub before after,
    addedSubtractedTransitioned worldDist fuel trees excludeAxon excludeBasal
      terminalDist filoDist = Ok out /\
    getCell (out_masterChanged out) t b = Ok changed /\
    getCell (out_added out) t b = Ok add /\
    getCell (out_subtracted out) t b = Ok sub /\
    getCell filoLengths t b = Ok before /\
    getCell filoLengths (S t) b = Ok after /\
    getCell (raw m) t b =
      Ok (if changed then NaN
          else if includeAS && sub then fneg before
          else if includeAS && add then after
          else fsub after before).
Proof.
  intros Hrun Ht Hb.
  destruct (raw_cell _ _ _ _ _ _ _ _ _ _ _ _ _ Hrun Ht Hb)
    as (out & changed & add & sub & before & after
        & Hast & Hc & Ha & Hs & Hb0 & Hb1 & _ & Hraw).
  exists out, changed, add, sub, before, after. auto 10.
Qed.

Lemma raw_motility_cell_witness :
  exists m filoLengths,
    motility lineDist unitTDBL 100 lateBranchTrees true true true 10 10
      = Ok (m, filoLengths) /\
    getCell (out_added
               (match addedSubtractedTransitioned lineDist 100 lateBranchTrees
                        true true 10 10 with
                | Ok out => out
                | Raise _ => mkASTOutput [] [] [] [] [] []
                end)) 0 1 = Ok true /\
    getCell filoLengths 1 1 = Ok (Fin 4) /\
    getCell (raw m) 0 1 = Ok (Fin 4).
Proof.
  eexists _, _. split; [vm_compute; reflexivity|].
  destruct (raw_motility_cell
              lineDist unitTDBL 100 lateBranchTrees true true true 10%Q 10%Q
              _ _ 0 1 ltac:(vm_compute; reflexivity) ltac:(simpl; lia)
              ltac:(vm_compute; lia))
    as (out & changed & add & sub & before & after
        & Hast & Hc & Ha & Hs & Hb0 & Hb1 & Hraw).
  vm_compute in Hast. injection Hast as <-.
  vm_compute in Hc. injection Hc as <-.
  vm_compute in Ha. injection Ha as <-.
  vm_compute in Hs. injection Hs as <-.
  vm_compute in Hb1. injection Hb1 as <-.
  split; [reflexivity|]. split; [reflexivity|]. exact Hraw.
Defined.

(** X20: where [masterChanged[t, b]] is true the raw motility is NaN, with
    and without [includeAS]: neither the difference of the lengths nor an
    addition or a subtraction is recorded for such a cell. *)
Theorem raw_motility_is_nan_where_master_changed
    worldDist TDBL fuel trees excludeAxon excludeBasal includeAS
    terminalDist filoDist m filoLengths out t b :
  motility worldDist TDBL fuel trees excludeAxon excludeBasal includeAS
    terminalDist filoDist = Ok (m, filoLengths) ->
  addedSubtractedTransitioned worldDist fuel trees excludeAxon excludeBasal
    terminalDist filoDist = Ok out ->
  getCell (out_masterChanged out) t b = Ok true ->
  getCell (raw m) t b = Ok NaN.
Proof.
  intros Hrun Hast Hmc.
  destruct (addedSubtractedTransitioned_inv _ _ _ _ _ _ _ _ Hast)
    as (_ & _ & _ & Hshape & _).
  assert (Hin : t < length trees - 1 /\ b < length (sortedBranchIDList trees)).
  { eapply cell_in_shape; [exact Hshape|]. apply getCell_Ok in Hmc. rewrite Hmc. eauto. }
  destruct (raw_cell _ _ _ _ _ _ _ _ _ _ _ t b Hrun)
    as (out' & changed & add & sub & before & after
        & Hast' & Hc & _ & _ & _ & _ & _ & Hraw); [lia|lia|].
  rewrite Hast in Hast'. injection Hast' as <-.
  rewrite Hmc in Hc. injection Hc as <-. exact Hraw.
Qed.

Lemma raw_motility_is_nan_witness :
  exists m filoLengths,
    motility lineDist unitTDBL 100 growingTrees true true true 10 10
      = Ok (m, filoLengths) /\
    getCell (raw m) 0 1 = Ok NaN.
Proof.
  eexists _, _. split; [vm_compute; reflexivity|].
  eapply (raw_motility_is_nan_where_master_changed
            lineDist unitTDBL 100 growingTrees true true true 10%Q 10%Q);
    vm_compute; reflexivity.
Defined.

Lemma shape_maskFill {A} (m : Matrix A) mask v nr nc :
  shape m = replicate nr nc -> shape mask = replicate nr nc ->
  shape (maskFill m mask v) = replicate nr nc.
Proof. intros H1 H2. unfold maskFill. now apply shape_mzip. Qed.

Lemma length_removelast_map {A B} (f : A -> B) (l : list A) :
  length (removelast (map f l)) = length l - 1.
Proof.
  rewrite removelast_firstn_len, length_map, length_take, length_map. lia.
Qed.

Lemma lookup_removelast {A} (l : list A) t :
  S t < length l -> removelast l !! t = l !! t.
Proof.
  intros H. rewrite removelast_firstn_len.
  apply lookup_take_lt. change Init.Nat.pred with Nat.pred. lia.
Qed.

Section MotilityAggregates.

Variable worldDist : Location -> Location -> Q.
Variable TDBL : Tree -> bool -> bool -> bool -> Q -> npfloat.

Lemma shape_raw fuel trees excludeAxon excludeBasal includeAS
    terminalDist filoDist m filoLengths :
  motility worldDist TDBL fuel trees excludeAxon excludeBasal includeAS
    terminalDist filoDist = Ok (m, filoLengths) ->
  shape (raw m) =
    replicate (length trees - 1) (length (sortedBranchIDList trees)).
Proof.
  intros Hrun.
  destruct (motility_arrays _ _ _ _ _ _ _ _ _ _ _ Hrun)
    as (out & Hast & Hfl & Hraw & _).
  destruct (addedSubtractedTransitioned_inv _ _ _ _ _ _ _ _ Hast)
    as (_ & Hft & _ & Hmc & Hadd & Hsub & _).
  pose proof (shape_events _ _ _ Hft) as (Ha & Hs & _).
  pose proof Hmc as Hmc'.
  rewrite Hraw. cbv zeta.
  pose proof (shape_rowsAfter _ _ _ Hfl) as HA.
  pose proof (shape_rowsBefore _ _ _ Hfl) as HB.
  assert (Hbase : shape (maskFill (mzip fsub (rowsAfter filoLengths)
                                     (rowsBefore filoLengths))
                           (out_masterChanged out) NaN)
                  = replicate (length trees - 1) (length (sortedBranchIDList trees))).
  { apply shape_maskFill; [|exact Hmc']. now apply shape_mzip. }
  destruct includeAS; [|exact Hbase].
  rewrite Hadd, Hsub.
  apply shape_maskCopy.
  - apply shape_maskCopy; [exact Hbase| |exact HA].
    apply shape_maskFill; [exact Ha|exact Hmc'].
  - apply shape_maskFill; [exact Hs|exact Hmc'].
  - now apply shape_mmap_replicate.
Qed.


Lemma length_raw fuel trees excludeAxon excludeBasal includeAS
    terminalDist filoDist m filoLengths :
  motility worldDist TDBL fuel trees excludeAxon excludeBasal includeAS
    terminalDist filoDist = Ok (m, filoLengths) ->
  length (raw m) = length trees - 1 /\ length filoLengths = length trees.
Proof.
  intros Hrun. split.
  - eapply shape_length, shape_raw, Hrun.
  - destruct (motility_arrays _ _ _ _ _ _ _ _ _ _ _ Hrun) as (out & _ & Hfl & _).
    eapply shape_length, Hfl.
Qed.

End MotilityAggregates.

(** X21: for n snapshots, the raw motility has n-1 rows (one per pair of
    consecutive snapshots) of one column per branch id, and each of the
    three aggregates has n-1 entries. *)
Theorem motility_result_sizes
    worldDist TDBL fuel trees excludeAxon excludeBasal includeAS
    terminalDist filoDist m filoLengths :
  motility worldDist TDBL fuel trees excludeAxon excludeBasal includeAS
    terminalDist filoDist = Ok (m, filoLengths) ->
  shape (raw m) =
    replicate (length trees - 1) (length (sortedBranchIDList trees)) /\
  length (rawTDBL m) = length trees - 1 /\
  length (rawFilo m) = length trees - 1 /\
  length (rawNFilo m) = length trees - 1.
Proof.
  intros Hrun.
  pose proof (shape_raw _ _ _ _ _ _ _ _ _ _ _ Hrun) as Hshape.
  destruct (length_raw _ _ _ _ _ _ _ _ _ _ _ Hrun) as [Hlen Hfl].
  destruct (motility_arrays _ _ _ _ _ _ _ _ _ _ _ Hrun)
    as (out & Hast & _ & _ & HT & HF & HN).
  destruct (addedSubtractedTransitioned_inv _ _ _ _ _ _ _ _ Hast)
    as (_ & Hft & _).
  split; [exact Hshape|].
  rewrite HT, HF, HN.
  rewrite !length_zip_with, !length_map, length_removelast_map.
  unfold maskFill, mzip, mmap. rewrite length_zip_with, length_fmap, length_take.
  rewrite removelast_firstn_len, length_take.
  unfold nFiloOf, countTrue. rewrite length_map.
  unfold mzip, mmap. rewrite length_zip_with, !length_fmap.
  apply shape_length in Hft. rewrite Hlen, Hfl, Hft.
  change Init.Nat.pred with Nat.pred. lia.
Qed.

Lemma motility_result_sizes_witness :
  exists m filoLengths,
    motility lineDist unitTDBL 100 growingTrees true true false 10 10
      = Ok (m, filoLengths) /\
    shape (raw m) = replicate 1 (length (sortedBranchIDList growingTrees)) /\
    length (rawTDBL m) = 1 /\ length (rawFilo m) = 1 /\ length (rawNFilo m) = 1.
Proof.
  eexists _, _. split; [vm_compute; reflexivity|].
  eapply (motility_result_sizes
            lineDist unitTDBL 100 growingTrees true true false 10%Q 10%Q).
  vm_compute; reflexivity.
Defined.

(** X22: the aggregates of the pair (t, t+1) are normalised by the earlier
    snapshot: [rawTDBL[t]] is the NaN-ignoring sum of row t of the raw
    motility divided by the TDBL of snapshot t, computed with filopodia
    included; [rawFilo[t]] divides the same sum by the NaN-ignoring sum of the
    lengths at t of the cells whose raw motility is not NaN. *)
Theorem aggregates_normalise_by_earlier_snapshot
    worldDist TDBL fuel trees excludeAxon excludeBasal includeAS
    terminalDist filoDist m filoLengths t tree :
  motility worldDist TDBL fuel trees excludeAxon excludeBasal includeAS
    terminalDist filoDist = Ok (m, filoLengths) ->
  S t < length trees ->
  trees !! t = Some tree ->
  exists row lengths,
    raw m !! t = Some row /\
    filoLengths !! t = Some lengths /\
    rawTDBL m !! t =
      Some (fdiv (nansum row) (TDBL tree excludeAxon excludeBasal true filoDist)) /\
    rawFilo m !! t =
      Some (fdiv (nansum row)
              (nansum (zip_with (fun len mot => if isnan mot then NaN else len)
                         lengths row))).
Proof.
  intros Hrun Ht Htree.
  destruct (length_raw _ _ _ _ _ _ _ _ _ _ _ Hrun) as [Hlen Hfl].
  destruct (motility_arrays _ _ _ _ _ _ _ _ _ _ _ Hrun)
    as (out & _ & _ & _ & HT & HF & _).
  destruct (lookup_lt_is_Some_2 (raw m) t) as [row Hrow]; [lia|].
  destruct (lookup_lt_is_Some_2 filoLengths t) as [lengths Hlengths]; [lia|].
  exists row, lengths. split; [exact Hrow|]. split; [exact Hlengths|]. split.
  - rewrite HT, lookup_zip_with, lookup_map, Hrow. simpl.
    rewrite lookup_removelast by (rewrite length_map; lia).
    now rewrite lookup_map, Htree.
  - rewrite HF, lookup_zip_with, !lookup_map, Hrow. simpl.
    unfold maskFill, mzip, mmap.
    rewrite lookup_zip_with, lookup_take_lt by lia.
    rewrite Hlengths, list_lookup_fmap, Hrow. simpl.
    assert (Hz : forall (ls rs : list npfloat),
               zip_with (fun (x : npfloat) (c : bool) => if c then NaN else x)
                 ls (isnan <$> rs)
               = zip_with (fun len mot => if isnan mot then NaN else len) ls rs).
    { induction ls as [|x ls IH]; intros [|y rs]; simpl; try reflexivity.
      f_equal. apply IH. }
    now rewrite Hz.
Qed.

Lemma aggregates_normalise_witness :
  exists m filoLengths row lengths,
    motility lineDist unitTDBL 100 growingTrees true true false 10 10
      = Ok (m, filoLengths) /\
    raw m !! 0 = Some row /\
    filoLengths !! 0 = Some lengths /\
    rawTDBL m !! 0 = Some (fdiv (nansum row) (unitTDBL (sideBranchTree 25 3) true true true 10)).
Proof.
  eexists _, _.
  destruct (aggregates_normalise_by_earlier_snapshot
              lineDist unitTDBL 100 growingTrees true true false 10%Q 10%Q
              _ _ 0 (sideBranchTree 25 3)
              ltac:(vm_compute; reflexivity) ltac:(simpl; lia) ltac:(reflexivity))
    as (row & lengths & Hrow & Hlengths & HT & _).
  exists row, lengths. auto.
Defined.

(** * tree.py: lookups and [addBranch] *)

Lemma find_app {A} (p : A -> bool) (l1 l2 : list A) :
  List.find p (l1 ++ l2) =
    match List.find p l1 with
    | Some x => Some x
    | None => List.find p l2
    end.
Proof.
  induction l1 as [|a l1 IH]; simpl; [reflexivity|].
  destruct (p a); [reflexivity|exact IH].
Qed.

Lemma flatten_all_points (tree : Tree) pts :
  fold_left (fun pts b => pts ++ points b) (branches tree) pts
  = pts ++ flat_map points (branches tree).
Proof.
  revert pts. induction (branches tree) as [|b bs IH]; intros pts; simpl.
  - now rewrite app_nil_r.
  - now rewrite IH, app_assoc.
Qed.

(** X23: [getBranchByID] returns the first branch of [tree.branches] that
    has the id, so a later branch with the same id is never returned; it
    returns [None] exactly when no branch has the id. *)
Theorem getBranchByID_first_match (tree : Tree) (branchID : string) :
  match getBranchByID tree branchID with
  | Some b =>
      exists i, branches tree !! i = Some b /\ branch_id b = branchID /\
        forall j b', j < i -> branches tree !! j = Some b' ->
          branch_id b' <> branchID
  | None => forall b, In b (branches tree) -> branch_id b <> branchID
  end.
Proof.
  unfold getBranchByID.
  pose proof (find_first_match (fun b => String.eqb (branch_id b) branchID)
                (branches tree)) as H.
  destruct (List.find _ (branches tree)) as [b|].
  - destruct H as (i & Hi & Hb & Hbefore).
    exists i. split; [exact Hi|]. split; [now apply String.eqb_eq|].
    intros j b' Hj Hb'. apply String.eqb_neq. eapply Hbefore; eauto.
  - intros b Hb. apply String.eqb_neq. now apply H.
Qed.

(** X24: [addBranch] returns the position at which the tree then holds the
    branch, leaves the root and the branches that were there in place, and
    changes no lookup by id that succeeded before: the new branch is found
    by its id only if the tree had no branch of that id. *)
Theorem addBranch_then_lookup (tree : Tree) (branch : Branch) :
  fst (addBranch tree branch) = length (branches tree) /\
  branchAt (snd (addBranch tree branch)) (fst (addBranch tree branch)) = Ok branch /\
  indexInParent (snd (addBranch tree branch)) (fst (addBranch tree branch))
    = Ok (fst (addBranch tree branch)) /\
  rootPoint (snd (addBranch tree branch)) = rootPoint tree /\
  (forall i, i < length (branches tree) ->
     branches (snd (addBranch tree branch)) !! i = branches tree !! i) /\
  (forall branchID,
     getBranchByID (snd (addBranch tree branch)) branchID =
       match getBranchByID tree branchID with
       | Some b => Some b
       | None => if String.eqb (branch_id branch) branchID
                 then Some branch else None
       end).
Proof.
  unfold addBranch. cbn [fst snd branches rootPoint].
  rewrite length_app. cbn [length].
  replace (length (branches tree) + 1 - 1) with (length (branches tree)) by lia.
  split; [reflexivity|]. split.
  { unfold branchAt. cbn [branches].
    rewrite lookup_app_r by lia. now rewrite Nat.sub_diag. }
  split.
  { unfold indexInParent. cbn [branches]. rewrite length_app. cbn [length].
    destruct (Nat.ltb_spec (length (branches tree)) (length (branches tree) + 1));
      [reflexivity|lia]. }
  split; [reflexivity|]. split.
  { intros i Hi. now apply lookup_app_l. }
  intros branchID. unfold getBranchByID. cbn [branches].
  rewrite find_app. destruct (List.find _ (branches tree)); [reflexivity|].
  simpl. destruct (String.eqb (branch_id branch) branchID); reflexivity.
Qed.

(** X25: with [includeDisconnected], [getPointByID] searches the root and
    then the points of every branch of [tree.branches]: a point it returns
    has the id and is the root or lies on a branch of the tree, and it
    returns [None] exactly when the tree has no root (whatever its branches
    hold) or none of these points has the id.  A root with the id is
    returned before any other point. *)
Theorem getPointByID_disconnected
    (flattenSubtreePoints : Point -> list Point) (tree : Tree) (pointID : string) :
  match getPointByID flattenSubtreePoints tree pointID true with
  | Some p =>
      point_id p = pointID /\
      (rootPoint tree = Some p \/
       exists root, rootPoint tree = Some root /\ point_id root <> pointID /\
         exists b, In b (branches tree) /\ In p (points b))
  | None =>
      rootPoint tree = None \/
      (exists root, rootPoint tree = Some root /\ point_id root <> pointID) /\
      forall b p, In b (branches tree) -> In p (points b) -> point_id p <> pointID
  end.
Proof.
  unfold getPointByID, flattenPoints.
  destruct (rootPoint tree) as [root|]; [|simpl; now left].
  cbn [negb]. rewrite flatten_all_points. cbn [app List.find].
  destruct (String.eqb (point_id root) pointID) eqn:Hroot.
  - split; [now apply String.eqb_eq|now left].
  - apply String.eqb_neq in Hroot.
    pose proof (find_first_match (fun point => String.eqb (point_id point) pointID)
                  (flat_map points (branches tree))) as H.
    destruct (List.find _ (flat_map points (branches tree))) as [p|].
    + destruct H as (i & Hi & Hp & _). split; [now apply String.eqb_eq|].
      right. exists root. split; [reflexivity|]. split; [exact Hroot|].
      assert (Hin : In p (flat_map points (branches tree))).
      { apply list_elem_of_In. eapply list_elem_of_lookup_2. exact Hi. }
      apply in_flat_map in Hin. exact Hin.
    + right. split; [now exists root|].
      intros b p Hb Hp. apply String.eqb_neq. apply H.
      apply in_flat_map. now exists b.
Qed.

(** * util.py *)

Lemma fle_refl x : isnan x = false -> fle x x = true.
Proof.
  destruct x; simpl; try reflexivity; try discriminate.
  intros _. apply Qle_bool_iff. apply Qle_refl.
Qed.

Lemma fle_total x y :
  isnan x = false -> isnan y = false -> fle x y = false -> fle y x = true.
Proof.
  destruct x as [a| | |], y as [b| | |]; simpl; try discriminate; try reflexivity.
  intros _ _ H. apply Qle_bool_iff.
  destruct (Qlt_le_dec b a) as [Hlt|Hle]; [now apply Qlt_le_weak|].
  apply Qle_bool_iff in Hle. congruence.
Qed.

Lemma fle_trans x y z : fle x y = true -> fle y z = true -> fle x z = true.
Proof.
  destruct x as [a| | |], y as [b| | |], z as [c| | |]; simpl;
    try discriminate; try reflexivity.
  rewrite !Qle_bool_iff. apply Qle_trans.
Qed.

Lemma fle_antisym x y : fle x y = true -> fle y x = true -> sameFloat x y.
Proof.
  destruct x as [a| | |], y as [b| | |]; simpl; try discriminate; try easy.
  rewrite !Qle_bool_iff. apply Qle_antisym.
Qed.

Lemma sameFloat_refl x : sameFloat x x.
Proof. destruct x; simpl; auto. apply Qeq_refl. Qed.

Lemma fminimum_cases a b :
  isnan a = false -> isnan b = false ->
  fminimum a b = if fle a b then a else b.
Proof. destruct a, b; simpl; try discriminate; reflexivity. Qed.

Lemma fmaximum_cases a b :
  isnan a = false -> isnan b = false ->
  fmaximum a b = if fle b a then a else b.
Proof. destruct a, b; simpl; try discriminate; reflexivity. Qed.

(** X26: on numbers (no NaN among the three), [snapToRange(x, lo, hi)] with
    [lo <= hi] lies in [[lo, hi]], is [x] when [x] lies in the range, [lo]
    when [x <= lo] and [hi] when [hi <= x]; with [lo > hi] the result is
    [lo] for every [x]. *)
Theorem snapToRange_clamps (x lo hi : npfloat) :
  isnan x = false -> isnan lo = false -> isnan hi = false ->
  (fle lo hi = true ->
     fle lo (snapToRange x lo hi) = true /\
     fle (snapToRange x lo hi) hi = true /\
     (fle lo x = true -> fle x hi = true -> sameFloat (snapToRange x lo hi) x) /\
     (fle x lo = true -> snapToRange x lo hi = lo) /\
     (fle hi x = true -> sameFloat (snapToRange x lo hi) hi)) /\
  (fle lo hi = false -> snapToRange x lo hi = lo).
Proof.
  intros Hx Hlo Hhi. unfold snapToRange.
  rewrite (fminimum_cases hi x Hhi Hx).
  assert (Hm : isnan (if fle hi x then hi else x) = false)
    by (destruct (fle hi x); assumption).
  rewrite (fmaximum_cases lo _ Hlo Hm).
  split.
  - intros Hrange.
    destruct (fle hi x) eqn:Hhx.
    + destruct (fle hi lo) eqn:Hhl.
      * split; [now apply fle_refl|]. split; [exact Hrange|].
        split; [intros Hlx Hxh; apply fle_antisym;
                  [exact Hlx|eapply fle_trans; eauto]|].
        split; [reflexivity|]. intros _. now apply fle_antisym.
      * split; [exact Hrange|]. split; [now apply fle_refl|].
        split; [intros Hlx Hxh; now apply fle_antisym|].
        split; [|intros _; apply sameFloat_refl].
        intros Hxl. rewrite (fle_trans _ _ _ Hhx Hxl) in Hhl. discriminate.
    + pose proof (fle_total _ _ Hhi Hx Hhx) as Hxh.
      destruct (fle x lo) eqn:Hxl.
      * split; [now apply fle_refl|]. split; [exact Hrange|].
        split; [intros Hlx _; now apply fle_antisym|].
        split; [reflexivity|]. discriminate.
      * split; [now apply fle_total|]. split; [exact Hxh|].
        split; [intros _ _; apply sameFloat_refl|].
        split; discriminate.
  - intros Hinv. pose proof (fle_total _ _ Hlo Hhi Hinv) as Hhl.
    destruct (fle hi x) eqn:Hhx; [now rewrite Hhl|].
    pose proof (fle_total _ _ Hhi Hx Hhx) as Hxh.
    now rewrite (fle_trans _ _ _ Hxh Hhl).
Qed.

Lemma snapToRange_clamps_witness :
  snapToRange (Fin 12) (Fin 0) (Fin 10) = Fin 10 /\
  snapToRange (Fin 5) (Fin 10) (Fin 0) = Fin 10 /\
  fle (Fin 0) (snapToRange (Fin 12) (Fin 0) (Fin 10)) = true.
Proof.
  split; [reflexivity|]. split.
  - apply (snapToRange_clamps (Fin 5) (Fin 10) (Fin 0)); reflexivity.
  - apply (snapToRange_clamps (Fin 12) (Fin 0) (Fin 10)); reflexivity.
Defined.

Lemma emptyArrayArray_replicate {A} (c : Z) :
  emptyArrayArray (A:=A) c = replicate (Z.to_nat c) [].
Proof.
  unfold emptyArrayArray, range.
  assert (H : forall (l : list nat) (d : list (list A)),
             fold_left (fun d _ => d ++ [[]]) (map Z.of_nat l) d
             = d ++ replicate (length l) []).
  { induction l as [|i l IH]; intros d; simpl; [now rewrite app_nil_r|].
    rewrite IH, <- app_assoc. reflexivity. }
  rewrite H, length_seq. reflexivity.
Qed.

(** X27: [emptyArrayMatrix(r, c)], as its two loops build it, is the array
    of [r] rows of [c] empty lists that the analysis starts from; a negative
    count gives no rows (or rows without cells). *)
Theorem emptyArrayMatrix_is_full {A} (r c : Z) :
  emptyArrayMatrixLoop (A:=A) r c = emptyArrayMatrix (Z.to_nat r) (Z.to_nat c) /\
  shape (emptyArrayMatrixLoop (A:=A) r c) = replicate (Z.to_nat r) (Z.to_nat c) /\
  forall t b, t < Z.to_nat r -> b < Z.to_nat c ->
    getCell (emptyArrayMatrixLoop (A:=A) r c) t b = Ok [].
Proof.
  assert (E : emptyArrayMatrixLoop (A:=A) r c
              = emptyArrayMatrix (Z.to_nat r) (Z.to_nat c)).
  { unfold emptyArrayMatrixLoop, emptyArrayMatrix, full, range.
    rewrite emptyArrayArray_replicate.
    assert (H : forall (l : list nat) (d : Matrix (list A)),
               fold_left (fun d _ => d ++ [replicate (Z.to_nat c) []])
                 (map Z.of_nat l) d
               = d ++ replicate (length l) (replicate (Z.to_nat c) [])).
    { induction l as [|i l IH]; intros d; simpl; [now rewrite app_nil_r|].
      rewrite IH, <- app_assoc. reflexivity. }
    rewrite H, length_seq. reflexivity. }
  split; [exact E|]. rewrite E. unfold emptyArrayMatrix.
  split; [apply shape_full|].
  intros t b Ht Hb. unfold getCell, full, list_get.
  rewrite lookup_replicate_2 by exact Ht.
  now rewrite lookup_replicate_2 by exact Hb.
Qed.

(** * swc.py *)

(** ** Strings *)

Lemma strlen_app (a b : string) :
  String.length (String.append a b) = String.length a + String.length b.
Proof. induction a as [|c a IH]; simpl; [reflexivity|now rewrite IH]. Qed.

Lemma substring_all (s : string) : substring 0 (String.length s) s = s.
Proof. induction s as [|c s IH]; simpl; [reflexivity|now rewrite IH]. Qed.

Lemma substring_prefix (a b : string) :
  substring 0 (String.length a) (String.append a b) = a.
Proof.
  induction a as [|c a IH]; simpl; [now destruct b|now rewrite IH].
Qed.

Lemma substring_skip (a b : string) n m :
  substring (String.length a + n) m (String.append a b) = substring n m b.
Proof. induction a as [|c a IH]; simpl; [reflexivity|exact IH]. Qed.

Lemma contains_app c (a b : string) :
  contains c (String.append a b) = contains c a || contains c b.
Proof.
  induction a as [|c' a IH]; simpl; [reflexivity|].
  now rewrite IH, orb_assoc.
Qed.

Lemma space_is_not_equals c : isspace c = true -> Ascii.eqb c "=" = false.
Proof.
  intros H. destruct (Ascii.eqb c "=") eqn:E; [|reflexivity].
  apply Ascii.eqb_eq in E. subst c. discriminate H.
Qed.

Lemma allSpace_no_equals ws : allSpace ws = true -> contains "=" ws = false.
Proof.
  induction ws as [|c ws IH]; simpl; [reflexivity|].
  intros H. apply andb_true_iff in H as [Hc Hws].
  now rewrite (space_is_not_equals c Hc), IH.
Qed.

Lemma find_first (pre post : string) :
  contains "=" pre = false ->
  find "=" (String.append pre (String "=" post)) = Z.of_nat (String.length pre).
Proof.
  induction pre as [|c pre IH]; simpl; [reflexivity|].
  intros H. apply orb_false_iff in H as [Hc Hpre].
  rewrite Hc, (IH Hpre).
  destruct (Z.ltb_spec (Z.of_nat (String.length pre)) 0); lia.
Qed.

Lemma lstrip_spaces ws s : allSpace ws = true -> lstrip (String.append ws s) = lstrip s.
Proof.
  induction ws as [|c ws IH]; simpl; [reflexivity|].
  intros H. apply andb_true_iff in H as [Hc Hws]. now rewrite Hc, IH.
Qed.

Lemma rstrip_only_spaces ws : allSpace ws = true -> rstripBy isspace ws = EmptyString.
Proof.
  induction ws as [|c ws IH]; simpl; [reflexivity|].
  intros H. apply andb_true_iff in H as [Hc Hws]. now rewrite (IH Hws), Hc.
Qed.

Lemma rstrip_spaces s ws :
  allSpace ws = true ->
  rstripBy isspace (String.append s ws) = rstripBy isspace s.
Proof.
  intros H. induction s as [|c s IH]; simpl.
  - now apply rstrip_only_spaces.
  - now rewrite IH.
Qed.

Lemma lstrip_length s :
  lstrip s = s \/ String.length (lstrip s) < String.length s.
Proof.
  induction s as [|c s IH]; simpl; [now left|].
  destruct (isspace c); [|now left].
  right. destruct IH as [->|IH]; lia.
Qed.

Lemma rstripBy_length drop s : String.length (rstripBy drop s) <= String.length s.
Proof.
  induction s as [|c s IH]; simpl; [lia|].
  destruct (rstripBy drop s); simpl in *; [destruct (drop c); simpl; lia|lia].
Qed.

(** A string that [strip] leaves as it is has whitespace at neither end. *)
Lemma stripped_ends s :
  strip s = s -> lstrip s = s /\ rstripBy isspace s = s.
Proof.
  unfold strip. intros H.
  destruct (lstrip_length s) as [E|Hlt].
  - rewrite E in H. now split.
  - pose proof (rstripBy_length isspace (lstrip s)) as Hle.
    rewrite H in Hle. lia.
Qed.

Lemma strip_padded ws1 s ws2 :
  allSpace ws1 = true -> allSpace ws2 = true -> strip s = s ->
  strip (String.append ws1 (String.append s ws2)) = s.
Proof.
  intros H1 H2 Hs. destruct (stripped_ends s Hs) as [Hl Hr].
  unfold strip. rewrite (lstrip_spaces _ _ H1).
  destruct s as [|c s].
  - simpl. destruct (lstrip_length ws2) as [E|Hlt].
    + rewrite E. now apply rstrip_only_spaces.
    + assert (Hall : forall w, allSpace w = true -> lstrip w = EmptyString).
      { induction w as [|c w IH]; simpl; [reflexivity|].
        intros H. apply andb_true_iff in H as [Hc Hw]. now rewrite Hc, IH. }
      now rewrite (Hall _ H2).
  - assert (Hc : isspace c = false).
    { simpl in Hl. destruct (isspace c); [|reflexivity].
      destruct (lstrip_length s) as [E|Hlt].
      - rewrite E in Hl. exfalso. clear -Hl.
        induction s as [|c' s IH]; [discriminate|].
        injection Hl as -> Hl. auto.
      - rewrite Hl in Hlt. simpl in Hlt. lia. }
    change (String.append (String c s) ws2) with (String c (String.append s ws2)).
    cbn [lstrip]. rewrite Hc.
    change (String c (String.append s ws2)) with (String.append (String c s) ws2).
    now rewrite (rstrip_spaces _ _ H2).
Qed.

(** What [_parseMeta] does with a line, by its first character. *)
Lemma parseMeta_node_line c s :
  Ascii.eqb c "#" = false -> _parseMeta (String c s) = Ok (None, None).
Proof. intros H. unfold _parseMeta. cbn [charAt String.get]. now rewrite H. Qed.

Lemma parseMeta_comment_line c s :
  Ascii.eqb c "#" = true -> exists kv, _parseMeta (String c s) = Ok kv.
Proof.
  intros H. unfold _parseMeta. cbn [charAt String.get]. rewrite H.
  destruct (negb true || negb (contains "=" (String c s))); eauto.
Qed.

(** X28: a metadata line written as [#key = value], with any whitespace
    around the key and the value, is read back as that key and that value,
    provided that the key contains no [=] and that neither has whitespace at
    its ends; the value may contain [=], since the line is cut at the first
    one. *)
Theorem parseMeta_round_trip (key value ws1 ws2 ws3 ws4 : string) :
  allSpace ws1 = true -> allSpace ws2 = true ->
  allSpace ws3 = true -> allSpace ws4 = true ->
  contains "=" key = false ->
  strip key = key -> strip value = value ->
  _parseMeta
    (String "#"
       (String.append (String.append ws1 (String.append key ws2))
          (String "=" (String.append ws3 (String.append value ws4)))))
  = Ok (Some key, Some value).
Proof.
  intros H1 H2 H3 H4 Hkey Hk Hv.
  set (pre := String.append ws1 (String.append key ws2)).
  set (post := String.append ws3 (String.append value ws4)).
  assert (Hpre : contains "=" pre = false).
  { unfold pre. rewrite !contains_app, Hkey.
    now rewrite (allSpace_no_equals _ H1), (allSpace_no_equals _ H2). }
  unfold _parseMeta. cbn [charAt String.get].
  change (Ascii.eqb "#" "#") with true. cbn [negb orb].
  assert (Hin : contains "=" (String "#" (String.append pre (String "=" post))) = true).
  { cbn [contains]. rewrite contains_app. cbn [contains].
    change (Ascii.eqb "=" "=") with true.
    now rewrite orb_true_r, orb_true_r. }
  rewrite Hin. cbn [negb].
  assert (Hat : find "=" (String "#" (String.append pre (String "=" post)))
                = Z.of_nat (S (String.length pre))).
  { cbn [find]. change (Ascii.eqb "#" "=") with false. cbv beta iota zeta.
    rewrite (find_first pre post Hpre).
    destruct (Z.ltb_spec (Z.of_nat (String.length pre)) 0); lia. }
  rewrite Hat.
  assert (Hlen : String.length (String "#" (String.append pre (String "=" post)))
                 = S (String.length pre + S (String.length post))).
  { cbn [String.length]. now rewrite strlen_app. }
  f_equal. f_equal.
  - f_equal. unfold slice, sliceBound. rewrite Hlen.
    replace (1 <? 0)%Z with false by reflexivity.
    destruct (Z.ltb_spec (Z.of_nat (S (String.length pre))) 0) as [Hneg|_]; [lia|].
    rewrite Z.min_l by lia. rewrite Z.min_l by lia.
    rewrite Nat2Z.id. change (Z.to_nat 1) with 1.
    replace (S (String.length pre) - 1) with (String.length pre) by lia.
    cbn [substring]. apply (strip_padded ws1 key ws2 H1 H2) in Hk.
    fold pre in Hk. now rewrite substring_prefix.
  - f_equal. unfold sliceFrom, sliceBound. rewrite Hlen.
    destruct (Z.ltb_spec (Z.of_nat (S (String.length pre)) + 1) 0) as [Hneg|_]; [lia|].
    rewrite Z.min_l by lia.
    replace (Z.to_nat (Z.of_nat (S (String.length pre)) + 1))
      with (S (String.length pre + 1)) by lia.
    replace (S (String.length pre + S (String.length post))
             - S (String.length pre + 1)) with (String.length post) by lia.
    cbn [substring]. rewrite substring_skip.
    cbn [substring]. rewrite substring_all.
    exact (strip_padded ws3 value ws4 H3 H4 Hv).
Qed.

Lemma parseMeta_round_trip_witness :
  _parseMeta "#SR_ratio = 0.333333" = Ok (Some "SR_ratio"%string, Some "0.333333"%string).
Proof.
  apply (parseMeta_round_trip "SR_ratio" "0.333333" EmptyString " " " " EmptyString);
    reflexivity.
Defined.

(** ** The loop over the lines *)

Lemma dict_get_set {V} (d : list (string * V)) k v k' :
  dict_get (dict_set d k v) k' = if String.eqb k k' then Some v else dict_get d k'.
Proof.
  induction d as [|[k0 v0] d IH]; simpl; [reflexivity|].
  destruct (String.eqb k0 k) eqn:E0; simpl.
  - apply String.eqb_eq in E0. subst k0. now destruct (String.eqb k k').
  - rewrite IH. destruct (String.eqb k0 k') eqn:E1; [|reflexivity].
    apply String.eqb_eq in E1. subst k'.
    rewrite String.eqb_sym in E0. now rewrite E0.
Qed.

Section ImportFacts.

Variable F : Type.
Variable float : string -> Result F.
Variable buildTree : string -> F * F * F -> ChildMap F -> Result Tree.

(** A node line adds one entry under its parent id and nothing else. *)
Lemma addNode_childCount st md nodeID x y z parent st' :
  addNode F float st md nodeID x y z parent = Ok st' ->
  forall k, childCount (childMap F st') k
            = childCount (childMap F st) k + (if String.eqb parent k then 1 else 0).
Proof.
  unfold addNode. intros H k.
  destruct (float x) as [x'|]; [|discriminate].
  destruct (float y) as [y'|]; [|discriminate].
  destruct (float z) as [z'|]; [|discriminate].
  injection H as <-. cbn [childMap]. unfold childCount.
  rewrite dict_get_set.
  destruct (String.eqb parent k) eqn:E.
  - apply String.eqb_eq in E. subst k.
    destruct (dict_get (childMap F st) parent) as [l|] eqn:Hl.
    + rewrite Hl, length_app. simpl. lia.
    + rewrite dict_get_set, String.eqb_refl. reflexivity.
  - destruct (dict_get (childMap F st) parent) as [l|] eqn:Hl.
    + lia.
    + rewrite dict_get_set, E. lia.
Qed.

(** The entries that a node line adds depend on [childMap] alone. *)
Lemma addNode_same st1 st2 md1 md2 nodeID x y z parent :
  childMap F st1 = childMap F st2 ->
  match addNode F float st1 md1 nodeID x y z parent,
        addNode F float st2 md2 nodeID x y z parent with
  | Ok st1', Ok st2' => childMap F st1' = childMap F st2'
  | Raise e1, Raise e2 => e1 = e2
  | _, _ => False
  end.
Proof.
  intros H. unfold addNode. rewrite H.
  destruct (float x); [|reflexivity].
  destruct (float y); [|reflexivity].
  destruct (float z); reflexivity.
Qed.

Lemma nodesWithParent_comment k line rest :
  isComment line = true ->
  nodesWithParent k (line :: rest) = nodesWithParent k rest.
Proof. intros H. unfold nodesWithParent. simpl. now rewrite H. Qed.

Lemma nodesWithParent_node k line rest :
  isComment line = false ->
  length (nodesWithParent k (line :: rest))
  = (if String.eqb (parentField line) k then 1 else 0)
    + length (nodesWithParent k rest).
Proof.
  intros H. unfold nodesWithParent. simpl. rewrite H. simpl.
  now destruct (String.eqb (parentField line) k).
Qed.

(** What a run of the loop to its end went through. *)
Lemma readLines_inv swcLines : forall st st',
  readLines F float swcLines st = Ok (Some st') ->
  List.Forall (fun line => line <> EmptyString) swcLines /\
  List.Forall (fun line => length (split " " line) = 7)
    (List.filter (fun line => negb (isComment line)) swcLines) /\
  forall k, childCount (childMap F st') k
            = childCount (childMap F st) k + length (nodesWithParent k swcLines).
Proof.
  induction swcLines as [|line rest IH]; intros st st' H.
  - injection H as <-. split; [constructor|]. split; [constructor|].
    intros k. simpl. lia.
  - destruct line as [|c s]; [discriminate H|].
    cbn [readLines] in H.
    destruct (Ascii.eqb c "#") eqn:Hc.
    + destruct (parseMeta_comment_line c s Hc) as [[metaKey metaValue] Hmeta].
      rewrite Hmeta in H. cbn [charAt String.get] in H. rewrite Hc in H.
      apply IH in H as (Hne & Hfields & Hcount). cbn [childMap] in Hcount.
      split; [constructor; [discriminate|exact Hne]|].
      split; [simpl; rewrite Hc; exact Hfields|].
      intros k. rewrite nodesWithParent_comment by (simpl; exact Hc).
      apply Hcount.
    + rewrite (parseMeta_node_line c s Hc) in H.
      cbn [charAt String.get] in H. rewrite Hc in H.
      destruct (split " " (String c s))
        as [|nodeID [|nodeType [|x [|y [|z [|radius [|parent [|extra parts]]]]]]]]
        eqn:Hsplit; try discriminate H.
      destruct (addNode F float st (metadata F st) nodeID x y z parent)
        as [st1|] eqn:Hadd; [|discriminate H].
      apply IH in H as (Hne & Hfields & Hcount).
      pose proof (addNode_childCount _ _ _ _ _ _ _ _ Hadd) as Hone.
      split; [constructor; [discriminate|exact Hne]|].
      split.
      * simpl List.filter. rewrite Hc. cbn [negb].
        constructor; [now rewrite Hsplit|exact Hfields].
      * intros k. rewrite Hcount, Hone.
        rewrite nodesWithParent_node by (simpl; exact Hc).
        unfold parentField. rewrite Hsplit. simpl nth. lia.
Qed.

(** Comment lines change neither the outcome of the loop nor [childMap]. *)
Lemma readLines_skips_comments swcLines : forall st1 st2,
  childMap F st1 = childMap F st2 ->
  sameChildMap
    (readLines F float swcLines st1)
    (readLines F float
       (List.filter (fun line => negb (isComment line)) swcLines) st2).
Proof.
  induction swcLines as [|line rest IH]; intros st1 st2 Hsame.
  - simpl. exact Hsame.
  - destruct line as [|c s]; [reflexivity|].
    cbn [List.filter isComment].
    destruct (Ascii.eqb c "#") eqn:Hc; cbn [negb].
    + cbn [readLines].
      destruct (parseMeta_comment_line c s Hc) as [[metaKey metaValue] Hmeta].
      rewrite Hmeta. cbn [charAt String.get]. rewrite Hc.
      apply IH. exact Hsame.
    + cbn [readLines]. rewrite (parseMeta_node_line c s Hc).
      cbn [charAt String.get]. rewrite Hc.
      destruct (split " " (String c s))
        as [|nodeID [|nodeType [|x [|y [|z [|radius [|parent [|extra parts]]]]]]]];
        try exact I.
      pose proof (addNode_same st1 st2 (metadata F st1) (metadata F st2)
                    nodeID x y z parent Hsame) as Hadd.
      destruct (addNode F float st1 (metadata F st1) nodeID x y z parent) as [st1'|],
               (addNode F float st2 (metadata F st2) nodeID x y z parent) as [st2'|];
        try contradiction.
      * now apply IH.
      * exact Hadd.
Qed.

Lemma filter_rstripNewline (fileLines : list string) :
  map rstripNewline
    (List.filter (fun raw => negb (isComment (rstripNewline raw))) fileLines)
  = List.filter (fun line => negb (isComment line)) (map rstripNewline fileLines).
Proof.
  induction fileLines as [|raw l IH]; simpl; [reflexivity|].
  destruct (negb (isComment (rstripNewline raw))); simpl; now rewrite IH.
Qed.

End ImportFacts.

(** X29: when [importFromSWC] returns a tree, the file has no blank line,
    each of its lines that is no comment has exactly seven fields separated
    by single spaces, and exactly one of these lines has the parent [-1]. *)
Theorem importFromSWC_accepts_only
    (F : Type) (float : string -> Result F)
    (buildTree : string -> F * F * F -> ChildMap F -> Result Tree)
    (fileLines : list string) (tree : Tree) :
  importFromSWC F float buildTree fileLines = Ok (Some tree) ->
  List.Forall (fun raw => rstripNewline raw <> EmptyString) fileLines /\
  List.Forall (fun line => length (split " " line) = 7) (nodeLines fileLines) /\
  length (nodesWithParent "-1" (map rstripNewline fileLines)) = 1.
Proof.
  unfold importFromSWC. intros H.
  destruct (readLines F float (map rstripNewline fileLines) (mkSWCState F [] [] []))
    as [[st|]|] eqn:Hrun; try discriminate H.
  destruct (readLines_inv F float _ _ _ Hrun) as (Hne & Hfields & Hcount).
  split; [|split].
  - apply List.Forall_forall. intros raw Hraw.
    rewrite List.Forall_forall in Hne. apply Hne.
    apply in_map_iff. now exists raw.
  - exact Hfields.
  - specialize (Hcount "-1"%string). cbn [childMap] in Hcount.
    unfold _convertChildMapToTree in H. unfold childCount in Hcount at 1 2.
    simpl dict_get in Hcount at 2.
    destruct (dict_get (childMap F st) "-1") as [[|soma [|second others]]|];
      try discriminate H; [|destruct soma; discriminate H].
    simpl in Hcount. lia.
Qed.

Lemma importFromSWC_accepts_only_witness :
  exists tree,
    importFromSWC Q floatOfDigits somaOnly sampleSWC = Ok (Some tree) /\
    length (nodesWithParent "-1" (map rstripNewline sampleSWC)) = 1.
Proof.
  eexists. split; [vm_compute; reflexivity|].
  eapply (importFromSWC_accepts_only Q floatOfDigits somaOnly sampleSWC).
  vm_compute; reflexivity.
Defined.

(** X30: the comment lines of a file, and with them the metadata that
    [importFromSWC] collects from them, have no influence on what it returns
    or raises: the file without its comment lines gives the same outcome. *)
Theorem importFromSWC_ignores_comments
    (F : Type) (float : string -> Result F)
    (buildTree : string -> F * F * F -> ChildMap F -> Result Tree)
    (fileLines : list string) :
  importFromSWC F float buildTree fileLines
  = importFromSWC F float buildTree
      (List.filter (fun raw => negb (isComment (rstripNewline raw))) fileLines).
Proof.
  unfold importFromSWC. rewrite filter_rstripNewline.
  pose proof (readLines_skips_comments F float (map rstripNewline fileLines)
                (mkSWCState F [] [] []) (mkSWCState F [] [] []) eq_refl) as H.
  unfold sameChildMap in H.
  destruct (readLines F float (map rstripNewline fileLines) _) as [[st1|]|e1],
           (readLines F float (List.filter _ (map rstripNewline fileLines)) _)
             as [[st2|]|e2];
    try contradiction; try reflexivity.
  - now rewrite H.
  - now rewrite H.
Qed.
